(** * Streambot: the experiment orchestrator of [desktop/scraping.js]

    A shallow embedding of the script that drives repeated browser
    experiments next to a packet capture, and the properties of its event
    log, its failure handler, its preflight check and its artifact paths.

    The script talks to the outside world all the time (the clock, the file
    system, the capture subprocess, the browser).  Everything the outside
    world decides is read from an oracle: the n-th interaction of an
    execution gets the n-th answer.  The program itself is a state and
    exception monad over the file system, the table of child processes, the
    two objects an iteration owns and the trace of what was done. *)

From Stdlib Require Import ZArith Lia Ascii.
From stdpp Require Import base option list sorting gmap strings pretty.

Open Scope Z_scope.

#[local] Set Warnings "-clear-no-such-hyp".
#[local] Set Warnings "-non-boolean-if".

(** ** [config.json] *)

Record Channel := { name : string; link : string }.

Record SnifferConfig := {
  sniffer_bin : string;
  sniffer_net : string;
  sniffer_max : string
}.

Record Config := {
  config_sniffer : SnifferConfig;
  config_fastAwait : Z;
  config_longAwait : Z;
  config_homepage : string;
  config_channels : list Channel;
  config_repetitions : nat
}.

(** ** The outside world *)

Inductive Signal := SIGTERM | SIGKILL | SIGINT | SIGHUP.

Definition signal_name (sg : Signal) : string :=
  match sg with
  | SIGTERM => "SIGTERM" | SIGKILL => "SIGKILL"
  | SIGINT => "SIGINT" | SIGHUP => "SIGHUP"
  end.

(** What a child process may be seen doing while the script is suspended. *)
Inductive ProcEvent :=
  | ProcExit (code : option Z) (signal : option Signal)
  | ProcWrite (data : string).

(** One answer of the outside world.  Each interaction reads the fields it
    needs:
    - [a_now]: [Date.now()];
    - [a_dateString]: [new Date().toDateString()];
    - [a_isoDate], [a_clockTime]: the two halves of the directory name,
      [now.toISOString().split('T')[0]] and
      [now.toTimeString().split(' ')[0].replace(/:/g, '-')];
    - [a_error]: the call throws (its promise rejects) with this message;
    - [a_partial]: how far a failing [appendFileSync] got: nothing when the
      file could not be opened, else the number of characters it had
      written when the error came;
    - [a_pid], [a_spawnError]: the pid [spawn] obtains, or none and the
      message of the error event when the binary cannot be started;
    - [a_delivered]: [kill] got its signal through;
    - [a_pages]: how many pages [browser.pages()] resolves to;
    - [a_written]: the archive [har.stop()] writes to its path;
    - [a_events]: child-process activity, by handle, seen during a wait. *)
Record Answer := {
  a_now : Z;
  a_dateString : string;
  a_isoDate : string;
  a_clockTime : string;
  a_error : option string;
  a_partial : option nat;
  a_pid : option nat;
  a_spawnError : string;
  a_delivered : bool;
  a_pages : nat;
  a_written : option string;
  a_events : list (nat * ProcEvent)
}.

(** ** The state of the script *)

Inductive Node := File (content : string) | Dir.

(** The listeners the script registers on a child process. *)
Inductive Listener :=
  | OnStartError (currentTime : string)
  | OnStartExit
  | OnStopExit.

Record Proc := {
  spawnfile : string;
  spawnargs : list string;
  pid : option nat;
  killed : bool;
  exited : bool;
  pendingError : option string;
  listeners : list Listener
}.

Record Sniffer := { outputPath : string; snifferProcess : option nat }.

Record BrowserManager := { browser : option nat; page : option nat }.

Record Experiment := {
  outputDir : string;
  fastAwait : Z;
  longAwait : Z;
  watchAwait : Z
}.

(** What the script does to the outside world, in order. *)
Inductive Effect :=
  | ConsoleLog (line : string)
  | ConsoleError (line : string)
  | ProcessExit (code : Z)
  | Mkdir (path : string)
  | Append (path : string) (data : string)
  | Unlink (path : string)
  | Spawn (file : string) (args : list string) (handle : nat)
  | Kill (handle : nat) (sg : Signal) (delivered : bool)
  | Launch (handle : nat)
  | Pages (handle : nat)
  | BrowserClose (handle : nat)
  | Goto (url : string)
  | HarStart (path : string)
  | HarStop (path : string)
  | Wait (ms : Z).

(** [sniffer] and [browserManager] are the iteration's two [let] variables;
    each holds the only reference to its object, so the object lives in the
    variable. *)
Record St := {
  tick : nat;
  fs : gmap string Node;
  procs : list Proc;
  sniffer : option Sniffer;
  browserManager : option BrowserManager;
  trace : list Effect
}.

Definition set_tick (n : nat) (s : St) : St :=
  {| tick := n; fs := fs s; procs := procs s; sniffer := sniffer s;
     browserManager := browserManager s; trace := trace s |}.
Definition set_fs (m : gmap string Node) (s : St) : St :=
  {| tick := tick s; fs := m; procs := procs s; sniffer := sniffer s;
     browserManager := browserManager s; trace := trace s |}.
Definition set_procs (ps : list Proc) (s : St) : St :=
  {| tick := tick s; fs := fs s; procs := ps; sniffer := sniffer s;
     browserManager := browserManager s; trace := trace s |}.
Definition set_sniffer (x : option Sniffer) (s : St) : St :=
  {| tick := tick s; fs := fs s; procs := procs s; sniffer := x;
     browserManager := browserManager s; trace := trace s |}.
Definition set_browserManager (x : option BrowserManager) (s : St) : St :=
  {| tick := tick s; fs := fs s; procs := procs s; sniffer := sniffer s;
     browserManager := x; trace := trace s |}.
Definition set_trace (t : list Effect) (s : St) : St :=
  {| tick := tick s; fs := fs s; procs := procs s; sniffer := sniffer s;
     browserManager := browserManager s; trace := t |}.

Arguments set_tick _ _ /.
Arguments set_fs _ _ /.
Arguments set_procs _ _ /.
Arguments set_sniffer _ _ /.
Arguments set_browserManager _ _ /.
Arguments set_trace _ _ /.

(** ** The monad: state, exceptions, and [process.exit] *)

Inductive Res (A : Type) :=
  | Ok (a : A)
  | Throw (message : string)
  | Exit (code : Z).
Arguments Ok {A} a.
Arguments Throw {A} message.
Arguments Exit {A} code.

Definition M (A : Type) : Type := St → Res A * St.

Definition ret {A} (a : A) : M A := λ s, (Ok a, s).

Definition bind {A B} (m : M A) (f : A → M B) : M B := λ s,
  match m s with
  | (Ok a, s1) => f a s1
  | (Throw e, s1) => (Throw e, s1)
  | (Exit c, s1) => (Exit c, s1)
  end.

Definition throw {A} (message : string) : M A := λ s, (Throw message, s).

(** [try { body } catch (error) { handler(error.message) }]: only an
    exception is caught, the end of the process is not. *)
Definition try_catch {A} (body : M A) (handler : string → M A) : M A := λ s,
  match body s with
  | (Throw e, s1) => handler e s1
  | r => r
  end.

Definition gets {A} (f : St → A) : M A := λ s, (Ok (f s), s).
Definition modify (f : St → St) : M unit := λ s, (Ok tt, f s).

Declare Scope M_scope.
Delimit Scope M_scope with M.
Notation "'let*' x ':=' m 'in' k" := (bind m (λ x, k))
  (at level 10, x name, m at level 100, k at level 200) : M_scope.
Notation "m '>>' k" := (bind m (λ _, k))
  (at level 100, k at level 200, right associativity) : M_scope.
Open Scope M_scope.

Fixpoint for_each {A} (l : list A) (body : A → M unit) : M unit :=
  match l with
  | [] => ret tt
  | x :: l => body x >> for_each l body
  end.

Definition when (b : bool) (m : M unit) : M unit := if b then m else ret tt.

Definition emit (e : Effect) : M unit :=
  modify (λ s, set_trace (trace s ++ [e]) s).

Definition console_log (line : string) : M unit := emit (ConsoleLog line).
Definition console_error (line : string) : M unit := emit (ConsoleError line).

Definition nl : string := String "010"%char "".

Definition path_join (dir file : string) : string := dir +:+ "/" +:+ file.

Section Script.

(** [config] is the loaded [config.json], [dirname] the script's
    [__dirname], [world] the answers of the outside world. *)
Variable config : Config.
Variable dirname : string.
Variable world : nat → Answer.

(** The next answer of the outside world. *)
Definition fresh : M Answer := λ s,
  (Ok (world (tick s)), set_tick (S (tick s)) s).

(** *** The file system *)

Definition existsSync (path : string) : M bool :=
  gets (λ s, bool_decide (is_Some (fs s !! path))).

Definition mkdirSync (path : string) : M unit :=
  let* a := fresh in
  emit (Mkdir path) >>
  match a_error a with
  | Some e => throw e
  | None =>
      let* node := gets (λ s, fs s !! path) in
      match node with
      | Some _ => throw "EEXIST: file already exists"
      | None => modify (λ s, set_fs (<[path := Dir]> (fs s)) s)
      end
  end.

(** [fs.appendFileSync] opens the file, which creates it when there is
    none, and then writes.  A call that fails has failed at the opening,
    nothing being changed, or at the writing, the file then being there with
    as much of the data as was written. *)
Definition appendFileSync (path data : string) : M unit :=
  let* a := fresh in
  emit (Append path data) >>
  match a_error a with
  | Some e =>
      match a_partial a with
      | Some n =>
          let* node := gets (λ s, fs s !! path) in
          match node with
          | Some Dir => throw e
          | Some (File old) =>
              modify (λ s, set_fs (<[path := File (old +:+ String.substring 0 n data)]>
                                     (fs s)) s) >>
              throw e
          | None =>
              modify (λ s, set_fs (<[path := File (String.substring 0 n data)]>
                                     (fs s)) s) >>
              throw e
          end
      | None => throw e
      end
  | None =>
      let* node := gets (λ s, fs s !! path) in
      match node with
      | Some Dir => throw "EISDIR: illegal operation on a directory"
      | Some (File old) =>
          modify (λ s, set_fs (<[path := File (old +:+ data)]> (fs s)) s)
      | None => modify (λ s, set_fs (<[path := File data]> (fs s)) s)
      end
  end.

Definition unlinkSync (path : string) : M unit :=
  let* a := fresh in
  emit (Unlink path) >>
  match a_error a with
  | Some e => throw e
  | None =>
      let* node := gets (λ s, fs s !! path) in
      match node with
      | Some (File _) => modify (λ s, set_fs (delete path (fs s)) s)
      | Some Dir => throw "EISDIR: illegal operation on a directory"
      | None => throw "ENOENT: no such file or directory"
      end
  end.

(** *** Child processes and the event loop *)

(** The file a capture process writes: the argument after [-w], the last
    one of the command line [Sniffer.start] builds. *)
Definition capture_file (p : Proc) : string := default "" (last (spawnargs p)).

Definition running (p : Proc) : bool :=
  bool_decide (is_Some (pid p)) && negb (exited p).

Definition update_proc (h : nat) (f : Proc → Proc) : M unit :=
  modify (λ s, set_procs (alter f h (procs s)) s).

Definition mark_killed (p : Proc) : Proc :=
  {| spawnfile := spawnfile p; spawnargs := spawnargs p; pid := pid p;
     killed := true; exited := exited p; pendingError := pendingError p;
     listeners := listeners p |}.
Definition mark_exited (p : Proc) : Proc :=
  {| spawnfile := spawnfile p; spawnargs := spawnargs p; pid := pid p;
     killed := killed p; exited := true; pendingError := pendingError p;
     listeners := listeners p |}.
Definition clear_pending (p : Proc) : Proc :=
  {| spawnfile := spawnfile p; spawnargs := spawnargs p; pid := pid p;
     killed := killed p; exited := exited p; pendingError := None;
     listeners := listeners p |}.
Definition add_listener (l : Listener) (p : Proc) : Proc :=
  {| spawnfile := spawnfile p; spawnargs := spawnargs p; pid := pid p;
     killed := killed p; exited := exited p; pendingError := pendingError p;
     listeners := listeners p ++ [l] |}.

Definition currentTime : M string :=
  let* a := fresh in ret (a_dateString a).

Definition currentUnix : M Z :=
  let* a := fresh in ret (a_now a).

Definition render_code (code : option Z) : string :=
  match code with Some c => pretty c | None => "null" end.

(** The body of a listener, run when its event is emitted. *)
Definition on_error (message : string) (l : Listener) : M unit :=
  match l with
  | OnStartError currentTime =>
      console_error ("[" +:+ currentTime +:+ "] Error starting tshark process: "
                     +:+ message)
  | _ => ret tt
  end.

Definition on_exit (code : option Z) (signal : option Signal) (l : Listener)
  : M unit :=
  match l with
  | OnStartError _ => ret tt
  | OnStartExit =>
      let* exitTime := currentTime in
      if bool_decide (code = Some 0)
      then console_log ("[" +:+ exitTime +:+ "] Tshark process exited successfully.")
      else console_error ("[" +:+ exitTime
                          +:+ "] Tshark process exited with error code: "
                          +:+ render_code code)
  | OnStopExit =>
      let* exitTime := currentTime in
      match signal with
      | Some sg =>
          console_log ("[" +:+ exitTime +:+ "] Tshark process was stopped by signal: "
                       +:+ signal_name sg)
      | None =>
          if bool_decide (code ≠ Some 0)
          then console_error ("[" +:+ exitTime
                              +:+ "] Tshark process terminated with error code: "
                              +:+ render_code code)
          else console_log ("[" +:+ exitTime +:+ "] Tshark process stopped successfully.")
      end
  end.

(** A process that could not be started emits its error event on the next
    turn of the event loop. *)
Definition flush_error (h : nat) : M unit :=
  let* p := gets (λ s, procs s !! h) in
  match p with
  | Some p =>
      match pendingError p with
      | Some message =>
          update_proc h clear_pending >>
          for_each (listeners p) (on_error message)
      | None => ret tt
      end
  | None => ret tt
  end.

Definition proc_event (hev : nat * ProcEvent) : M unit :=
  let* p := gets (λ s, procs s !! hev.1) in
  match p with
  | Some p =>
      if running p then
        match hev.2 with
        | ProcExit code signal =>
            update_proc hev.1 mark_exited >>
            for_each (listeners p) (on_exit code signal)
        | ProcWrite data =>
            modify (λ s,
              match fs s !! capture_file p with
              | Some Dir => s
              | Some (File old) =>
                  set_fs (<[capture_file p := File (old +:+ data)]> (fs s)) s
              | None => set_fs (<[capture_file p := File data]> (fs s)) s
              end)
        end
      else ret tt
  | None => ret tt
  end.

(** One suspension of the script: pending start errors are emitted, then
    whatever the children did meanwhile is observed. *)
Definition turn (a : Answer) : M unit :=
  let* n := gets (λ s, length (procs s)) in
  for_each (seq 0 n) flush_error >>
  for_each (a_events a) proc_event.

(** An awaited call into the browser: the effect is issued, the script is
    suspended, and the call resolves or rejects. *)
Definition external (e : Effect) : M Answer :=
  let* a := fresh in
  emit e >>
  turn a >>
  match a_error a with
  | Some message => throw message
  | None => ret a
  end.

(** *** [Utils] *)

Definition awaiting (ms : Z) : M unit :=
  let* a := fresh in
  emit (Wait ms) >>
  turn a.

Definition makeOutputDir : M string :=
  let* now := fresh in
  let dateStr := a_isoDate now in
  let timeStr := a_clockTime now in
  let dirPath := path_join dirname (dateStr +:+ "_" +:+ timeStr) in
  let* present := existsSync dirPath in
  when (negb present) (mkdirSync dirPath) >>
  ret dirPath.

Definition cleanFiles (files : list string) : M unit :=
  for_each files (λ file,
    let* present := existsSync file in
    when present (unlinkSync file)).

Definition exit {A} (code : Z) : M A := λ s,
  (Exit code, set_trace (trace s ++ [ProcessExit code]) s).

Definition checkCookies : M unit :=
  let userDataDir := path_join dirname "user_data" in
  let* present := existsSync userDataDir in
  if negb present then
    let* currentTime := currentTime in
    console_log ("[" +:+ currentTime +:+ "] The 'user_data' directory does not exist.") >>
    console_log ("[" +:+ currentTime
                 +:+ "] Please run 'node register.js' to set up the user data.") >>
    exit 1
  else ret tt.

(** *** [Sniffer] *)

Definition this_sniffer : M Sniffer :=
  let* this := gets sniffer in
  match this with
  | Some this => ret this
  | None => throw "TypeError: Cannot read properties of undefined"
  end.

(** [spawn] never throws for a missing binary: the child object is returned
    without a pid and its error event is emitted later. *)
Definition spawn (file : string) (args : list string) : M nat :=
  let* a := fresh in
  let* child := gets (λ s, length (procs s)) in
  modify (λ s, set_procs (procs s ++ [
    {| spawnfile := file; spawnargs := args; pid := a_pid a;
       killed := false; exited := false;
       pendingError := match a_pid a with
                       | Some _ => None
                       | None => Some (a_spawnError a)
                       end;
       listeners := [] |}]) s) >>
  emit (Spawn file args child) >>
  ret child.

Definition on (child : nat) (l : Listener) : M unit :=
  update_proc child (add_listener l).

(** [kill] sends the signal only to a child that runs; [killed] is set when
    the signal got through. *)
Definition kill (child : nat) (sg : Signal) : M bool :=
  let* a := fresh in
  let* p := gets (λ s, procs s !! child) in
  let sent := match p with
              | Some p => running p && a_delivered a
              | None => false
              end in
  emit (Kill child sg sent) >>
  when sent (update_proc child mark_killed) >>
  ret sent.

Definition new_Sniffer (outputPath : string) : Sniffer :=
  {| outputPath := outputPath; snifferProcess := None |}.

Definition Sniffer_start : M unit :=
  let* this := this_sniffer in
  let cmd := [sniffer_bin (config_sniffer config); "-i";
              sniffer_net (config_sniffer config); "-s";
              sniffer_max (config_sniffer config); "-w"; outputPath this] in
  let* child := spawn (hd "" cmd) (tl cmd) in
  modify (set_sniffer (Some {| outputPath := outputPath this;
                               snifferProcess := Some child |})) >>
  let* currentTime := currentTime in
  on child (OnStartError currentTime) >>
  on child OnStartExit.

Definition render_pid (p : option nat) : string :=
  match p with Some n => pretty n | None => "undefined" end.

(** [stop(signal = "SIGTERM")]: [None] is the call without argument. *)
Definition Sniffer_stop (signal : option Signal) : M unit :=
  let signal := default SIGTERM signal in
  let* this := this_sniffer in
  match snifferProcess this with
  | Some child =>
      let* p := gets (λ s, procs s !! child) in
      match p with
      | Some p =>
          if negb (killed p) then
            let* currentTime := currentTime in
            console_log ("[" +:+ currentTime
                         +:+ "] Stopping tshark process with PID: "
                         +:+ render_pid (pid p)) >>
            let* _ := kill child signal in
            on child OnStopExit
          else ret tt
      | None => ret tt
      end
  | None => ret tt
  end.

(** *** [BrowserManager] *)

Record Har := { har_path : string }.

Definition new_BrowserManager : BrowserManager :=
  {| browser := None; page := None |}.

Definition this_browserManager : M BrowserManager :=
  let* this := gets browserManager in
  match this with
  | Some this => ret this
  | None => throw "TypeError: Cannot read properties of undefined"
  end.

Definition BrowserManager_launch : M unit :=
  let* this := this_browserManager in
  let* b := gets tick in
  let* _ := external (Launch b) in
  modify (set_browserManager (Some {| browser := Some b; page := page this |})) >>
  let* pages := external (Pages b) in
  let first := if bool_decide (0 < a_pages pages)%nat then Some b else None in
  modify (set_browserManager (Some {| browser := Some b; page := first |})) >>
  match first with
  | Some _ => ret tt
  | None =>
      let* _ := external (BrowserClose b) in
      throw "No page available in the browser"
  end.

Definition BrowserManager_close : M unit :=
  let* this := this_browserManager in
  match browser this with
  | Some b => let* _ := external (BrowserClose b) in ret tt
  | None => ret tt
  end.

Definition BrowserManager_startHarLogging (outputPath : string) : M Har :=
  let* _ := external (HarStart outputPath) in
  ret {| har_path := outputPath |}.

(** [har.stop()] writes the archive to the path given at start. *)
Definition Har_stop (har : Har) : M unit :=
  let* a := fresh in
  emit (HarStop (har_path har)) >>
  turn a >>
  match a_written a with
  | Some data =>
      let* node := gets (λ s, fs s !! har_path har) in
      match node with
      | Some Dir => throw "EISDIR: illegal operation on a directory"
      | _ => modify (λ s, set_fs (<[har_path har := File data]> (fs s)) s)
      end
  | None => ret tt
  end >>
  match a_error a with
  | Some message => throw message
  | None => ret tt
  end.

Definition page_goto (url : string) : M unit :=
  let* this := this_browserManager in
  match page this with
  | Some _ => let* _ := external (Goto url) in ret tt
  | None => throw "TypeError: Cannot read properties of null"
  end.

(** *** [Experiment] *)

Definition new_Experiment : M Experiment :=
  let* dir := makeOutputDir in
  ret {| outputDir := dir;
         fastAwait := config_fastAwait config * 1000;
         longAwait := config_longAwait config * 1000;
         watchAwait := config_longAwait config * 1000 * 30 |}.

(** The three artifact paths of repetition [number] (counted from 0). *)
Definition logNetFile (dir : string) (number : nat) : string :=
  path_join dir ("log_net_complete-" +:+ pretty (number + 1)%nat +:+ ".pcap").
Definition logBotFile (dir : string) (number : nat) : string :=
  path_join dir ("log_bot_complete-" +:+ pretty (number + 1)%nat +:+ ".csv").
Definition logHarFile (dir : string) (number : nat) : string :=
  path_join dir ("log_har_complete-" +:+ pretty (number + 1)%nat +:+ ".har").

Definition header : string := "event abs rel" +:+ nl.

(** One line of the event log: [`${event} ${abs} ${rel}\n`]. *)
Definition entry_line (event : string) (abs rel : Z) : string :=
  event +:+ " " +:+ pretty abs +:+ " " +:+ pretty rel +:+ nl.

(** The body of the channel loop. *)
Definition visit (this : Experiment) (logBot : string) (originTime : Z)
    (channel : Channel) : M unit :=
  page_goto (link channel) >>
  let* channelStartTime := currentUnix in
  appendFileSync logBot
    (entry_line (name channel +:+ "-on") channelStartTime
                (channelStartTime - originTime)) >>
  awaiting (watchAwait this) >>
  let* channelStopTime := currentUnix in
  appendFileSync logBot
    (entry_line (name channel +:+ "-off") channelStopTime
                (channelStopTime - originTime)) >>
  page_goto (config_homepage config) >>
  awaiting (fastAwait this).

(** The [try] block of one repetition. *)
Definition run_try (this : Experiment) (number : nat) : M unit :=
  let logNet := logNetFile (outputDir this) number in
  let logBot := logBotFile (outputDir this) number in
  let logHar := logHarFile (outputDir this) number in
  appendFileSync logBot header >>
  let* originTime := currentUnix in
  appendFileSync logBot (entry_line "origin" originTime 0) >>
  modify (set_sniffer (Some (new_Sniffer logNet))) >>
  Sniffer_start >>
  let* snifferStartTime := currentUnix in
  appendFileSync logBot
    (entry_line "sniffer-on" snifferStartTime (snifferStartTime - originTime)) >>
  modify (set_browserManager (Some new_BrowserManager)) >>
  BrowserManager_launch >>
  let* browserStartTime := currentUnix in
  appendFileSync logBot
    (entry_line "browser-on" browserStartTime (browserStartTime - originTime)) >>
  awaiting (fastAwait this) >>
  let* harLogger := BrowserManager_startHarLogging logHar in
  page_goto (config_homepage config) >>
  awaiting (longAwait this) >>
  for_each (config_channels config) (visit this logBot originTime) >>
  Har_stop harLogger >>
  BrowserManager_close >>
  let* browserStopTime := currentUnix in
  appendFileSync logBot
    (entry_line "browser-off" browserStopTime (browserStopTime - originTime)) >>
  awaiting (longAwait this * 2) >>
  Sniffer_stop None >>
  let* snifferStopTime := currentUnix in
  appendFileSync logBot
    (entry_line "sniffer-off" snifferStopTime (snifferStopTime - originTime)).

(** The [catch] block of one repetition. *)
Definition run_catch (this : Experiment) (number : nat) (message : string)
  : M unit :=
  let logNet := logNetFile (outputDir this) number in
  let logBot := logBotFile (outputDir this) number in
  let logHar := logHarFile (outputDir this) number in
  console_error ("Error during experiment " +:+ pretty (number + 1)%nat
                 +:+ ": " +:+ message) >>
  let* manager := gets browserManager in
  when (bool_decide (is_Some manager)) BrowserManager_close >>
  cleanFiles [logNet; logBot; logHar] >>
  let* capture := gets sniffer in
  when (bool_decide (is_Some capture)) (Sniffer_stop None).

(** One pass of the repetition loop: the [let] declares both variables
    afresh. *)
Definition run_iteration (this : Experiment) (number : nat) : M unit :=
  let* currentTime := currentTime in
  console_log ("[" +:+ currentTime +:+ "] Running experiment "
               +:+ pretty (number + 1)%nat) >>
  modify (set_sniffer None) >>
  modify (set_browserManager None) >>
  try_catch (run_try this number) (run_catch this number).

Definition Experiment_run (this : Experiment) : M unit :=
  for_each (seq 0 (config_repetitions config)) (run_iteration this).

Definition main : M unit :=
  checkCookies >>
  let* experiment := new_Experiment in
  Experiment_run experiment.


(** ** What an operation may change *)

Definition is_console (e : Effect) : bool :=
  match e with
  | ConsoleLog _ | ConsoleError _ => true
  | _ => false
  end.

(** The calls into the browser. *)
Definition is_session (e : Effect) : bool :=
  match e with
  | Launch _ | Pages _ | BrowserClose _ | Goto _ => true
  | _ => false
  end.

(** The trace without what is printed: the actions on the outside world. *)
Definition actions (t : list Effect) : list Effect :=
  List.filter (λ e, negb (is_console e)) t.

(** The files the child processes write. *)
Definition captures (s : St) : list string := capture_file <$> procs s.

(** [eff T acts s s']: going from [s] to [s'] took the actions [acts], left
    every file alone that is neither in [T] nor the capture file of a child
    process, and added to the capture files only members of [T]. *)
Record eff (T : list string) (acts : list Effect) (s s' : St) : Prop := {
  eff_tick : (tick s ≤ tick s')%nat;
  eff_fs : ∀ p, p ∉ T → p ∉ captures s → fs s' !! p = fs s !! p;
  eff_captures : ∃ more, captures s' = captures s ++ more ∧ more ⊆ T;
  eff_actions : actions (trace s') = actions (trace s) ++ acts
}.

(** An operation that always returns, prints at most, and leaves alone
    everything but the flags and listeners of the child processes and the
    files they write. *)
Definition quiet {A} (m : M A) : Prop :=
  ∀ s, ∃ a s', m s = (Ok a, s') ∧ eff [] [] s s' ∧
    captures s' = captures s ∧
    sniffer s' = sniffer s ∧ browserManager s' = browserManager s.

(** [calm acts s s']: the actions [acts] were taken, no file but the capture
    files changed, no child process was added, and the capture object is
    the one it was. *)
Definition calm (acts : list Effect) (s s' : St) : Prop :=
  eff [] acts s s' ∧ captures s' = captures s ∧ sniffer s' = sniffer s.

(** The text of a file, empty when there is none. *)
Definition text_at (s : St) (path : string) : string :=
  match fs s !! path with
  | Some (File text) => text
  | _ => ""
  end.

(** The files an action names: the file it creates, extends or removes, or
    the capture file of the process it starts. *)
Definition effect_paths (e : Effect) : list string :=
  match e with
  | Mkdir p | Append p _ | Unlink p | HarStart p | HarStop p => [p]
  | Spawn _ args _ => [default "" (last args)]
  | _ => []
  end.

(** The three artifact paths of a repetition. *)
Definition artifacts (dir : string) (number : nat) : list string :=
  [logNetFile dir number; logBotFile dir number; logHarFile dir number].

(** An action that creates no directory and names no file outside [T]. *)
Definition permits (T : list string) (e : Effect) : Prop :=
  effect_paths e ⊆ T ∧ ∀ p, e ≠ Mkdir p.

(** The capture object, if any, writes into [T]. *)
Definition keeps (T : list string) (s : St) : Prop :=
  ∀ this, sniffer s = Some this → outputPath this ∈ T.

(** [confined T Q m]: whatever [m] does and however it ends, it does not end
    the process, it names and changes no file outside [T] (and the capture
    files of the child processes), and its result satisfies [Q]. *)
Definition confined {A} (T : list string) (Q : A → Prop) (m : M A) : Prop :=
  ∀ s r s', keeps T s → m s = (r, s') →
    keeps T s' ∧ (∀ c, r ≠ Exit c) ∧ (∀ a, r = Ok a → Q a) ∧
    ∃ acts, eff T acts s s' ∧ Forall (permits T) acts.

(** The signals that reached a child process. *)
Definition delivered (e : Effect) : bool :=
  match e with
  | Kill _ _ sent => sent
  | _ => false
  end.

Definition signals (t : list Effect) : nat :=
  length (List.filter delivered t).

(** The state in which the [try] block of repetition [number] starts: the
    banner is printed and both variables are declared afresh. *)
Definition entered (number : nat) (s : St) : St :=
  {| tick := S (tick s); fs := fs s; procs := procs s;
     sniffer := None; browserManager := None;
     trace := trace s ++
       [ConsoleLog ("[" +:+ a_dateString (world (tick s))
                    +:+ "] Running experiment " +:+ pretty (number + 1)%nat)] |}.

(** An operation that always returns, the states before and after being
    related by [R]. *)
Definition steady {A} (R : St → St → Prop) (m : M A) : Prop :=
  ∀ s, ∃ a s', m s = (Ok a, s') ∧ R s s'.

(** The trace only grows. *)
Definition grown (s s' : St) : Prop := ∃ more, trace s' = trace s ++ more.

(** The trace only grows and child process [h] is left alone. *)
Definition grown_beside (h : nat) (s s' : St) : Prop :=
  grown s s' ∧ procs s' !! h = procs s !! h.

(** [writable p s]: [p] is not a directory and no child process writes
    to it. *)
Definition writable (p : string) (s : St) : Prop :=
  fs s !! p ≠ Some Dir ∧ p ∉ captures s.

(** The session of a run is up: a browser with a page. *)
Definition session_up (s : St) : Prop :=
  ∃ b pg, browserManager s = Some {| browser := Some b; page := Some pg |}.

(** [going L H s]: a run with event log [L] and traffic log [H] is under
    way in [s]: both files can be written, the session is up and there is
    a capture object. *)
Record going (L H : string) (s : St) : Prop := {
  g_log : writable L s;
  g_har : writable H s;
  g_session : session_up s;
  g_sniffer : is_Some (sniffer s)
}.

(** ** The event log *)

(** One line of the event log. *)
Record Entry := { event : string; abs : Z; rel : Z }.

Definition render (es : list Entry) : string :=
  foldr (λ e text, entry_line (event e) (abs e) (rel e) +:+ text) "" es.

(** The entry written for [event] with the clock read at interaction [k],
    in a run whose origin was read at interaction [k0]. *)
Definition entry_at (k0 : nat) (stamp : string * nat) : Entry :=
  {| event := stamp.1;
     abs := a_now (world stamp.2);
     rel := a_now (world stamp.2) - a_now (world k0) |}.

(** The durations waited, in order. *)
Definition waits_of (acts : list Effect) : list Z :=
  flat_map (λ e, match e with Wait ms => [ms] | _ => [] end) acts.

(** The event names of a complete log for the given channels. *)
Definition log_events (channels : list Channel) : list string :=
  ["origin"; "sniffer-on"; "browser-on"] ++
  flat_map (λ c, [name c +:+ "-on"; name c +:+ "-off"]) channels ++
  ["browser-off"; "sniffer-off"].

(** [logged G L base k0 stamps a0 ws s]: the clock readings of [stamps]
    were taken in this order, all in the past; since the actions [a0] the
    waits [ws] have been made; and, when [G] holds (no child process wrote
    to the log [L] when the run began), none does in [s], and [L] holds
    [base] followed by the entries of [stamps]. *)
Record logged (G : Prop) (L base : string) (k0 : nat)
    (stamps : list (string * nat)) (a0 : list Effect) (ws : list Z) (s : St)
    : Prop := {
  lg_text : G →
    fs s !! L = Some (File (base +:+ render (entry_at k0 <$> stamps)));
  lg_free : G → L ∉ captures s;
  lg_sorted : StronglySorted lt (snd <$> stamps);
  lg_past : Forall (λ k, (k < tick s)%nat) (snd <$> stamps);
  lg_waits : ∃ acts, actions (trace s) = a0 ++ acts ∧ waits_of acts = ws
}.

(** An operation that, whatever its outcome, changes no file outside [T]
    and the capture files, and waits for nothing. *)
Definition tame {A} (T : list string) (m : M A) : Prop :=
  ∀ s r s', m s = (r, s') → ∃ acts, eff T acts s s' ∧ waits_of acts = [].

(** ** The claims that do not hold as they are stated *)

(** The offsets of the event log of a successful run never decrease. *)
Definition offsets_never_decrease : Prop :=
  ∀ this number s s' es,
    run_try this number s = (Ok tt, s') →
    fs s !! logBotFile (outputDir this) number = None →
    logBotFile (outputDir this) number ∉ captures s →
    fs s' !! logBotFile (outputDir this) number
      = Some (File (header +:+ render es)) →
    StronglySorted Z.le (rel <$> es).



(** When the capture binary is missing the repetition is aborted, and its
    event log is removed. *)
Definition missing_binary_aborts_run : Prop :=
  ∀ this number s r s',
    (∀ k, a_pid (world k) = None) →
    run_iteration this number s = (r, s') →
    fs s' !! logBotFile (outputDir this) number = None.

(** When the preflight check passes, the script ends normally. *)
Definition loop_always_completes : Prop :=
  ∀ s r s',
    is_Some (fs s !! path_join dirname "user_data") →
    main s = (r, s') → r = Ok tt.

(** ** The monad *)

Lemma bind_Ok {A B} (m : M A) (f : A → M B) s b s' :
  bind m f s = (Ok b, s') →
  ∃ a s1, m s = (Ok a, s1) ∧ f a s1 = (Ok b, s').
Proof.
  unfold bind. destruct (m s) as [[a|e|c] s1]; intros; simplify_eq; eauto.
Qed.

Lemma bind_inv {A B} (m : M A) (f : A → M B) s r s' :
  bind m f s = (r, s') →
  (∃ a s1, m s = (Ok a, s1) ∧ f a s1 = (r, s')) ∨
  (∃ e, m s = (Throw e, s') ∧ r = Throw e) ∨
  (∃ c, m s = (Exit c, s') ∧ r = Exit c).
Proof.
  unfold bind. destruct (m s) as [[a|e|c] s1]; intros; simplify_eq; eauto.
Qed.

Lemma bind_eq {A B} (m : M A) (f : A → M B) s a s1 :
  m s = (Ok a, s1) → bind m f s = f a s1.
Proof. unfold bind. by intros ->. Qed.

Lemma bind_assoc {A B C} (m : M A) (f : A → M B) (g : B → M C) s :
  bind (bind m f) g s = bind m (λ a, bind (f a) g) s.
Proof. unfold bind. by destruct (m s) as [[a|e|c] s1]. Qed.

Lemma bind_ext {A B} (m : M A) (f g : A → M B) s :
  (∀ a s1, f a s1 = g a s1) → bind m f s = bind m g s.
Proof. intros H. unfold bind. destruct (m s) as [[a|e|c] s1]; auto. Qed.

Lemma bind_ret {A B} (a : A) (f : A → M B) s : bind (ret a) f s = f a s.
Proof. reflexivity. Qed.

Lemma bind_throw {A B} e (f : A → M B) s : bind (throw e) f s = (Throw e, s).
Proof. reflexivity. Qed.

Lemma bind_gets {A B} (g : St → A) (f : A → M B) s :
  bind (gets g) f s = f (g s) s.
Proof. reflexivity. Qed.

Lemma bind_modify {B} (g : St → St) (f : unit → M B) s :
  bind (modify g) f s = f tt (g s).
Proof. reflexivity. Qed.

Lemma bind_emit {B} e (f : unit → M B) s :
  bind (emit e) f s = f tt (set_trace (trace s ++ [e]) s).
Proof. reflexivity. Qed.

Lemma eff_refl T s : eff T [] s s.
Proof.
  split.
  - lia.
  - done.
  - exists []. rewrite app_nil_r. split; [done|set_solver].
  - by rewrite app_nil_r.
Qed.

Lemma eff_trans T a1 a2 s s1 s2 :
  eff T a1 s s1 → eff T a2 s1 s2 → eff T (a1 ++ a2) s s2.
Proof.
  intros [t1 f1 (m1 & c1 & i1) x1] [t2 f2 (m2 & c2 & i2) x2].
  split.
  - lia.
  - intros p HT Hp. rewrite f2; [by apply f1|done|].
    rewrite c1. intros [?|?]%elem_of_app; [done|]. apply HT. by apply i1.
  - exists (m1 ++ m2). rewrite c2, c1, app_assoc. split; [done|].
    intros p [?|?]%elem_of_app; auto.
  - by rewrite x2, x1, app_assoc.
Qed.

Lemma eff_weaken T T' acts s s' : T ⊆ T' → eff T acts s s' → eff T' acts s s'.
Proof.
  intros HT [t f (m & c & i) x]. split; [done| |exists m|done].
  - intros p Hp. apply f. intros ?. by apply Hp, HT.
  - split; [done|]. by trans T.
Qed.


Lemma bind_fresh {B} (f : Answer → M B) s :
  bind fresh f s = f (world (tick s)) (set_tick (S (tick s)) s).
Proof. reflexivity. Qed.

Lemma eff_same T acts s s' :
  (tick s ≤ tick s')%nat →
  (∀ p, p ∉ captures s → fs s' !! p = fs s !! p) →
  captures s' = captures s →
  actions (trace s') = actions (trace s) ++ acts →
  eff T acts s s'.
Proof.
  intros Ht Hf Hc Ha. split; [done|auto| |done].
  exists []. rewrite app_nil_r. split; [done|set_solver].
Qed.

Lemma actions_app t1 t2 : actions (t1 ++ t2) = actions t1 ++ actions t2.
Proof. apply List.filter_app. Qed.

Lemma actions_snoc t e :
  actions (t ++ [e]) = actions t ++ (if is_console e then [] else [e]).
Proof. rewrite actions_app. simpl. by destruct (is_console e). Qed.

(** *** Quiet operations *)

Lemma quiet_ret {A} (a : A) : quiet (ret a).
Proof. intros s. exists a, s. split_and!; auto using eff_refl. Qed.

Lemma quiet_bind {A B} (m : M A) (f : A → M B) :
  quiet m → (∀ a, quiet (f a)) → quiet (bind m f).
Proof.
  intros Hm Hf s.
  destruct (Hm s) as (a & s1 & E1 & e1 & c1 & v1 & w1).
  destruct (Hf a s1) as (b & s2 & E2 & e2 & c2 & v2 & w2).
  exists b, s2. rewrite (bind_eq _ _ _ _ _ E1). split_and!; try congruence.
  apply (eff_trans [] [] [] s s1 s2); done.
Qed.

Lemma quiet_for_each {A} (l : list A) (body : A → M unit) :
  (∀ x, quiet (body x)) → quiet (for_each l body).
Proof.
  intros Hb. induction l as [|x l IH]; simpl.
  - apply quiet_ret.
  - apply quiet_bind; auto.
Qed.

Lemma quiet_gets {A} (f : St → A) : quiet (gets f).
Proof. intros s. exists (f s), s. split_and!; auto using eff_refl. Qed.

Lemma quiet_fresh : quiet fresh.
Proof.
  intros s. eexists _, _. split; [reflexivity|].
  split_and!; try done. apply eff_same; simpl; auto. by rewrite app_nil_r.
Qed.

Lemma quiet_console_log line : quiet (console_log line).
Proof.
  intros s. eexists _, _. split; [reflexivity|].
  split_and!; try done. apply eff_same; simpl; auto. by rewrite actions_snoc.
Qed.

Lemma quiet_console_error line : quiet (console_error line).
Proof.
  intros s. eexists _, _. split; [reflexivity|].
  split_and!; try done. apply eff_same; simpl; auto. by rewrite actions_snoc.
Qed.

Lemma captures_alter (f : Proc → Proc) (h : nat) (ps : list Proc) :
  (∀ p, capture_file (f p) = capture_file p) →
  capture_file <$> alter f h ps = capture_file <$> ps.
Proof.
  intros Hf. rewrite (list_fmap_alter capture_file f id).
  - by apply list_alter_id.
  - apply Forall_forall. intros p _. apply Hf.
Qed.

Lemma quiet_update_proc h f :
  (∀ p, capture_file (f p) = capture_file p) → quiet (update_proc h f).
Proof.
  intros Hf s. eexists _, _. split; [reflexivity|].
  assert (captures (set_procs (alter f h (procs s)) s) = captures s) as Hc.
  { unfold captures. simpl. by apply captures_alter. }
  split_and!; try done. apply eff_same; simpl; auto. by rewrite app_nil_r.
Qed.

Lemma quiet_currentTime : quiet currentTime.
Proof. apply quiet_bind; [apply quiet_fresh|intros; apply quiet_ret]. Qed.

Lemma quiet_on_error message l : quiet (on_error message l).
Proof. destruct l; simpl; auto using quiet_ret, quiet_console_error. Qed.

Lemma quiet_on_exit code signal l : quiet (on_exit code signal l).
Proof.
  destruct l; simpl; [apply quiet_ret|..];
    (apply quiet_bind; [apply quiet_currentTime|intros t]).
  - case_bool_decide; auto using quiet_console_log, quiet_console_error.
  - destruct signal; [apply quiet_console_log|].
    case_bool_decide; auto using quiet_console_log, quiet_console_error.
Qed.

Lemma quiet_flush_error h : quiet (flush_error h).
Proof.
  apply quiet_bind; [apply quiet_gets|]. intros [p|]; [|apply quiet_ret].
  destruct (pendingError p); [|apply quiet_ret].
  apply quiet_bind; [by apply quiet_update_proc|intros _].
  apply quiet_for_each, quiet_on_error.
Qed.

Lemma quiet_proc_write (p : Proc) data s :
  capture_file p ∈ captures s →
  ∃ s', modify (λ s,
          match fs s !! capture_file p with
          | Some Dir => s
          | Some (File old) =>
              set_fs (<[capture_file p := File (old +:+ data)]> (fs s)) s
          | None => set_fs (<[capture_file p := File data]> (fs s)) s
          end) s = (Ok tt, s') ∧ eff [] [] s s' ∧ captures s' = captures s ∧
        sniffer s' = sniffer s ∧ browserManager s' = browserManager s.
Proof.
  intros Hin. eexists. split; [reflexivity|].
  destruct (fs s !! capture_file p) as [[old|]|] eqn:E; simpl;
    split_and!; try done; try apply eff_refl;
    (apply eff_same; simpl; [lia| |done|by rewrite app_nil_r]);
    intros q Hq; apply lookup_insert_ne; intros <-; done.
Qed.

Lemma quiet_proc_event hev : quiet (proc_event hev).
Proof.
  destruct hev as [h ev]. intros s. unfold proc_event. simpl.
  destruct (procs s !! h) as [p|] eqn:E.
  2:{ exists tt, s. unfold bind, gets. rewrite E.
      split_and!; auto using eff_refl. }
  destruct (running p) eqn:R.
  2:{ exists tt, s. unfold bind, gets. rewrite E, R.
      split_and!; auto using eff_refl. }
  destruct ev as [code signal|data].
  - assert (quiet (update_proc h mark_exited >>
                   for_each (listeners p) (on_exit code signal))) as Hq.
    { apply quiet_bind; [by apply quiet_update_proc|intros _].
      apply quiet_for_each, quiet_on_exit. }
    destruct (Hq s) as (a & s' & ? & ?). exists a, s'.
    unfold bind at 1, gets. rewrite E, R. done.
  - destruct (quiet_proc_write p data s) as (s' & ? & ?).
    { unfold captures. apply list_elem_of_fmap. exists p. split; [done|].
      by eapply list_elem_of_lookup_2. }
    exists tt, s'. unfold bind at 1, gets. rewrite E, R. done.
Qed.

Lemma quiet_turn a : quiet (turn a).
Proof.
  apply quiet_bind; [apply quiet_gets|intros n].
  apply quiet_bind; [apply quiet_for_each, quiet_flush_error|intros _].
  apply quiet_for_each, quiet_proc_event.
Qed.


(** *** The file system *)

Lemma eff_at p acts s s' :
  (tick s ≤ tick s')%nat →
  (∀ q, q ≠ p → fs s' !! q = fs s !! q) →
  captures s' = captures s →
  actions (trace s') = actions (trace s) ++ acts →
  eff [p] acts s s'.
Proof.
  intros Ht Hf Hc Ha. split; [done| | |done].
  - intros q Hq _. apply Hf. set_solver.
  - exists []. rewrite app_nil_r. split; [done|set_solver].
Qed.

(** What every file-system call keeps. *)
Definition fs_call (p : string) (act : Effect) (s s' : St) : Prop :=
  eff [p] [act] s s' ∧ tick s' = S (tick s) ∧ captures s' = captures s ∧
  sniffer s' = sniffer s ∧ browserManager s' = browserManager s ∧
  ∀ q, q ≠ p → fs s' !! q = fs s !! q.

Lemma fs_call_intro p act s s' :
  tick s' = S (tick s) →
  (∀ q, q ≠ p → fs s' !! q = fs s !! q) →
  procs s' = procs s →
  trace s' = trace s ++ [act] →
  is_console act = false →
  sniffer s' = sniffer s → browserManager s' = browserManager s →
  fs_call p act s s'.
Proof.
  intros Ht Hf Hp Htr Ha Hs Hb.
  assert (captures s' = captures s) as Hc by (unfold captures; by rewrite Hp).
  split_and!; try done. apply eff_at; [lia|done|done|].
  by rewrite Htr, actions_snoc, Ha.
Qed.

Ltac fs_case :=
  simplify_eq; (split_and!; [apply fs_call_intro|..]); simpl; try done;
  intros; rewrite ?lookup_insert_eq, ?lookup_delete_eq; try done;
  try (by rewrite lookup_insert_ne); try (by rewrite lookup_delete_ne).

Lemma appendFileSync_spec path data s r s' :
  appendFileSync path data s = (r, s') →
  fs_call path (Append path data) s s' ∧
  (∀ c, r ≠ Exit c) ∧
  (r = Ok tt → fs s' !! path = Some (File (text_at s path +:+ data))).
Proof.
  unfold appendFileSync, text_at. rewrite bind_fresh, bind_emit.
  destruct (a_error (world (tick s))) as [e|].
  - destruct (a_partial (world (tick s))) as [n|];
      [|unfold throw; intros; fs_case].
    rewrite bind_gets. simpl.
    destruct (fs s !! path) as [[old|]|]; rewrite ?bind_modify;
      unfold throw; simpl; intros; fs_case.
  - rewrite bind_gets. simpl.
    destruct (fs s !! path) as [[old|]|]; unfold throw, modify; simpl;
      intros; fs_case.
Qed.

Lemma unlinkSync_spec path s r s' :
  unlinkSync path s = (r, s') →
  fs_call path (Unlink path) s s' ∧
  (∀ c, r ≠ Exit c) ∧
  (r = Ok tt → fs s' !! path = None).
Proof.
  unfold unlinkSync. rewrite bind_fresh, bind_emit.
  destruct (a_error (world (tick s))); [unfold throw; intros; fs_case|].
  rewrite bind_gets. simpl.
  destruct (fs s !! path) as [[old|]|]; unfold throw, modify; simpl;
    intros; fs_case.
Qed.

Lemma mkdirSync_spec path s r s' :
  mkdirSync path s = (r, s') →
  fs_call path (Mkdir path) s s' ∧
  (∀ c, r ≠ Exit c) ∧
  (r = Ok tt → fs s !! path = None ∧ fs s' !! path = Some Dir).
Proof.
  unfold mkdirSync. rewrite bind_fresh, bind_emit.
  destruct (a_error (world (tick s))); [unfold throw; intros; fs_case|].
  rewrite bind_gets. simpl.
  destruct (fs s !! path) as [n|] eqn:E; unfold throw, modify; simpl;
    intros; fs_case.
Qed.

(** *** Suspensions *)

(** What every suspension keeps: the files outside the capture files, the
    process table up to flags and listeners, and both variables. *)
Definition suspended (act : Effect) (s s' : St) : Prop :=
  eff [] [act] s s' ∧ (tick s < tick s')%nat ∧ captures s' = captures s ∧
  sniffer s' = sniffer s ∧ browserManager s' = browserManager s.

Lemma turn_after_emit a act s :
  is_console act = false →
  ∃ s', turn a (set_trace (trace s ++ [act]) (set_tick (S (tick s)) s))
        = (Ok tt, s') ∧ suspended act s s'.
Proof.
  intros Ha.
  destruct (quiet_turn a (set_trace (trace s ++ [act]) (set_tick (S (tick s)) s)))
    as ([] & s' & E & e & c & v & w).
  exists s'. split; [exact E|].
  destruct e as [t f _ x]. unfold captures in *. simpl in *.
  split_and!; [|lia|done..].
  apply eff_same; [lia| |done|].
  - intros p Hp. apply f; [set_solver|done].
  - by rewrite x, actions_snoc, Ha, app_nil_r.
Qed.

Lemma external_spec act s r s' :
  is_console act = false →
  external act s = (r, s') →
  suspended act s s' ∧
  match a_error (world (tick s)) with
  | Some message => r = Throw message
  | None => r = Ok (world (tick s))
  end.
Proof.
  intros Ha. unfold external. rewrite bind_fresh, bind_emit.
  destruct (turn_after_emit (world (tick s)) act s Ha) as (s1 & E & Hs).
  rewrite (bind_eq _ _ _ _ _ E).
  destruct (a_error _); unfold throw, ret; intros; simplify_eq; done.
Qed.

Lemma awaiting_spec ms s :
  ∃ s', awaiting ms s = (Ok tt, s') ∧ suspended (Wait ms) s s'.
Proof.
  destruct (turn_after_emit (world (tick s)) (Wait ms) s eq_refl) as (s1 & E & Hs).
  exists s1. split; [|done]. unfold awaiting. by rewrite bind_fresh, bind_emit.
Qed.

(** *** [Sniffer] *)

Lemma alter_snoc (f : Proc → Proc) (l : list Proc) (x : Proc) :
  alter f (length l) (l ++ [x]) = l ++ [f x].
Proof. induction l; f_equal/=; auto. Qed.

Lemma Sniffer_start_spec s this :
  sniffer s = Some this →
  ∃ s' p,
    Sniffer_start s = (Ok tt, s') ∧
    procs s' = procs s ++ [p] ∧
    capture_file p = outputPath this ∧
    pid p = a_pid (world (tick s)) ∧ killed p = false ∧ exited p = false ∧
    pendingError p = match a_pid (world (tick s)) with
                     | Some _ => None
                     | None => Some (a_spawnError (world (tick s)))
                     end ∧
    listeners p = [OnStartError (a_dateString (world (S (tick s)))); OnStartExit] ∧
    fs s' = fs s ∧ tick s' = S (S (tick s)) ∧
    trace s' = trace s ++
      [Spawn (sniffer_bin (config_sniffer config))
             ["-i"; sniffer_net (config_sniffer config); "-s";
              sniffer_max (config_sniffer config); "-w"; outputPath this]
             (length (procs s))] ∧
    sniffer s' = Some {| outputPath := outputPath this;
                         snifferProcess := Some (length (procs s)) |} ∧
    browserManager s' = browserManager s.
Proof.
  intros Hs.
  unfold Sniffer_start, this_sniffer, spawn, currentTime, on, update_proc,
    bind, gets, modify, emit, fresh, ret.
  rewrite Hs. simpl. rewrite !alter_snoc.
  eexists _, _. split; [reflexivity|]. simpl. split_and!; reflexivity.
Qed.

Lemma Sniffer_start_eff s this :
  sniffer s = Some this →
  ∃ s' act,
    Sniffer_start s = (Ok tt, s') ∧
    eff [outputPath this] [act] s s' ∧
    act = Spawn (sniffer_bin (config_sniffer config))
             ["-i"; sniffer_net (config_sniffer config); "-s";
              sniffer_max (config_sniffer config); "-w"; outputPath this]
             (length (procs s)) ∧
    fs s' = fs s ∧
    browserManager s' = browserManager s ∧
    sniffer s' = Some {| outputPath := outputPath this;
                         snifferProcess := Some (length (procs s)) |}.
Proof.
  intros Hs.
  destruct (Sniffer_start_spec s this Hs)
    as (s' & p & E & Hp & Hc & _ & _ & _ & _ & _ & Hf & Ht & Htr & Hv & Hb).
  eexists s', _. split_and!; [done| |reflexivity|done..].
  split.
  - lia.
  - intros q _ _. by rewrite Hf.
  - exists [outputPath this]. unfold captures. rewrite Hp, fmap_app. simpl.
    by rewrite Hc.
  - by rewrite Htr, actions_snoc.
Qed.

(** [stop] in full: what it does depends on the variable, the handle and
    the [killed] flag only. *)
Lemma Sniffer_stop_unfold signal s :
  Sniffer_stop signal s =
  match sniffer s with
  | None => (Throw "TypeError: Cannot read properties of undefined", s)
  | Some this =>
      match snifferProcess this with
      | None => (Ok tt, s)
      | Some child =>
          match procs s !! child with
          | None => (Ok tt, s)
          | Some p =>
              if killed p then (Ok tt, s)
              else
                let sent := running p && a_delivered (world (S (tick s))) in
                let p1 := if sent then mark_killed p else p in
                (Ok tt,
                 {| tick := S (S (tick s)); fs := fs s;
                    procs := <[child := add_listener OnStopExit p1]> (procs s);
                    sniffer := sniffer s;
                    browserManager := browserManager s;
                    trace := trace s ++
                      [ConsoleLog ("[" +:+ a_dateString (world (tick s))
                                   +:+ "] Stopping tshark process with PID: "
                                   +:+ render_pid (pid p));
                       Kill child (default SIGTERM signal) sent] |})
          end
      end
  end.
Proof.
  unfold Sniffer_stop, this_sniffer, kill, currentTime, on, update_proc,
    console_log, when, bind, gets, modify, emit, fresh, ret, throw.
  destruct (sniffer s) as [this|] eqn:Hs; [|done]. simpl.
  destruct (snifferProcess this) as [child|]; [|done].
  destruct (procs s !! child) as [p|] eqn:E; [|done].
  destruct (killed p); [done|]. simpl. rewrite E. simpl.
  assert (∀ f : Proc → Proc, alter f child (procs s) = <[child := f p]> (procs s))
    as Halter.
  { intros f. apply list_eq. intros i. destruct (decide (i = child)) as [->|].
    - rewrite list_lookup_alter_eq, E. simpl.
      rewrite list_lookup_insert_eq; [done|]. by eapply lookup_lt_Some.
    - by rewrite list_lookup_alter_ne, list_lookup_insert_ne. }
  assert (∀ f g : Proc → Proc,
    alter f child (alter g child (procs s)) = <[child := f (g p)]> (procs s))
    as Halter2.
  { intros f g. apply list_eq. intros i. destruct (decide (i = child)) as [->|].
    - rewrite !list_lookup_alter_eq, E. simpl.
      rewrite list_lookup_insert_eq; [done|]. by eapply lookup_lt_Some.
    - by rewrite !list_lookup_alter_ne, list_lookup_insert_ne. }
  destruct (running p && a_delivered _); simpl;
    rewrite ?Halter2, ?Halter, Hs, <-app_assoc; reflexivity.
Qed.

Lemma captures_insert (ps : list Proc) (child : nat) (p p' : Proc) :
  ps !! child = Some p → capture_file p' = capture_file p →
  capture_file <$> <[child := p']> ps = capture_file <$> ps.
Proof.
  intros E Hc. rewrite list_fmap_insert, Hc. apply list_insert_id.
  by rewrite list_lookup_fmap, E.
Qed.

Lemma calm_refl s : calm [] s s.
Proof. split_and!; auto using eff_refl. Qed.

Lemma calm_trans a1 a2 s s1 s2 :
  calm a1 s s1 → calm a2 s1 s2 → calm (a1 ++ a2) s s2.
Proof.
  intros (e1 & c1 & v1) (e2 & c2 & v2).
  split_and!; [by eapply eff_trans|congruence..].
Qed.

Lemma suspended_calm act s s' : suspended act s s' → calm [act] s s'.
Proof. intros (e & _ & c & v & _). done. Qed.

Lemma calm_set_browserManager x s : calm [] s (set_browserManager x s).
Proof.
  split_and!; try done. apply eff_same; simpl; auto. by rewrite app_nil_r.
Qed.

Lemma Sniffer_stop_spec signal s r s' :
  Sniffer_stop signal s = (r, s') →
  ∃ acts, calm acts s s' ∧ fs s' = fs s ∧
    browserManager s' = browserManager s ∧
    (acts = [] ∨ ∃ child sent, acts = [Kill child (default SIGTERM signal) sent]) ∧
    (∀ c, r ≠ Exit c) ∧ (is_Some (sniffer s) → r = Ok tt).
Proof.
  rewrite Sniffer_stop_unfold.
  destruct (sniffer s) as [this|] eqn:Hs.
  2:{ intros; simplify_eq. exists []. split_and!; auto using calm_refl.
      by intros [? ?]. }
  destruct (snifferProcess this) as [child|].
  2:{ intros; simplify_eq. exists []. split_and!; auto using calm_refl. }
  destruct (procs s !! child) as [p|] eqn:E.
  2:{ intros; simplify_eq. exists []. split_and!; auto using calm_refl. }
  destruct (killed p).
  { intros; simplify_eq. exists []. split_and!; auto using calm_refl. }
  intros H. cbv zeta in H. simplify_eq.
  eexists [_]. split_and!; try done; [|eauto].
  assert (captures {| tick := S (S (tick s)); fs := fs s;
            procs := <[child := add_listener OnStopExit
                        (if running p && a_delivered (world (S (tick s)))
                         then mark_killed p else p)]> (procs s);
            sniffer := sniffer s; browserManager := browserManager s;
            trace := trace s ++
              [ConsoleLog ("[" +:+ a_dateString (world (tick s))
                           +:+ "] Stopping tshark process with PID: "
                           +:+ render_pid (pid p));
               Kill child (default SIGTERM signal)
                 (running p && a_delivered (world (S (tick s))))] |}
          = captures s) as Hc.
  { unfold captures. simpl. eapply captures_insert; [done|].
    by destruct (running p && _). }
  split_and!; [|done..]. apply eff_same; simpl; [lia|done|done|].
  by rewrite actions_app.
Qed.

(** *** [BrowserManager] *)

Lemma bind_external {B} act (f : Answer → M B) s r s' :
  is_console act = false →
  bind (external act) f s = (r, s') →
  ∃ s1, suspended act s s1 ∧
    match a_error (world (tick s)) with
    | Some message => r = Throw message ∧ s' = s1
    | None => f (world (tick s)) s1 = (r, s')
    end.
Proof.
  intros Ha. unfold bind.
  destruct (external act s) as [ra s1] eqn:E.
  apply external_spec in E as [Hs Hr]; [|done].
  exists s1. split; [done|].
  destruct (a_error _); subst ra; intros; simplify_eq; done.
Qed.

Lemma bind_awaiting {B} ms (f : unit → M B) s r s' :
  bind (awaiting ms) f s = (r, s') →
  ∃ s1, suspended (Wait ms) s s1 ∧ f tt s1 = (r, s').
Proof.
  destruct (awaiting_spec ms s) as (s1 & E & Hs).
  rewrite (bind_eq _ _ _ _ _ E). eauto.
Qed.

Lemma BrowserManager_close_spec s r s' :
  BrowserManager_close s = (r, s') →
  ∃ acts, calm acts s s' ∧ (∀ c, r ≠ Exit c) ∧
    browserManager s' = browserManager s ∧
    match browserManager s with
    | None => acts = [] ∧ s' = s ∧ ∃ e, r = Throw e
    | Some this =>
        match browser this with
        | None => acts = [] ∧ s' = s ∧ r = Ok tt
        | Some b =>
            acts = [BrowserClose b] ∧ (tick s < tick s')%nat ∧
            match a_error (world (tick s)) with
            | Some e => r = Throw e
            | None => r = Ok tt
            end
        end
    end.
Proof.
  unfold BrowserManager_close, this_browserManager.
  intros H. unfold bind at 1 in H. rewrite bind_gets in H.
  destruct (browserManager s) as [this|] eqn:Hb.
  2:{ unfold throw in H. simplify_eq. exists [].
      split_and!; eauto using calm_refl. }
  unfold ret in H.
  destruct (browser this) as [b|].
  2:{ simplify_eq. exists []. split_and!; eauto using calm_refl. }
  apply bind_external in H as (s1 & Hs & Hr); [|done].
  exists [BrowserClose b].
  assert (browserManager s' = Some this ∧ s' = s1 ∧
          (∀ c, r ≠ Exit c) ∧
          match a_error (world (tick s)) with
          | Some e => r = Throw e
          | None => r = Ok tt
          end) as (? & -> & ? & ?).
  { destruct Hs as (_ & _ & _ & _ & Hv). rewrite Hb in Hv.
    destruct (a_error _); unfold ret in *; destruct_and?; simplify_eq; done. }
  split_and!; try done; [by apply suspended_calm|].
  by destruct Hs as (_ & ? & _).
Qed.

Lemma BrowserManager_launch_spec s r s' :
  BrowserManager_launch s = (r, s') →
  ∃ acts, calm acts s s' ∧ (∀ c, r ≠ Exit c) ∧
    Forall (λ e, is_session e = true) acts ∧
    (is_Some (browserManager s) → is_Some (browserManager s')).
Proof.
  unfold BrowserManager_launch, this_browserManager.
  intros H. unfold bind at 1 in H. rewrite bind_gets in H.
  destruct (browserManager s) as [this|] eqn:Hb.
  2:{ unfold throw in H. simplify_eq. exists [].
      split_and!; eauto using calm_refl. by intros [? ?]. }
  unfold ret in H. rewrite bind_gets in H.
  apply bind_external in H as (s1 & Hs1 & H); [|done].
  pose proof (suspended_calm _ _ _ Hs1) as C1.
  assert (is_Some (browserManager s1)) as Hb1.
  { destruct Hs1 as (_ & _ & _ & _ & ->). by rewrite Hb. }
  destruct (a_error (world (tick s))).
  { destruct H as [-> ->]. exists [Launch (tick s)].
    split_and!; auto. }
  rewrite bind_modify in H.
  apply bind_external in H as (s2 & Hs2 & H); [|done].
  pose proof (calm_trans _ _ _ _ _
    (calm_trans _ _ _ _ _ C1 (calm_set_browserManager _ s1))
    (suspended_calm _ _ _ Hs2)) as C2.
  assert (is_Some (browserManager s2)) as Hb2.
  { destruct Hs2 as (_ & _ & _ & _ & ->). simpl. eauto. }
  simpl in H.
  destruct (a_error (world (tick s1))) eqn:E2.
  { destruct H as [-> ->]. eexists.
    split_and!; [exact C2|done|simpl; repeat constructor|done]. }
  rewrite bind_modify in H.
  destruct (bool_decide _).
  { unfold ret in H. simplify_eq. eexists.
    split_and!;
      [eapply calm_trans; [exact C2|apply calm_set_browserManager]
      |done|simpl; repeat constructor|simpl; eauto]. }
  apply bind_external in H as (s3 & Hs3 & H); [|done].
  assert (s' = s3 ∧ ∀ c, r ≠ Exit c) as [-> ?].
  { simpl in H. destruct (a_error (world (tick s2)));
      unfold throw in H; destruct_and?; simplify_eq; done. }
  eexists.
  split_and!;
    [eapply calm_trans; [|exact (suspended_calm _ _ _ Hs3)];
     eapply calm_trans; [exact C2|apply calm_set_browserManager]
    |done|simpl; repeat constructor|].
  destruct Hs3 as (_ & _ & _ & _ & ->). simpl. eauto.
Qed.

Lemma page_goto_spec url s r s' :
  page_goto url s = (r, s') →
  ∃ acts, calm acts s s' ∧ (∀ c, r ≠ Exit c) ∧
    Forall (λ e, is_session e = true) acts ∧
    browserManager s' = browserManager s.
Proof.
  unfold page_goto, this_browserManager.
  intros H. unfold bind at 1 in H. rewrite bind_gets in H.
  destruct (browserManager s) as [this|] eqn:Hb.
  2:{ unfold throw in H. simplify_eq. exists [].
      split_and!; eauto using calm_refl. }
  unfold ret in H. destruct (page this).
  2:{ unfold throw in H. simplify_eq. exists [].
      split_and!; eauto using calm_refl. }
  apply bind_external in H as (s1 & Hs1 & H); [|done].
  exists [Goto url].
  assert (s' = s1 ∧ ∀ c, r ≠ Exit c) as [-> ?].
  { destruct (a_error _); unfold ret in H; destruct_and?; simplify_eq; done. }
  split_and!; [by apply suspended_calm|done|repeat constructor|].
  destruct Hs1 as (_ & _ & _ & _ & ->). done.
Qed.

Lemma BrowserManager_startHarLogging_spec path s r s' :
  BrowserManager_startHarLogging path s = (r, s') →
  calm [HarStart path] s s' ∧ (∀ c, r ≠ Exit c) ∧
  (∀ har, r = Ok har → har_path har = path).
Proof.
  unfold BrowserManager_startHarLogging. intros H.
  apply bind_external in H as (s1 & Hs1 & H); [|done].
  assert (s' = s1 ∧ (∀ c, r ≠ Exit c) ∧
          ∀ har, r = Ok har → har_path har = path) as (-> & ? & ?).
  { destruct (a_error _); unfold ret in H; destruct_and?; simplify_eq;
      split_and!; try done; intros; by simplify_eq. }
  split_and!; [by apply suspended_calm|done..].
Qed.

Lemma Har_stop_spec har s r s' :
  Har_stop har s = (r, s') →
  eff [har_path har] [HarStop (har_path har)] s s' ∧
  captures s' = captures s ∧ sniffer s' = sniffer s ∧ (∀ c, r ≠ Exit c).
Proof.
  unfold Har_stop. rewrite bind_fresh, bind_emit. intros H.
  destruct (turn_after_emit (world (tick s)) (HarStop (har_path har)) s eq_refl)
    as (s1 & E & Hs).
  rewrite (bind_eq _ _ _ _ _ E) in H.
  destruct Hs as (e1 & _ & c1 & v1 & _).
  assert (∀ data, eff [har_path har] [HarStop (har_path har)] s
                    (set_fs (<[har_path har := File data]> (fs s1)) s1)) as Hw.
  { intros data. rewrite <-(app_nil_r [HarStop _]).
    eapply eff_trans; [eapply eff_weaken; [|exact e1]; set_solver|].
    apply eff_at; simpl; [lia| |done|by rewrite app_nil_r].
    intros q Hq. by rewrite lookup_insert_ne. }
  assert (eff [har_path har] [HarStop (har_path har)] s s1) as Hn.
  { eapply eff_weaken; [|exact e1]. set_solver. }
  destruct (a_written (world (tick s))) as [data|].
  - unfold bind at 1 in H. rewrite bind_gets in H.
    destruct (fs s1 !! har_path har) as [[old|]|];
      unfold modify, throw in H;
      destruct (a_error (world (tick s)));
      unfold throw, ret in H; simplify_eq; split_and!; done.
  - rewrite bind_ret in H.
    destruct (a_error (world (tick s)));
      unfold throw, ret in H; simplify_eq; split_and!; done.
Qed.

(** [cleanFiles]: what it unlinks, and what is gone when it returns. *)
Lemma cleanFiles_spec files s r s' :
  cleanFiles files s = (r, s') →
  ∃ acts, eff files acts s s' ∧ captures s' = captures s ∧
    sniffer s' = sniffer s ∧ browserManager s' = browserManager s ∧
    (∀ q, q ∉ files → fs s' !! q = fs s !! q) ∧
    (∀ c, r ≠ Exit c) ∧
    acts `sublist_of` (Unlink <$> files) ∧
    (r = Ok tt → Forall (λ file, fs s' !! file = None) files).
Proof.
  unfold cleanFiles. revert s.
  induction files as [|file files IH]; intros s H.
  { unfold for_each, ret in H. simplify_eq. exists [].
    split_and!; auto using eff_refl. }
  simpl in H. unfold existsSync in H. rewrite bind_assoc, bind_gets in H.
  assert (∀ s1 act1, (act1 = [] ∨ act1 = [Unlink file]) →
    eff [file] act1 s s1 → captures s1 = captures s →
    sniffer s1 = sniffer s → browserManager s1 = browserManager s →
    (∀ q, q ≠ file → fs s1 !! q = fs s !! q) →
    fs s1 !! file = None →
    for_each files (λ file, let* present := existsSync file in
                            when present (unlinkSync file)) s1 = (r, s') →
    ∃ acts, eff (file :: files) acts s s' ∧ captures s' = captures s ∧
      sniffer s' = sniffer s ∧ browserManager s' = browserManager s ∧
      (∀ q, q ∉ file :: files → fs s' !! q = fs s !! q) ∧
      (∀ c, r ≠ Exit c) ∧
      acts `sublist_of` (Unlink <$> file :: files) ∧
      (r = Ok tt → Forall (λ file, fs s' !! file = None) (file :: files)))
    as Hrest.
  { intros s1 act1 Hact e1 c1 v1 w1 f1 g1 H1.
    apply IH in H1 as (acts & e2 & c2 & v2 & w2 & f2 & x2 & sub & g2).
    exists (act1 ++ acts). split_and!; try congruence.
    - eapply eff_trans; (eapply eff_weaken; [|eassumption]); set_solver.
    - intros q Hq. rewrite f2, f1; set_solver.
    - destruct Hact as [-> | ->]; simpl;
        [by apply sublist_cons|by apply sublist_skip].
    - intros Hr. constructor; [|by apply g2].
      destruct (decide (file ∈ files)) as [Hin|Hnin].
      + specialize (g2 Hr). rewrite Forall_forall in g2. by apply g2.
      + by rewrite f2. }
  destruct (bool_decide (is_Some (fs s !! file))) eqn:Hex.
  - simpl in H. apply bind_inv in H
      as [(a & s1 & E & H) | [(e & E & ->) | (c & E & ->)]].
    + apply unlinkSync_spec in E as ((e1 & _ & c1 & v1 & w1 & f1) & _ & g1).
      destruct a. eapply Hrest; eauto.
    + apply unlinkSync_spec in E as ((e1 & _ & c1 & v1 & w1 & f1) & _ & g1).
      exists [Unlink file]. split_and!; try done.
      * eapply eff_weaken; [|exact e1]. set_solver.
      * intros q Hq. apply f1. set_solver.
      * simpl. apply sublist_skip, sublist_nil_l.
    + apply unlinkSync_spec in E as (_ & Hx & _). by destruct (Hx c).
  - simpl in H. rewrite bind_ret in H.
    apply (Hrest s []); auto using eff_refl.
    apply bool_decide_eq_false in Hex. by apply eq_None_not_Some.
Qed.

(** ** The event log of a run *)

Lemma string_app_cons x (a b : string) : String x a +:+ b = String x (a +:+ b).
Proof. reflexivity. Qed.

Lemma string_app_assoc (a b c : string) : (a +:+ b) +:+ c = a +:+ b +:+ c.
Proof.
  induction a as [|x a IH]; [done|]. by rewrite !string_app_cons, IH.
Qed.

Lemma string_app_nil_r (a : string) : a +:+ "" = a.
Proof. induction a as [|x a IH]; [done|]. by rewrite string_app_cons, IH. Qed.

Lemma render_app es1 es2 : render (es1 ++ es2) = render es1 +:+ render es2.
Proof.
  induction es1 as [|e es1 IH]; simpl; [done|].
  by rewrite IH, !string_app_assoc.
Qed.

Lemma waits_of_app a1 a2 : waits_of (a1 ++ a2) = waits_of a1 ++ waits_of a2.
Proof. unfold waits_of. by rewrite flat_map_app. Qed.

Lemma waits_of_session acts :
  Forall (λ e, is_session e = true) acts → waits_of acts = [].
Proof.
  induction 1 as [|e acts He _ IH]; [done|].
  simpl. rewrite IH. by destruct e.
Qed.

Lemma logged_eff G L base k0 stamps a0 ws T acts s s' :
  logged G L base k0 stamps a0 ws s →
  eff T acts s s' → L ∉ T →
  logged G L base k0 stamps a0 (ws ++ waits_of acts) s'.
Proof.
  intros [tx fr so pa (acts0 & wa & wb)] [t f (more & c & i) x] HL.
  split.
  - intros g. rewrite f; auto.
  - intros g. rewrite c. intros [?|?]%elem_of_app; [by apply fr|].
    by apply HL, i.
  - done.
  - eapply Forall_impl; [exact pa|]. simpl. intros. lia.
  - exists (acts0 ++ acts). rewrite x, wa, waits_of_app, wb, app_assoc. done.
Qed.

Lemma logged_still G L base k0 stamps a0 ws T acts s s' :
  logged G L base k0 stamps a0 ws s →
  eff T acts s s' → L ∉ T → waits_of acts = [] →
  logged G L base k0 stamps a0 ws s'.
Proof.
  intros LG e HL w. rewrite <-(app_nil_r ws), <-w. by eapply logged_eff.
Qed.

Lemma logged_tame {A} G L base k0 stamps a0 ws T (m : M A) s r s' :
  tame T m → L ∉ T →
  m s = (r, s') →
  logged G L base k0 stamps a0 ws s →
  logged G L base k0 stamps a0 ws s'.
Proof.
  intros Hm HL E LG.
  destruct (Hm _ _ _ E) as (acts & e & w).
  rewrite <-(app_nil_r ws), <-w. by eapply logged_eff.
Qed.

Lemma logged_awaiting G L base k0 stamps a0 ws ms s r s' :
  awaiting ms s = (r, s') →
  logged G L base k0 stamps a0 ws s →
  logged G L base k0 stamps a0 (ws ++ [ms]) s'.
Proof.
  intros E LG. destruct (awaiting_spec ms s) as (s1 & E1 & Hs).
  rewrite E1 in E. simplify_eq. destruct Hs as (e & _).
  apply (logged_eff _ _ _ _ _ _ _ [] [Wait ms] s); [done|done|set_solver].
Qed.

(** Reading the clock and appending the entry. *)
Lemma logged_stamp G L base k0 stamps a0 ws nm t s s1 s2 :
  currentUnix s = (Ok t, s1) →
  appendFileSync L (entry_line nm t (t - a_now (world k0))) s1 = (Ok tt, s2) →
  logged G L base k0 stamps a0 ws s →
  (tick s < tick s2)%nat ∧
  logged G L base k0 (stamps ++ [(nm, tick s)]) a0 ws s2.
Proof.
  intros Et E [tx fr so pa (acts0 & wa & wb)].
  unfold currentUnix in Et. rewrite bind_fresh in Et. unfold ret in Et.
  simplify_eq.
  apply appendFileSync_spec in E as ((e & t & c & v & w & fo) & _ & g).
  specialize (g eq_refl). simpl in *.
  split; [lia|]. split.
  - intros HG. rewrite g. unfold text_at. simpl. rewrite (tx HG).
    rewrite fmap_app, render_app. simpl.
    by rewrite !string_app_assoc, string_app_nil_r.
  - intros HG. rewrite c. by apply fr.
  - rewrite fmap_app. apply StronglySorted_app_2; [|done|repeat constructor].
    intros k1 k2 Hk1 ->%list_elem_of_singleton.
    rewrite Forall_forall in pa. by apply pa.
  - rewrite fmap_app, Forall_app. split.
    + eapply Forall_impl; [exact pa|]. simpl. intros. lia.
    + repeat constructor. simpl. lia.
  - destruct e as [_ _ _ x]. simpl in x.
    eexists. rewrite x, wa, <-app_assoc. split; [done|].
    rewrite waits_of_app. simpl. by rewrite app_nil_r.
Qed.

(** *** What is tame *)

Lemma tame_calm {A} (m : M A) :
  (∀ s r s', m s = (r, s') → ∃ acts, calm acts s s' ∧ waits_of acts = []) →
  tame [] m.
Proof.
  intros Hm s r s' E. destruct (Hm _ _ _ E) as (acts & (e & _) & w). eauto.
Qed.

Lemma tame_launch : tame [] BrowserManager_launch.
Proof.
  apply tame_calm. intros s r s' E.
  apply BrowserManager_launch_spec in E as (acts & C & _ & F & _).
  eauto using waits_of_session.
Qed.

Lemma tame_goto url : tame [] (page_goto url).
Proof.
  apply tame_calm. intros s r s' E.
  apply page_goto_spec in E as (acts & C & _ & F & _).
  eauto using waits_of_session.
Qed.

Lemma tame_close : tame [] BrowserManager_close.
Proof.
  apply tame_calm. intros s r s' E.
  apply BrowserManager_close_spec in E as (acts & C & _ & _ & F).
  exists acts. split; [done|].
  destruct (browserManager s) as [this|]; [destruct (browser this)|];
    destruct_and?; by subst.
Qed.

Lemma tame_startHarLogging path : tame [] (BrowserManager_startHarLogging path).
Proof.
  apply tame_calm. intros s r s' E.
  apply BrowserManager_startHarLogging_spec in E as (C & _). eauto.
Qed.

Lemma tame_Har_stop har : tame [har_path har] (Har_stop har).
Proof. intros s r s' E. apply Har_stop_spec in E as (e & _). eauto. Qed.

Lemma tame_Sniffer_stop signal : tame [] (Sniffer_stop signal).
Proof.
  apply tame_calm. intros s r s' E.
  apply Sniffer_stop_spec in E as (acts & C & _ & _ & [->|(? & ? & ->)] & _);
    eauto.
Qed.

Lemma tame_set_sniffer x : tame [] (modify (set_sniffer x)).
Proof.
  intros s r s' E. unfold modify in E. simplify_eq. exists []. split; [|done].
  apply eff_same; simpl; auto. by rewrite app_nil_r.
Qed.

Lemma tame_set_browserManager x : tame [] (modify (set_browserManager x)).
Proof.
  intros s r s' E. unfold modify in E. simplify_eq. exists []. split; [|done].
  apply eff_same; simpl; auto. by rewrite app_nil_r.
Qed.

(** ** The artifact paths *)

Lemma string_length_app (a b : string) :
  String.length (a +:+ b) = (String.length a + String.length b)%nat.
Proof.
  induction a as [|x a IH]; [done|]. rewrite string_app_cons. simpl.
  by rewrite IH.
Qed.

Lemma string_app_inj_r (a b c : string) : a +:+ c = b +:+ c → a = b.
Proof.
  revert b. induction a as [|x a IH]; intros [|y b] H; [done|..].
  - apply (f_equal String.length) in H.
    rewrite string_length_app, string_app_cons in H. simpl in H.
    rewrite string_length_app in H. lia.
  - apply (f_equal String.length) in H.
    rewrite (string_length_app ""), string_app_cons in H. simpl in H.
    rewrite string_length_app in H. lia.
  - rewrite !string_app_cons in H. injection H as -> H. f_equal. by apply IH.
Qed.

Ltac strip_dir H :=
  unfold logNetFile, logBotFile, logHarFile, path_join in H;
  apply (inj (String.append _)) in H;
  cbv beta iota delta [String.append] in H.

Lemma logBot_ne_logNet dir n m : logBotFile dir n ≠ logNetFile dir m.
Proof. intros H. strip_dir H. discriminate. Qed.

Lemma logBot_ne_logHar dir n m : logBotFile dir n ≠ logHarFile dir m.
Proof. intros H. strip_dir H. discriminate. Qed.

Lemma logNet_ne_logHar dir n m : logNetFile dir n ≠ logHarFile dir m.
Proof. intros H. strip_dir H. discriminate. Qed.

Lemma numbered_inj (prefix suffix : string) (n m : nat) :
  prefix +:+ pretty (n + 1)%nat +:+ suffix
  = prefix +:+ pretty (m + 1)%nat +:+ suffix →
  n = m.
Proof.
  intros H. apply (inj (String.append _)) in H.
  apply string_app_inj_r in H. apply (inj pretty) in H. lia.
Qed.

Lemma logNet_inj dir n m : logNetFile dir n = logNetFile dir m → n = m.
Proof.
  unfold logNetFile, path_join. intros H.
  apply (inj (String.append _)) in H. apply (inj (String.append _)) in H.
  by apply numbered_inj in H.
Qed.

Lemma logBot_inj dir n m : logBotFile dir n = logBotFile dir m → n = m.
Proof.
  unfold logBotFile, path_join. intros H.
  apply (inj (String.append _)) in H. apply (inj (String.append _)) in H.
  by apply numbered_inj in H.
Qed.

Lemma logHar_inj dir n m : logHarFile dir n = logHarFile dir m → n = m.
Proof.
  unfold logHarFile, path_join. intros H.
  apply (inj (String.append _)) in H. apply (inj (String.append _)) in H.
  by apply numbered_inj in H.
Qed.

(** ** A successful run, step by step *)

Lemma logged_visit G this L base k0 stamps a0 ws channel s s' :
  visit this L (a_now (world k0)) channel s = (Ok tt, s') →
  logged G L base k0 stamps a0 ws s →
  ∃ k1 k2,
    logged G L base k0
      (stamps ++ [(name channel +:+ "-on", k1); (name channel +:+ "-off", k2)])
      a0 (ws ++ [watchAwait this; fastAwait this]) s'.
Proof.
  intros H LG. unfold visit in H.
  apply bind_Ok in H as ([] & s1 & E1 & H).
  pose proof (logged_tame _ _ _ _ _ _ _ _ _ _ _ _
    (tame_goto _) (not_elem_of_nil _) E1 LG) as LG1.
  apply bind_Ok in H as (t1 & s2 & E2 & H).
  apply bind_Ok in H as ([] & s3 & E3 & H).
  destruct (logged_stamp _ _ _ _ _ _ _ _ _ _ _ _ E2 E3 LG1) as [_ LG3].
  apply bind_Ok in H as ([] & s4 & E4 & H).
  pose proof (logged_awaiting _ _ _ _ _ _ _ _ _ _ _ E4 LG3) as LG4.
  apply bind_Ok in H as (t2 & s5 & E5 & H).
  apply bind_Ok in H as ([] & s6 & E6 & H).
  destruct (logged_stamp _ _ _ _ _ _ _ _ _ _ _ _ E5 E6 LG4) as [_ LG6].
  apply bind_Ok in H as ([] & s7 & E7 & H).
  pose proof (logged_tame _ _ _ _ _ _ _ _ _ _ _ _
    (tame_goto _) (not_elem_of_nil _) E7 LG6) as LG7.
  pose proof (logged_awaiting _ _ _ _ _ _ _ _ _ _ _ H LG7) as LG8.
  exists (tick s1), (tick s4).
  by rewrite <-!app_assoc in LG8.
Qed.

Lemma logged_channels G this L base k0 a0 channels stamps ws s s' :
  for_each channels (visit this L (a_now (world k0))) s = (Ok tt, s') →
  logged G L base k0 stamps a0 ws s →
  ∃ more,
    logged G L base k0 (stamps ++ more) a0
      (ws ++ flat_map (λ _, [watchAwait this; fastAwait this]) channels) s' ∧
    more.*1 = flat_map (λ c, [name c +:+ "-on"; name c +:+ "-off"]) channels.
Proof.
  revert stamps ws s.
  induction channels as [|c channels IH]; intros stamps ws s H LG.
  - unfold for_each, ret in H. simplify_eq. exists [].
    by rewrite !app_nil_r.
  - simpl in H. apply bind_Ok in H as ([] & s1 & E & H).
    destruct (logged_visit _ _ _ _ _ _ _ _ _ _ _ E LG) as (k1 & k2 & LG1).
    destruct (IH _ _ _ H LG1) as (more & LG2 & Hm).
    exists ([(name c +:+ "-on", k1); (name c +:+ "-off", k2)] ++ more).
    split.
    + rewrite <-!app_assoc in LG2. exact LG2.
    + rewrite fmap_app, Hm. done.
Qed.

(** The whole [try] block: the log, the order of the clock readings and
    the waits of a run that reaches the end. *)
Lemma run_try_logged this number s s' :
  run_try this number s = (Ok tt, s') →
  ∃ k0 stamps,
    logged (logBotFile (outputDir this) number ∉ captures s)
      (logBotFile (outputDir this) number)
      (text_at s (logBotFile (outputDir this) number) +:+ header)
      k0 (("origin", k0) :: stamps) (actions (trace s))
      ([fastAwait this; longAwait this] ++
       flat_map (λ _, [watchAwait this; fastAwait this]) (config_channels config) ++
       [longAwait this * 2]) s' ∧
    "origin" :: stamps.*1 = log_events (config_channels config).
Proof.
  intros H. unfold run_try in H.
  set (L := logBotFile (outputDir this) number) in *.
  apply bind_Ok in H as ([] & s1 & E1 & H).
  apply bind_Ok in H as (t0 & s2 & E2 & H).
  apply bind_Ok in H as ([] & s3 & E3 & H).
  assert (t0 = a_now (world (tick s1)) ∧ s2 = set_tick (S (tick s1)) s1)
    as [-> ->].
  { unfold currentUnix in E2. rewrite bind_fresh in E2. unfold ret in E2.
    by simplify_eq. }
  assert (logged (L ∉ captures s) L (text_at s L +:+ header) (tick s1)
            [("origin", tick s1)] (actions (trace s)) [] s3) as LG.
  { apply appendFileSync_spec in E1 as ((e1 & t1 & c1 & _ & _ & _) & _ & g1).
    apply appendFileSync_spec in E3 as ((e3 & t3 & c3 & _ & _ & _) & _ & g3).
    specialize (g1 eq_refl). specialize (g3 eq_refl).
    unfold captures in *. simpl in *. split.
    - intros _. rewrite g3. unfold text_at at 1. simpl. rewrite g1.
      unfold entry_at. simpl. rewrite Z.sub_diag.
      by rewrite !string_app_assoc, string_app_nil_r.
    - intros HG. unfold captures. by rewrite c3, c1.
    - repeat constructor.
    - repeat constructor. simpl. lia.
    - destruct e1 as [_ _ _ x1]. destruct e3 as [_ _ _ x3]. simpl in *.
      eexists. rewrite x3, x1, <-app_assoc. split; [done|done]. }
  clear E1 E3.
  rewrite bind_modify in H.
  destruct (Sniffer_start_eff
    (set_sniffer (Some (new_Sniffer (logNetFile (outputDir this) number))) s3)
    _ eq_refl) as (s4 & act & E4 & e4 & -> & _).
  rewrite (bind_eq _ _ _ _ _ E4) in H.
  assert (logged (L ∉ captures s) L (text_at s L +:+ header) (tick s1)
            [("origin", tick s1)] (actions (trace s)) [] s4) as LG4.
  { eapply logged_still; [|exact e4| |done].
    - eapply logged_tame; [apply tame_set_sniffer|set_solver|reflexivity|done].
    - simpl. intros Hin%list_elem_of_singleton.
      exact (logBot_ne_logNet _ _ _ Hin). }
  clear LG E4 e4.
  apply bind_Ok in H as (t5 & s5 & E5 & H).
  apply bind_Ok in H as ([] & s6 & E6 & H).
  destruct (logged_stamp _ _ _ _ _ _ _ _ _ _ _ _ E5 E6 LG4) as [_ LG6].
  apply bind_Ok in H as ([] & s7 & E7 & H).
  pose proof (logged_tame _ _ _ _ _ _ _ _ _ _ _ _
    (tame_set_browserManager _) (not_elem_of_nil _) E7 LG6) as LG7.
  apply bind_Ok in H as ([] & s8 & E8 & H).
  pose proof (logged_tame _ _ _ _ _ _ _ _ _ _ _ _
    tame_launch (not_elem_of_nil _) E8 LG7) as LG8.
  apply bind_Ok in H as (t9 & s9 & E9 & H).
  apply bind_Ok in H as ([] & s10 & E10 & H).
  destruct (logged_stamp _ _ _ _ _ _ _ _ _ _ _ _ E9 E10 LG8) as [_ LG10].
  apply bind_Ok in H as ([] & s11 & E11 & H).
  pose proof (logged_awaiting _ _ _ _ _ _ _ _ _ _ _ E11 LG10) as LG11.
  apply bind_Ok in H as (har & s12 & E12 & H).
  pose proof (logged_tame _ _ _ _ _ _ _ _ _ _ _ _
    (tame_startHarLogging _) (not_elem_of_nil _) E12 LG11) as LG12.
  apply BrowserManager_startHarLogging_spec in E12 as (_ & _ & Hhar).
  specialize (Hhar _ eq_refl).
  apply bind_Ok in H as ([] & s13 & E13 & H).
  pose proof (logged_tame _ _ _ _ _ _ _ _ _ _ _ _
    (tame_goto _) (not_elem_of_nil _) E13 LG12) as LG13.
  apply bind_Ok in H as ([] & s14 & E14 & H).
  pose proof (logged_awaiting _ _ _ _ _ _ _ _ _ _ _ E14 LG13) as LG14.
  apply bind_Ok in H as ([] & s15 & E15 & H).
  destruct (logged_channels _ _ _ _ _ _ _ _ _ _ _ E15 LG14) as (more & LG15 & Hm).
  apply bind_Ok in H as ([] & s16 & E16 & H).
  assert (L ∉ [har_path har]) as Hne.
  { rewrite Hhar. intros Hin%list_elem_of_singleton.
    exact (logBot_ne_logHar _ _ _ Hin). }
  pose proof (logged_tame _ _ _ _ _ _ _ _ _ _ _ _
    (tame_Har_stop _) Hne E16 LG15) as LG16.
  apply bind_Ok in H as ([] & s17 & E17 & H).
  pose proof (logged_tame _ _ _ _ _ _ _ _ _ _ _ _
    tame_close (not_elem_of_nil _) E17 LG16) as LG17.
  apply bind_Ok in H as (t18 & s18 & E18 & H).
  apply bind_Ok in H as ([] & s19 & E19 & H).
  destruct (logged_stamp _ _ _ _ _ _ _ _ _ _ _ _ E18 E19 LG17) as [_ LG19].
  apply bind_Ok in H as ([] & s20 & E20 & H).
  pose proof (logged_awaiting _ _ _ _ _ _ _ _ _ _ _ E20 LG19) as LG20.
  apply bind_Ok in H as ([] & s21 & E21 & H).
  pose proof (logged_tame _ _ _ _ _ _ _ _ _ _ _ _
    (tame_Sniffer_stop _) (not_elem_of_nil _) E21 LG20) as LG21.
  apply bind_Ok in H as (t22 & s22 & E22 & H).
  destruct (logged_stamp _ _ _ _ _ _ _ _ _ _ _ _ E22 H LG21) as [_ LG].
  eexists (tick s1), _. split.
  - rewrite <-!app_assoc in LG. simpl in LG. exact LG.
  - unfold log_events. simpl. rewrite !fmap_app, Hm. done.
Qed.

Lemma length_log_events channels :
  length (log_events channels) = (3 + 2 * length channels + 2)%nat.
Proof.
  unfold log_events. rewrite !length_app. simpl.
  assert (length (flat_map (λ c, [name c +:+ "-on"; name c +:+ "-off"]) channels)
          = (2 * length channels)%nat) as ->; [|lia].
  induction channels as [|c channels IH]; simpl; [done|]. rewrite IH. lia.
Qed.

Lemma last_two (l : list string) a b : last (l ++ [a; b]) = Some b.
Proof.
  change (l ++ [a; b]) with (l ++ [a] ++ [b]).
  rewrite app_assoc. apply last_snoc.
Qed.

Lemma event_entry_at k0 (stamps : list (string * nat)) :
  event <$> (entry_at k0 <$> stamps) = stamps.*1.
Proof. rewrite <-list_fmap_compose. by apply list_fmap_ext. Qed.

(** The entries of a successful run that began with no event log and no
    child process writing to its path. *)
Lemma run_try_entries this number s s' :
  run_try this number s = (Ok tt, s') →
  fs s !! logBotFile (outputDir this) number = None →
  logBotFile (outputDir this) number ∉ captures s →
  ∃ k0 stamps,
    fs s' !! logBotFile (outputDir this) number
      = Some (File (header +:+ render (entry_at k0 <$> ("origin", k0) :: stamps))) ∧
    "origin" :: stamps.*1 = log_events (config_channels config) ∧
    StronglySorted lt (k0 :: stamps.*2).
Proof.
  intros H Hnone Hfree.
  destruct (run_try_logged _ _ _ _ H) as (k0 & stamps & [tx _ so _ _] & Hn).
  exists k0, stamps. split_and!; [|done|done].
  rewrite (tx Hfree). unfold text_at. by rewrite Hnone.
Qed.

(** C1. For every successful run over the configured channels, the event
    log holds the header line followed by exactly 3 + 2 * |channels| + 2
    entries, named in this order: origin, sniffer-on, browser-on, then for
    each channel in the configured order its -on and its -off, then
    browser-off, then sniffer-off. *)
Theorem event_log_of_successful_run this number s s' :
  run_try this number s = (Ok tt, s') →
  fs s !! logBotFile (outputDir this) number = None →
  logBotFile (outputDir this) number ∉ captures s →
  ∃ es : list Entry,
    fs s' !! logBotFile (outputDir this) number
      = Some (File (header +:+ render es)) ∧
    event <$> es =
      ["origin"; "sniffer-on"; "browser-on"] ++
      flat_map (λ c, [name c +:+ "-on"; name c +:+ "-off"])
               (config_channels config) ++
      ["browser-off"; "sniffer-off"] ∧
    length es = (3 + 2 * length (config_channels config) + 2)%nat.
Proof.
  intros H Hnone Hfree.
  destruct (run_try_entries _ _ _ _ H Hnone Hfree) as (k0 & stamps & Hf & Hn & _).
  exists (entry_at k0 <$> ("origin", k0) :: stamps).
  assert (event <$> (entry_at k0 <$> ("origin", k0) :: stamps)
          = log_events (config_channels config)) as He.
  { by rewrite event_entry_at. }
  split_and!; [done|done|].
  rewrite <-(length_fmap event), He. apply length_log_events.
Qed.

(** C2 (amended). In the event log of a successful run the origin entry
    has offset 0 and comes first, the last entry is sniffer-off, every
    offset is the entry's timestamp minus the timestamp of the origin
    entry, and the offsets never decrease provided the clock readings of the
    run never do. *)
Theorem offsets_of_successful_run this number s s' :
  run_try this number s = (Ok tt, s') →
  fs s !! logBotFile (outputDir this) number = None →
  logBotFile (outputDir this) number ∉ captures s →
  ∃ (originTime : Z) (es : list Entry),
    fs s' !! logBotFile (outputDir this) number
      = Some (File (header +:+
          render ({| event := "origin"; abs := originTime; rel := 0 |} :: es))) ∧
    last (event <$> es) = Some "sniffer-off" ∧
    Forall (λ e, rel e = abs e - originTime) es ∧
    ((∀ i j, (i ≤ j)%nat → a_now (world i) ≤ a_now (world j)) →
     StronglySorted Z.le (0 :: (rel <$> es))).
Proof.
  intros H Hnone Hfree.
  destruct (run_try_entries _ _ _ _ H Hnone Hfree) as (k0 & stamps & Hf & Hn & Hs).
  exists (a_now (world k0)), (entry_at k0 <$> stamps). split_and!.
  - rewrite Hf. simpl. unfold entry_at at 1. simpl. by rewrite Z.sub_diag.
  - rewrite event_entry_at. unfold log_events in Hn. simpl in Hn.
    injection Hn as Hn. rewrite Hn.
    apply (last_two ("sniffer-on" :: "browser-on" :: _)).
  - apply Forall_fmap, Forall_forall. by intros [nm k] _.
  - intros Hmono.
    assert (0 :: (rel <$> (entry_at k0 <$> stamps))
            = (λ k, a_now (world k) - a_now (world k0)) <$> (k0 :: stamps.*2))
      as ->.
    { simpl. rewrite Z.sub_diag. f_equal. rewrite <-!list_fmap_compose.
      by apply list_fmap_ext. }
    eapply StronglySorted_fmap; [|exact Hs].
    intros x y Hxy. simpl. specialize (Hmono x y). lia.
Qed.

(** ** Confinement *)

Lemma confined_ret {A} T (a : A) : confined T (λ x, x = a) (ret a).
Proof.
  intros s r s' K E. unfold ret in E. simplify_eq.
  split_and!; try done; [by intros; simplify_eq|].
  exists []. split; [apply eff_refl|constructor].
Qed.

Lemma confined_throw {A} T (Q : A → Prop) e : confined T Q (throw e).
Proof.
  intros s r s' K E. unfold throw in E. simplify_eq.
  split_and!; try done. exists []. split; [apply eff_refl|constructor].
Qed.

Lemma confined_weaken {A} T (Q Q' : A → Prop) (m : M A) :
  confined T Q m → (∀ a, Q a → Q' a) → confined T Q' m.
Proof.
  intros Hm HQ s r s' K E. destruct (Hm _ _ _ K E) as (? & ? & ? & ?).
  split_and!; auto.
Qed.

Lemma confined_bind {A B} T (Q : A → Prop) (Q' : B → Prop)
    (m : M A) (f : A → M B) :
  confined T Q m → (∀ a, Q a → confined T Q' (f a)) →
  confined T Q' (bind m f).
Proof.
  intros Hm Hf s r s' K E.
  apply bind_inv in E as [(a & s1 & E1 & E2) | [(e & E1 & ->) | (c & E1 & ->)]].
  - destruct (Hm _ _ _ K E1) as (K1 & _ & Qa & acts1 & e1 & F1).
    destruct (Hf a (Qa _ eq_refl) _ _ _ K1 E2) as (K2 & X & Qb & acts2 & e2 & F2).
    split_and!; try done. exists (acts1 ++ acts2).
    split; [by eapply eff_trans|by apply Forall_app].
  - destruct (Hm _ _ _ K E1) as (K1 & _ & _ & acts1 & e1 & F1).
    split_and!; try done. eauto.
  - destruct (Hm _ _ _ K E1) as (_ & X & _). by destruct (X c).
Qed.

Lemma confined_try_catch {A} T (Q : A → Prop) (body : M A) handler :
  confined T Q body → (∀ e, confined T Q (handler e)) →
  confined T Q (try_catch body handler).
Proof.
  intros Hb Hh s r s' K E. unfold try_catch in E.
  destruct (body s) as [[a|e|c] s1] eqn:E1.
  - simplify_eq. by eapply Hb.
  - destruct (Hb _ _ _ K E1) as (K1 & _ & _ & acts1 & e1 & F1).
    destruct (Hh e _ _ _ K1 E) as (K2 & X & Qb & acts2 & e2 & F2).
    split_and!; try done. exists (acts1 ++ acts2).
    split; [by eapply eff_trans|by apply Forall_app].
  - destruct (Hb _ _ _ K E1) as (_ & X & _). by destruct (X c).
Qed.

Lemma confined_for_each {A} T (l : list A) (body : A → M unit) :
  (∀ x, x ∈ l → confined T (λ _, True) (body x)) →
  confined T (λ _, True) (for_each l body).
Proof.
  induction l as [|x l IH]; intros Hb; simpl.
  - eapply confined_weaken; [apply confined_ret|done].
  - eapply confined_bind; [apply Hb; set_solver|].
    intros _ _. apply IH. intros y Hy. apply Hb. set_solver.
Qed.

Lemma confined_when T b (m : M unit) :
  confined T (λ _, True) m → confined T (λ _, True) (when b m).
Proof.
  intros Hm. destruct b; [done|].
  eapply confined_weaken; [apply confined_ret|done].
Qed.

(** An operation that always returns and changes nothing but the clock. *)
Lemma confined_pure {A} T (Q : A → Prop) (m : M A) :
  (∀ s, ∃ a s', m s = (Ok a, s') ∧ Q a ∧ (tick s ≤ tick s')%nat ∧
     fs s' = fs s ∧ procs s' = procs s ∧ trace s' = trace s ∧
     (sniffer s' = sniffer s ∨ sniffer s' = None)) →
  confined T Q m.
Proof.
  intros Hm s r s' K E.
  destruct (Hm s) as (a & s1 & E1 & Qa & t & f & p & tr & v).
  rewrite E1 in E. simplify_eq. split_and!; try done.
  - intros this Hs. destruct v as [v|v]; rewrite v in Hs; [auto|done].
  - by intros; simplify_eq.
  - exists []. split; [|constructor].
    apply eff_same; [done|by rewrite f|by unfold captures; rewrite p|].
    by rewrite tr, app_nil_r.
Qed.

Lemma confined_gets {A} T (f : St → A) : confined T (λ _, True) (gets f).
Proof. apply confined_pure. intros s. exists (f s), s. split_and!; auto. Qed.

Lemma confined_currentUnix T : confined T (λ _, True) currentUnix.
Proof.
  apply confined_pure. intros s. eexists _, _.
  split; [reflexivity|]. simpl. split_and!; auto.
Qed.

Lemma confined_calm {A} T (Q : A → Prop) (m : M A) :
  (∀ s r s', m s = (r, s') →
     (∀ c, r ≠ Exit c) ∧ (∀ a, r = Ok a → Q a) ∧
     ∃ acts, calm acts s s' ∧ Forall (permits T) acts) →
  confined T Q m.
Proof.
  intros Hm s r s' K E.
  destruct (Hm _ _ _ E) as (X & Qa & acts & (e & c & v) & F).
  split_and!; try done.
  - intros this. rewrite v. apply K.
  - exists acts. split; [|done]. eapply eff_weaken; [|exact e]. set_solver.
Qed.

Lemma session_paths T acts :
  Forall (λ e, is_session e = true) acts → Forall (permits T) acts.
Proof.
  intros F. eapply Forall_impl; [exact F|]. intros e He.
  destruct e; simplify_eq/=; (split; [set_solver|done]).
Qed.

Ltac permit :=
  repeat constructor; simpl; try done; try set_solver.

Lemma confined_fs_call T p act (m : M unit) :
  p ∈ T → effect_paths act = [p] → (∀ q, act ≠ Mkdir q) →
  (∀ s r s', m s = (r, s') → fs_call p act s s' ∧ ∀ c, r ≠ Exit c) →
  confined T (λ _, True) m.
Proof.
  intros Hp Ha Hd Hm s r s' K E.
  destruct (Hm _ _ _ E) as ((e & _ & c & v & _) & X).
  split_and!; try done.
  - intros this. rewrite v. apply K.
  - exists [act]. split.
    + eapply eff_weaken; [|exact e]. set_solver.
    + repeat constructor; [|done]. rewrite Ha. set_solver.
Qed.

Lemma confined_appendFileSync T p data :
  p ∈ T → confined T (λ _, True) (appendFileSync p data).
Proof.
  intros Hp. apply (confined_fs_call T p (Append p data)); [done..|].
  intros s r s' E. by apply appendFileSync_spec in E as (? & ? & _).
Qed.

Lemma confined_unlinkSync T p :
  p ∈ T → confined T (λ _, True) (unlinkSync p).
Proof.
  intros Hp. apply (confined_fs_call T p (Unlink p)); [done..|].
  intros s r s' E. by apply unlinkSync_spec in E as (? & ? & _).
Qed.

Lemma confined_awaiting T ms : confined T (λ _, True) (awaiting ms).
Proof.
  apply confined_calm. intros s r s' E.
  destruct (awaiting_spec ms s) as (s1 & E1 & Hs). rewrite E1 in E.
  simplify_eq. split_and!; try done. exists [Wait ms].
  split; [by apply suspended_calm|]. permit.
Qed.

Lemma confined_launch T : confined T (λ _, True) BrowserManager_launch.
Proof.
  apply confined_calm. intros s r s' E.
  apply BrowserManager_launch_spec in E as (acts & C & X & F & _).
  split_and!; eauto using session_paths.
Qed.

Lemma confined_goto T url : confined T (λ _, True) (page_goto url).
Proof.
  apply confined_calm. intros s r s' E.
  apply page_goto_spec in E as (acts & C & X & F & _).
  split_and!; eauto using session_paths.
Qed.

Lemma confined_close T : confined T (λ _, True) BrowserManager_close.
Proof.
  apply confined_calm. intros s r s' E.
  apply BrowserManager_close_spec in E as (acts & C & X & _ & F).
  split_and!; try done. exists acts. split; [done|].
  destruct (browserManager s) as [this|]; [destruct (browser this)|];
    destruct_and?; subst; permit.
Qed.

Lemma confined_startHarLogging T path :
  path ∈ T →
  confined T (λ har, har_path har = path) (BrowserManager_startHarLogging path).
Proof.
  intros Hp. apply confined_calm. intros s r s' E.
  apply BrowserManager_startHarLogging_spec in E as (C & X & Hh).
  split_and!; try done. exists [HarStart path]. split; [done|]. permit.
Qed.

Lemma confined_Har_stop T har :
  har_path har ∈ T → confined T (λ _, True) (Har_stop har).
Proof.
  intros Hp s r s' K E. apply Har_stop_spec in E as (e & c & v & X).
  split_and!; try done.
  - intros this. rewrite v. apply K.
  - exists [HarStop (har_path har)]. split.
    + eapply eff_weaken; [|exact e]. set_solver.
    + permit.
Qed.

Lemma confined_Sniffer_stop T signal :
  confined T (λ _, True) (Sniffer_stop signal).
Proof.
  apply confined_calm. intros s r s' E.
  apply Sniffer_stop_spec in E as (acts & C & _ & _ & Ha & X & _).
  split_and!; try done. exists acts. split; [done|].
  destruct Ha as [->|(? & ? & ->)]; permit.
Qed.

Lemma confined_Sniffer_start T : confined T (λ _, True) Sniffer_start.
Proof.
  intros s r s' K E.
  destruct (sniffer s) as [this|] eqn:Hs.
  - destruct (Sniffer_start_eff s this Hs)
      as (s1 & act & E1 & e & -> & _ & _ & Hv).
    rewrite E1 in E. simplify_eq. specialize (K _ Hs).
    split_and!; try done.
    + intros this'. rewrite Hv. intros; by simplify_eq.
    + eexists [_]. split; [eapply eff_weaken; [|exact e]; set_solver|].
      permit.
  - unfold Sniffer_start, this_sniffer in E.
    rewrite bind_assoc, bind_gets, Hs in E. unfold throw, bind in E.
    simplify_eq. split_and!; try done.
    exists []. split; [apply eff_refl|constructor].
Qed.

Lemma confined_set_sniffer T x :
  (∀ this, x = Some this → outputPath this ∈ T) →
  confined T (λ _, True) (modify (set_sniffer x)).
Proof.
  intros Hx s r s' K E. unfold modify in E. simplify_eq.
  split_and!; try done. exists []. split; [|constructor].
  apply eff_same; simpl; auto. by rewrite app_nil_r.
Qed.

Lemma confined_set_browserManager T x :
  confined T (λ _, True) (modify (set_browserManager x)).
Proof.
  intros s r s' K E. unfold modify in E. simplify_eq.
  split_and!; try done. exists []. split; [|constructor].
  apply eff_same; simpl; auto. by rewrite app_nil_r.
Qed.

Lemma confined_console T e :
  is_console e = true → confined T (λ _, True) (emit e).
Proof.
  intros He s r s' K E. unfold emit, modify in E. simplify_eq.
  split_and!; try done. exists []. split; [|constructor].
  apply eff_same; simpl; auto. by rewrite actions_snoc, He.
Qed.

Ltac confine_step :=
  first
    [ apply confined_appendFileSync; unfold artifacts; set_solver
    | apply confined_currentUnix
    | apply confined_awaiting
    | apply confined_launch
    | apply confined_goto
    | apply confined_close
    | apply confined_Sniffer_stop
    | apply confined_Sniffer_start
    | apply confined_set_browserManager
    | apply confined_gets
    | apply confined_console; reflexivity ].

Ltac confine :=
  repeat first [ confine_step | eapply confined_bind; [confine_step|intros ? ?] ].

Lemma confined_visit this number originTime channel :
  confined (artifacts (outputDir this) number) (λ _, True)
    (visit this (logBotFile (outputDir this) number) originTime channel).
Proof. unfold visit. confine. Qed.

Lemma confined_cleanFiles T files :
  files ⊆ T → confined T (λ _, True) (cleanFiles files).
Proof.
  intros Hf. apply confined_for_each. intros file Hin.
  eapply confined_bind.
  - apply (confined_pure T (λ _, True)). intros s. eexists _, s.
    split; [reflexivity|]. split_and!; auto.
  - intros present _. apply confined_when, confined_unlinkSync. by apply Hf.
Qed.

Lemma confined_run_catch this number message :
  confined (artifacts (outputDir this) number) (λ _, True)
    (run_catch this number message).
Proof.
  unfold run_catch, console_error.
  eapply confined_bind; [confine_step|intros _ _].
  eapply confined_bind; [confine_step|intros manager _].
  eapply confined_bind; [apply confined_when; confine_step|intros _ _].
  eapply confined_bind; [by apply confined_cleanFiles|intros _ _].
  eapply confined_bind; [confine_step|intros capture _].
  apply confined_when. confine_step.
Qed.

Ltac confine_run_try :=
  confine;
  try (eapply confined_bind;
       [apply confined_set_sniffer; intros ? [= <-]; simpl;
        unfold artifacts; set_solver|intros ? ?]);
  confine;
  try (eapply confined_bind;
       [apply confined_startHarLogging; unfold artifacts; set_solver
       |let Hp := fresh "Hp" in intros ? Hp; cbv beta in Hp]);
  confine;
  try (eapply confined_bind;
       [apply confined_for_each; intros; apply confined_visit|intros ? ?]);
  try (eapply confined_bind;
       [apply confined_Har_stop;
        match goal with Hp : har_path _ = _ |- _ => rewrite Hp end;
        unfold artifacts; set_solver
       |intros ? ?]);
  confine.

Lemma confined_run_try this number :
  confined (artifacts (outputDir this) number) (λ _, True)
    (run_try this number).
Proof. unfold run_try. confine_run_try. Qed.

(** ** The failure handler *)



(** ** The constructor and the waits *)

Lemma new_Experiment_fields s this s' :
  new_Experiment s = (Ok this, s') →
  fastAwait this = config_fastAwait config * 1000 ∧
  longAwait this = config_longAwait config * 1000 ∧
  watchAwait this = config_longAwait config * 1000 * 30.
Proof.
  unfold new_Experiment. intros H.
  apply bind_Ok in H as (dir & s1 & _ & H). unfold ret in H. by simplify_eq.
Qed.

(** C9. The experiment built by the constructor waits for these durations,
    in milliseconds: the short and the long interval are the configured
    seconds times 1000, the watch interval of each channel is the
    configured long interval times 1000 times 30, and the last wait of a
    run, after the browser is closed, is twice the long interval. *)
Theorem wait_durations s0 this s1 number s s' :
  new_Experiment s0 = (Ok this, s1) →
  run_try this number s = (Ok tt, s') →
  fastAwait this = config_fastAwait config * 1000 ∧
  longAwait this = config_longAwait config * 1000 ∧
  watchAwait this = config_longAwait config * 1000 * 30 ∧
  ∃ acts,
    actions (trace s') = actions (trace s) ++ acts ∧
    waits_of acts =
      [config_fastAwait config * 1000; config_longAwait config * 1000] ++
      flat_map (λ _, [config_longAwait config * 1000 * 30;
                      config_fastAwait config * 1000])
               (config_channels config) ++
      [config_longAwait config * 1000 * 2].
Proof.
  intros Hnew H.
  destruct (new_Experiment_fields _ _ _ Hnew) as (Hf & Hl & Hw).
  split_and!; [done..|].
  destruct (run_try_logged _ _ _ _ H)
    as (k0 & stamps & [_ _ _ _ (acts & Ha & Hws)] & _).
  exists acts. split; [done|]. by rewrite Hws, Hf, Hl, Hw.
Qed.

(** ** [Sniffer.stop] twice *)

Lemma signals_app t1 t2 : signals (t1 ++ t2) = (signals t1 + signals t2)%nat.
Proof. unfold signals. by rewrite List.filter_app, length_app. Qed.

(** C7. [stop] without argument is [stop] with SIGTERM.  On a capture
    object that was never started it does nothing at all.  Called twice in
    a row it raises nothing, at most one signal reaches the capture process,
    and when the first call got its signal through, the second call does
    nothing at all. *)
Theorem stop_idempotent signal s this :
  sniffer s = Some this →
  Sniffer_stop None s = Sniffer_stop (Some SIGTERM) s ∧
  (snifferProcess this = None → Sniffer_stop signal s = (Ok tt, s)) ∧
  ∃ s1 s2,
    Sniffer_stop signal s = (Ok tt, s1) ∧
    Sniffer_stop signal s1 = (Ok tt, s2) ∧
    (signals (trace s2) ≤ S (signals (trace s)))%nat ∧
    (signals (trace s1) = S (signals (trace s)) → s2 = s1).
Proof.
  intros Hs. split; [done|]. split.
  { intros Hp. rewrite Sniffer_stop_unfold, Hs, Hp. done. }
  rewrite Sniffer_stop_unfold, Hs.
  destruct (snifferProcess this) as [child|] eqn:Hp.
  2:{ exists s, s. rewrite Sniffer_stop_unfold, Hs, Hp.
      split_and!; try done; lia. }
  destruct (procs s !! child) as [p|] eqn:E.
  2:{ exists s, s. rewrite Sniffer_stop_unfold, Hs, Hp, E.
      split_and!; try done; lia. }
  destruct (killed p) eqn:Hk.
  { exists s, s. rewrite Sniffer_stop_unfold, Hs, Hp, E, Hk.
    split_and!; try done; lia. }
  cbv zeta.
  destruct (running p && a_delivered (world (S (tick s)))) eqn:Hsent.
  - eexists _, _. split; [reflexivity|].
    rewrite Sniffer_stop_unfold. simpl. rewrite Hp.
    rewrite list_lookup_insert_eq by (by eapply lookup_lt_Some). simpl.
    split; [reflexivity|]. simpl.
    rewrite !signals_app. unfold signals. simpl. split; [lia|done].
  - eexists _, _. split; [reflexivity|].
    rewrite Sniffer_stop_unfold. simpl. rewrite Hp.
    rewrite list_lookup_insert_eq by (by eapply lookup_lt_Some). simpl.
    rewrite Hk. cbv zeta. split; [reflexivity|]. simpl.
    rewrite <-!app_assoc, !signals_app. unfold signals. simpl.
    destruct (running (add_listener OnStopExit p) && _); simpl; split; lia.
Qed.

(** ** The repetition loop *)

Lemma run_iteration_unfold this number s :
  run_iteration this number s
  = try_catch (run_try this number) (run_catch this number) (entered number s).
Proof. reflexivity. Qed.

Lemma eff_entered T number s : eff T [] s (entered number s).
Proof.
  apply eff_same.
  - simpl. lia.
  - done.
  - done.
  - simpl. by rewrite actions_snoc.
Qed.

(** Whatever becomes of it, a [try] block first appends the header. *)
Lemma run_try_begins this number s r s' :
  keeps (artifacts (outputDir this) number) s →
  run_try this number s = (r, s') →
  ∃ acts, actions (trace s') = actions (trace s) ++
            Append (logBotFile (outputDir this) number) header :: acts.
Proof.
  intros K E. unfold run_try in E.
  apply bind_inv in E as [([] & s1 & E1 & E2) | [(e & E1 & ->) | (c & E1 & ->)]];
    apply appendFileSync_spec in E1 as ((e1 & _ & _ & v1 & _) & X & _);
    destruct e1 as [_ _ _ x1].
  - match type of E2 with
    | ?rest _ = _ =>
        assert (confined (artifacts (outputDir this) number) (λ _, True) rest)
          as Hrest by confine_run_try
    end.
    destruct (Hrest s1 r s') as (_ & _ & _ & acts & [_ _ _ x2] & _); [|done|].
    { intros this'. rewrite v1. apply K. }
    exists acts. by rewrite x2, x1, <-app_assoc.
  - by exists [].
  - by destruct (X c).
Qed.

Lemma run_iteration_spec this number s r s' :
  run_iteration this number s = (r, s') →
  (∀ c, r ≠ Exit c) ∧
  (∃ acts,
     eff (artifacts (outputDir this) number) acts s s' ∧
     Forall (permits (artifacts (outputDir this) number)) acts ∧
     Append (logBotFile (outputDir this) number) header ∈ acts) ∧
  (∀ e, r = Throw e →
     ∃ message sb,
       run_try this number (entered number s) = (Throw message, sb) ∧
       run_catch this number message sb = (Throw e, s')).
Proof.
  rewrite run_iteration_unfold. intros E.
  assert (keeps (artifacts (outputDir this) number) (entered number s)) as K.
  { by intros this' Hs. }
  pose proof (confined_try_catch _ _ _ _
    (confined_run_try this number) (confined_run_catch this number)
    _ _ _ K E) as (_ & X & _ & acts & e & F).
  split; [done|].
  unfold try_catch in E.
  destruct (run_try this number (entered number s)) as [[[]|message|c] sb] eqn:Et.
  - simplify_eq. split; [|done].
    destruct (run_try_begins _ _ _ _ _ K Et) as (acts' & Ha).
    exists acts. split_and!; [|done|].
    + rewrite <-(app_nil_l acts). eapply eff_trans; [apply eff_entered|done].
    + destruct e as [_ _ _ x]. rewrite x in Ha.
      apply app_inv_head in Ha as ->. set_solver.
  - split; [|intros e' ->; eauto].
    destruct (run_try_begins _ _ _ _ _ K Et) as (acts1 & Ha1).
    destruct (confined_run_catch this number message sb r s')
      as (_ & _ & _ & acts2 & [_ _ _ x2] & _); [|done|].
    { by destruct (confined_run_try this number _ _ _ K Et) as (? & _). }
    exists acts. split_and!; [|done|].
    + rewrite <-(app_nil_l acts). eapply eff_trans; [apply eff_entered|done].
    + destruct e as [_ _ _ x]. rewrite x2, Ha1, <-app_assoc in x.
      apply app_inv_head in x as <-. set_solver.
  - simplify_eq. by destruct (X c).
Qed.

Lemma loop_spec this numbers s r s' :
  for_each numbers (run_iteration this) s = (r, s') →
  (∀ c, r ≠ Exit c) ∧
  ∃ acts,
    actions (trace s') = actions (trace s) ++ acts ∧
    (r = Ok tt → ∀ number, number ∈ numbers →
       Append (logBotFile (outputDir this) number) header ∈ acts) ∧
    (∀ e, r = Throw e →
       ∃ number sa message sb, number ∈ numbers ∧
         run_try this number sa = (Throw message, sb) ∧
         run_catch this number message sb = (Throw e, s')).
Proof.
  revert s. induction numbers as [|n numbers IH]; intros s H.
  { unfold for_each, ret in H. simplify_eq. split; [done|]. exists [].
    rewrite app_nil_r. split_and!; [done| |done]. intros _ ? ?%elem_of_nil. done. }
  simpl in H.
  apply bind_inv in H as [([] & s1 & E1 & E2) | [(e & E1 & ->) | (c & E1 & ->)]];
    apply run_iteration_spec in E1 as (X1 & (acts1 & [_ _ _ x1] & _ & Hin) & T1);
    [| |by destruct (X1 c)].
  - destruct (IH _ E2) as (X2 & acts2 & x2 & Hok & Hthrow).
    split; [done|]. exists (acts1 ++ acts2). split_and!.
    + by rewrite x2, x1, app_assoc.
    + intros Hr number [->|Hn]%elem_of_cons; [set_solver|].
      apply elem_of_app. right. by apply Hok.
    + intros e Hr. destruct (Hthrow e Hr) as (number & sa & message & sb & ? & ?).
      exists number, sa, message, sb. split; [set_solver|done].
  - split; [done|]. exists acts1. split_and!; [done|done|].
    intros e' [= <-]. destruct (T1 e eq_refl) as (message & sb & ? & ?).
    exists n, (entered n s), message, sb. split_and!; [set_solver|done..].
Qed.

(** [makeOutputDir] and the constructor: at most one directory is made, and
    it exists afterwards. *)
Lemma new_Experiment_spec s r s' :
  new_Experiment s = (r, s') →
  (∀ c, r ≠ Exit c) ∧
  ∃ dir, dir = path_join dirname (a_isoDate (world (tick s)) +:+ "_"
                                  +:+ a_clockTime (world (tick s))) ∧
    (actions (trace s') = actions (trace s) ∨
     actions (trace s') = actions (trace s) ++ [Mkdir dir]) ∧
    (∀ p, p ≠ dir → fs s' !! p = fs s !! p) ∧
    captures s' = captures s ∧
    (∀ this, r = Ok this → outputDir this = dir ∧ is_Some (fs s' !! dir)).
Proof.
  unfold new_Experiment, makeOutputDir. intros H.
  rewrite bind_assoc, bind_fresh in H. cbv zeta in H.
  unfold existsSync in H. rewrite bind_assoc, bind_gets in H. simpl in H.
  set (dir := path_join dirname _) in *.
  destruct (bool_decide (is_Some (fs s !! dir))) eqn:Hex; simpl in H.
  - unfold bind, ret in H. simplify_eq.
    split; [done|]. exists dir. split_and!; simpl; auto.
    intros this [= <-]. split; [done|]. by apply bool_decide_eq_true in Hex.
  - rewrite bind_assoc in H.
    apply bind_inv in H as [([] & s1 & E1 & E2) | [(e & E1 & ->) | (c & E1 & ->)]];
      apply mkdirSync_spec in E1
        as (([_ _ _ x1] & _ & c1 & _ & _ & f1) & X & g1);
      simpl in *.
    + unfold bind, ret in E2. simplify_eq.
      split; [done|]. exists dir. split_and!; auto.
      intros this [= <-]. split; [done|].
      destruct (g1 eq_refl) as [_ ->]. eauto.
    + split; [done|]. exists dir. split_and!; auto. done.
    + by destruct (X c).
Qed.

(** ** The preflight check and the whole script *)

Lemma checkCookies_absent s :
  fs s !! path_join dirname "user_data" = None →
  checkCookies s =
    (Exit 1,
     {| tick := S (tick s); fs := fs s; procs := procs s;
        sniffer := sniffer s; browserManager := browserManager s;
        trace := trace s ++
          [ConsoleLog ("[" +:+ a_dateString (world (tick s))
                       +:+ "] The 'user_data' directory does not exist.");
           ConsoleLog ("[" +:+ a_dateString (world (tick s))
                       +:+ "] Please run 'node register.js' to set up the user data.");
           ProcessExit 1] |}).
Proof.
  intros Hn. unfold checkCookies, existsSync. rewrite bind_gets, Hn.
  rewrite bool_decide_eq_false_2 by (by intros [? ?]). simpl.
  unfold currentTime, console_log, exit.
  rewrite bind_assoc, bind_fresh, bind_ret, !bind_emit. simpl.
  by rewrite <-!app_assoc.
Qed.

Lemma checkCookies_present s :
  is_Some (fs s !! path_join dirname "user_data") →
  checkCookies s = (Ok tt, s).
Proof.
  intros Hs. unfold checkCookies, existsSync. rewrite bind_gets.
  by rewrite bool_decide_eq_true_2.
Qed.

Lemma main_spec s r s' :
  is_Some (fs s !! path_join dirname "user_data") →
  main s = (r, s') →
  (∀ c, r ≠ Exit c) ∧
  ((∃ e, r = Throw e ∧ new_Experiment s = (Throw e, s')) ∨
   ∃ this s1, new_Experiment s = (Ok this, s1) ∧
              Experiment_run this s1 = (r, s')).
Proof.
  intros Hs H. unfold main in H.
  rewrite (bind_eq _ _ _ _ _ (checkCookies_present s Hs)) in H.
  apply bind_inv in H
    as [(this & s1 & E1 & E2) | [(e & E1 & ->) | (c & E1 & ->)]].
  - split; [|eauto]. by apply loop_spec in E2 as (? & _).
  - split; [done|eauto].
  - apply new_Experiment_spec in E1 as (X & _). by destruct (X c).
Qed.

(** C8. When the ['user_data'] directory does not exist, the script prints
    the two lines of instructions, each after the bracketed date, and ends
    the process with status 1: no file or directory is created, no process
    is started, nothing else is done.  When the directory exists nothing is
    printed by the check, the script is the constructor followed by the
    repetition loop, and nothing in them ends the process. *)
Theorem preflight_check s r s' :
  main s = (r, s') →
  (fs s !! path_join dirname "user_data" = None →
     r = Exit 1 ∧ fs s' = fs s ∧ procs s' = procs s ∧
     trace s' = trace s ++
       [ConsoleLog ("[" +:+ a_dateString (world (tick s))
                    +:+ "] The 'user_data' directory does not exist.");
        ConsoleLog ("[" +:+ a_dateString (world (tick s))
                    +:+ "] Please run 'node register.js' to set up the user data.");
        ProcessExit 1]) ∧
  (is_Some (fs s !! path_join dirname "user_data") →
     (∀ c, r ≠ Exit c) ∧
     (let* experiment := new_Experiment in Experiment_run experiment) s = (r, s')).
Proof.
  intros H. split.
  - intros Hn. unfold main, bind in H. rewrite (checkCookies_absent s Hn) in H.
    by simplify_eq.
  - intros Hs. split; [by eapply main_spec|].
    unfold main in H. by rewrite (bind_eq _ _ _ _ _ (checkCookies_present s Hs)) in H.
Qed.

(** C6 (amended). When the preflight check passes, an exception raised in
    the [try] block of a repetition never leaves the repetition loop.  The
    script ends normally, every configured repetition having been
    attempted, unless the constructor raises before the first repetition or
    the failure handler of a repetition itself raises: that exception, and
    only such a one, leaves the loop and ends the script.  Nothing ends the
    process with an exit call. *)
Theorem run_failures_stay_in_the_loop s r s' :
  is_Some (fs s !! path_join dirname "user_data") →
  main s = (r, s') →
  (∀ c, r ≠ Exit c) ∧
  (r = Ok tt →
     ∃ this s1 acts,
       new_Experiment s = (Ok this, s1) ∧
       actions (trace s') = actions (trace s1) ++ acts ∧
       ∀ number, (number < config_repetitions config)%nat →
         Append (logBotFile (outputDir this) number) header ∈ acts) ∧
  (∀ e, r = Throw e →
     new_Experiment s = (Throw e, s') ∨
     ∃ this number sa message sb,
       (number < config_repetitions config)%nat ∧
       run_try this number sa = (Throw message, sb) ∧
       run_catch this number message sb = (Throw e, s')).
Proof.
  intros Hs H.
  destruct (main_spec _ _ _ Hs H) as (X & [(e & -> & En) | (this & s1 & En & Er)]).
  { split_and!; [done|done|]. intros ? [= <-]. by left. }
  apply loop_spec in Er as (_ & acts & Ha & Hok & Hthrow).
  split_and!; [done| |].
  - intros Hr. exists this, s1, acts. split_and!; [done..|].
    intros number Hn. apply Hok; [done|]. apply elem_of_seq. lia.
  - intros e Hr. right.
    destruct (Hthrow e Hr) as (number & sa & message & sb & Hn & ? & ?).
    exists this, number, sa, message, sb. split_and!; [|done..].
    apply elem_of_seq in Hn. lia.
Qed.

(** C10. The constructor makes at most one directory, the output directory,
    which exists afterwards and under which every artifact path of every
    repetition lies.  The artifact paths of two different repetitions are
    disjoint.  Whatever becomes of it, a repetition creates no directory,
    names in its actions only its own three artifact paths, hence none of
    another repetition, and leaves every other file as it was, the files
    still written by the capture processes of earlier repetitions apart. *)
Theorem runs_keep_to_their_artifacts s0 this s1 n m s r s' :
  new_Experiment s0 = (Ok this, s1) →
  n ≠ m →
  run_iteration this n s = (r, s') →
  is_Some (fs s1 !! outputDir this) ∧
  (actions (trace s1) = actions (trace s0) ∨
   actions (trace s1) = actions (trace s0) ++ [Mkdir (outputDir this)]) ∧
  (∀ p, p ∈ artifacts (outputDir this) n → p ∉ artifacts (outputDir this) m) ∧
  ∃ acts,
    actions (trace s') = actions (trace s) ++ acts ∧
    (∀ e, e ∈ acts →
       (∀ p, e ≠ Mkdir p) ∧
       ∀ p, p ∈ effect_paths e →
         p ∈ artifacts (outputDir this) n ∧ p ∉ artifacts (outputDir this) m) ∧
    (∀ p, p ∉ artifacts (outputDir this) n → p ∉ captures s →
       fs s' !! p = fs s !! p).
Proof.
  intros Hnew Hnm H.
  assert (∀ p, p ∈ artifacts (outputDir this) n →
               p ∉ artifacts (outputDir this) m) as Hdisj.
  { unfold artifacts. intros p Hn Hm.
    rewrite !elem_of_cons, elem_of_nil in Hn, Hm.
    destruct Hn as [->|[->|[->|[]]]]; destruct Hm as [Hm|[Hm|[Hm|[]]]];
      first [ by apply logNet_inj in Hm | by apply logBot_inj in Hm
            | by apply logHar_inj in Hm | by apply logBot_ne_logNet in Hm
            | by apply logBot_ne_logHar in Hm | by apply logNet_ne_logHar in Hm
            | by symmetry in Hm; apply logBot_ne_logNet in Hm
            | by symmetry in Hm; apply logBot_ne_logHar in Hm
            | by symmetry in Hm; apply logNet_ne_logHar in Hm ]. }
  apply new_Experiment_spec in Hnew as (_ & dir & -> & Hmk & _ & _ & Hdir).
  destruct (Hdir _ eq_refl) as [Hd Hex]. rewrite <-Hd in Hmk, Hex.
  apply run_iteration_spec in H as (_ & (acts & [_ f _ x] & F & _) & _).
  split_and!; [done..|].
  exists acts. split_and!; [done| |done].
  intros e He. rewrite Forall_forall in F. destruct (F e He) as [Hp Hk].
  split; [done|]. intros p Hin. split; [by apply Hp|by apply Hdisj, Hp].
Qed.

(** ** A capture binary that is missing *)

Lemma steady_ret {A} (R : St → St → Prop) `{!Reflexive R} (a : A) :
  steady R (ret a).
Proof. intros s. by exists a, s. Qed.

Lemma steady_bind {A B} (R : St → St → Prop) `{!Transitive R}
    (m : M A) (f : A → M B) :
  steady R m → (∀ a, steady R (f a)) → steady R (bind m f).
Proof.
  intros Hm Hf s. destruct (Hm s) as (a & s1 & E1 & R1).
  destruct (Hf a s1) as (b & s2 & E2 & R2).
  exists b, s2. rewrite (bind_eq _ _ _ _ _ E1). split; [done|by etrans].
Qed.

Lemma steady_for_each {A} (R : St → St → Prop) `{!PreOrder R}
    (l : list A) (body : A → M unit) :
  (∀ x, x ∈ l → steady R (body x)) → steady R (for_each l body).
Proof.
  induction l as [|x l IH]; intros Hb; simpl.
  - apply steady_ret. apply _.
  - apply steady_bind; [apply _|apply Hb; set_solver|].
    intros _. apply IH. intros y Hy. apply Hb. set_solver.
Qed.

Lemma steady_weaken {A} (R R' : St → St → Prop) (m : M A) :
  (∀ s s', R s s' → R' s s') → steady R m → steady R' m.
Proof.
  intros HR Hm s. destruct (Hm s) as (a & s' & ? & ?). exists a, s'. auto.
Qed.

Global Instance grown_preorder : PreOrder grown.
Proof.
  split.
  - intros s. exists []. by rewrite app_nil_r.
  - intros s1 s2 s3 [m1 H1] [m2 H2]. exists (m1 ++ m2).
    by rewrite H2, H1, app_assoc.
Qed.

Global Instance grown_beside_preorder h : PreOrder (grown_beside h).
Proof.
  split.
  - intros s. split; [reflexivity|done].
  - intros s1 s2 s3 [G1 H1] [G2 H2]. split; [by etrans|congruence].
Qed.

Lemma grown_same s s' : trace s' = trace s → grown s s'.
Proof. intros H. exists []. by rewrite app_nil_r. Qed.

Lemma steady_gets {A} (R : St → St → Prop) `{!Reflexive R} (f : St → A) :
  steady R (gets f).
Proof. intros s. by exists (f s), s. Qed.

Lemma steady_emit h e : steady (grown_beside h) (emit e).
Proof.
  intros s. eexists _, _. split; [reflexivity|]. split; [|done].
  by exists [e].
Qed.

Lemma steady_fresh h : steady (grown_beside h) fresh.
Proof.
  intros s. eexists _, _. split; [reflexivity|]. split; [|done].
  by apply grown_same.
Qed.

Lemma steady_on_error h message l : steady (grown_beside h) (on_error message l).
Proof.
  destruct l; simpl; try (apply steady_ret; apply _). apply steady_emit.
Qed.

Lemma steady_on_exit h code signal l :
  steady (grown_beside h) (on_exit code signal l).
Proof.
  destruct l; simpl; [apply steady_ret; apply _|..];
    (apply steady_bind; [apply _| |intros t]);
    try (apply steady_bind; [apply _|apply steady_fresh|intros; apply steady_ret; apply _]).
  - case_bool_decide; apply steady_emit.
  - destruct signal; [apply steady_emit|]. case_bool_decide; apply steady_emit.
Qed.

Lemma steady_flush_error_other h h' :
  h ≠ h' → steady (grown_beside h) (flush_error h').
Proof.
  intros Hne. apply steady_bind; [apply _|apply steady_gets; apply _|].
  intros [p|]; [|apply steady_ret; apply _].
  destruct (pendingError p) as [msg|]; [|apply steady_ret; apply _].
  apply steady_bind; [apply _| |intros _].
  - intros s. eexists _, _. split; [reflexivity|].
    split; [by apply grown_same|]. simpl. by apply list_lookup_alter_ne.
  - apply steady_for_each; [apply _|]. intros; apply steady_on_error.
Qed.

Lemma steady_flush_error h : steady grown (flush_error h).
Proof.
  apply steady_bind; [apply _|apply steady_gets; apply _|].
  intros [p|]; [|apply steady_ret; apply _].
  destruct (pendingError p) as [msg|]; [|apply steady_ret; apply _].
  apply steady_bind; [apply _| |intros _].
  - intros s. eexists _, _. split; [reflexivity|]. by apply grown_same.
  - apply steady_for_each; [apply _|]. intros.
    eapply (steady_weaken (grown_beside 0)); [by intros ? ? [? _]|].
    apply steady_on_error.
Qed.

Lemma steady_proc_event hev : steady grown (proc_event hev).
Proof.
  apply steady_bind; [apply _|apply steady_gets; apply _|].
  intros [p|]; [|apply steady_ret; apply _].
  destruct (running p); [|apply steady_ret; apply _].
  destruct hev.2 as [code signal|data].
  - apply steady_bind; [apply _| |intros _].
    + intros s. eexists _, _. split; [reflexivity|]. by apply grown_same.
    + apply steady_for_each; [apply _|]. intros.
      eapply (steady_weaken (grown_beside 0)); [by intros ? ? [? _]|].
      apply steady_on_exit.
  - intros s. eexists _, _. split; [reflexivity|].
    destruct (fs s !! capture_file p) as [[old|]|]; by apply grown_same.
Qed.

Lemma for_each_app {A} (l1 l2 : list A) (body : A → M unit) s :
  for_each (l1 ++ l2) body s = (for_each l1 body >> for_each l2 body) s.
Proof.
  revert s. induction l1 as [|x l1 IH]; intros s; simpl; [done|].
  rewrite bind_assoc. apply bind_ext. intros _ s1. apply IH.
Qed.

Lemma bind_for_each_app {A B} (l1 l2 : list A) body (G : unit → M B) s :
  bind (for_each (l1 ++ l2) body) G s
  = bind (for_each l1 body) (λ _, bind (for_each l2 body) G) s.
Proof.
  rewrite <-bind_assoc. unfold bind at 1 3. by rewrite for_each_app.
Qed.

(** The error event of a process that could not be started is printed by
    the listener of [start] on the next turn of the event loop. *)
Lemma turn_reports a s h p message t ls :
  procs s !! h = Some p →
  pendingError p = Some message →
  listeners p = OnStartError t :: ls →
  ∃ s', turn a s = (Ok tt, s') ∧
    ConsoleError ("[" +:+ t +:+ "] Error starting tshark process: " +:+ message)
      ∈ trace s'.
Proof.
  intros Hp Hpe Hl. unfold turn. rewrite bind_gets.
  assert (h < length (procs s))%nat as Hlt by (by eapply lookup_lt_Some).
  assert (seq 0 (length (procs s))
          = seq 0 h ++ [h] ++ seq (S h) (length (procs s) - S h)) as ->.
  { replace (length (procs s)) with (h + S (length (procs s) - S h))%nat
      at 1 by lia.
    by rewrite seq_app. }
  assert (∀ h', h' ∈ seq 0 h → steady (grown_beside h) (flush_error h'))
    as Hbefore.
  { intros h' Hh'. apply steady_flush_error_other.
    apply elem_of_seq in Hh'. lia. }
  destruct (steady_for_each (grown_beside h) (seq 0 h) flush_error Hbefore s)
    as ([] & s1 & E1 & G1 & P1).
  rewrite Hp in P1.
  destruct (steady_for_each grown ls (on_error message)
    (λ l _, steady_weaken (grown_beside 0) grown _
              (λ _ _ H, proj1 H) (steady_on_error 0 message l))
    (set_trace (trace (set_procs (alter clear_pending h (procs s1)) s1) ++
       [ConsoleError ("[" +:+ t +:+ "] Error starting tshark process: "
                      +:+ message)])
       (set_procs (alter clear_pending h (procs s1)) s1)))
    as ([] & s2 & E2 & G2).
  destruct (steady_for_each grown (seq (S h) (length (procs s) - S h))
    flush_error (λ h' _, steady_flush_error h') s2) as ([] & s3 & E3 & G3).
  destruct (steady_for_each grown (a_events a) proc_event
    (λ hev _, steady_proc_event hev) s3) as ([] & s4 & E4 & G4).
  exists s4. split.
  - rewrite bind_for_each_app, (bind_eq _ _ _ _ _ E1).
    simpl. rewrite bind_assoc. unfold flush_error at 1.
    rewrite !bind_assoc, bind_gets, P1, Hpe, Hl. simpl.
    unfold update_proc, console_error.
    rewrite !bind_assoc, bind_modify, !bind_assoc, bind_emit.
    rewrite (bind_eq _ _ _ _ _ E2).
    by rewrite (bind_eq _ _ _ _ _ E3).
  - destruct G4 as [m4 ->]. destruct G3 as [m3 ->]. destruct G2 as [m2 ->].
    simpl. set_solver.
Qed.

(** *** A run in which no call fails *)

Section NoFailure.

Hypothesis no_error : ∀ k, a_error (world k) = None.
Hypothesis some_page : ∀ k, (0 < a_pages (world k))%nat.

Lemma writable_eff p T acts s s' :
  writable p s → eff T acts s s' → p ∉ T → writable p s'.
Proof.
  intros [Hd Hc] [_ f (more & c & i) _] Hp. split.
  - by rewrite f.
  - rewrite c. intros [?|?]%elem_of_app; [done|]. by apply Hp, i.
Qed.

Lemma writable_calm p acts s s' : writable p s → calm acts s s' → writable p s'.
Proof. intros W (e & _). eapply writable_eff; [done..|set_solver]. Qed.

Lemma appendFileSync_ok p data s :
  writable p s →
  ∃ s', appendFileSync p data s = (Ok tt, s') ∧
        fs_call p (Append p data) s s' ∧ writable p s' ∧
        is_Some (fs s' !! p).
Proof.
  intros [Hd Hc].
  destruct (appendFileSync p data s) as [r s'] eqn:E.
  pose proof E as E'. apply appendFileSync_spec in E' as (C & _ & g).
  assert (r = Ok tt) as ->.
  { unfold appendFileSync in E. rewrite bind_fresh, bind_emit, no_error in E.
    rewrite bind_gets in E. simpl in E.
    destruct (fs s !! p) as [[old|]|]; unfold modify in E; by simplify_eq. }
  exists s'. split_and!; [done..| |by rewrite (g eq_refl)].
  destruct C as (_ & _ & c & _). split; [by rewrite (g eq_refl)|by rewrite c].
Qed.

Lemma writable_fs_call p q act s s' :
  writable p s → fs_call q act s s' → p ≠ q → writable p s'.
Proof.
  intros [Hd Hc] (_ & _ & c & _ & _ & f) Hne. split; [by rewrite f|by rewrite c].
Qed.

Lemma external_ok act s :
  is_console act = false →
  ∃ s', external act s = (Ok (world (tick s)), s') ∧ suspended act s s'.
Proof.
  intros Ha. destruct (external act s) as [r s'] eqn:E.
  apply external_spec in E as [Hs Hr]; [|done].
  rewrite no_error in Hr. subst r. eauto.
Qed.

Lemma launch_ok s this :
  browserManager s = Some this →
  ∃ s' acts, BrowserManager_launch s = (Ok tt, s') ∧ calm acts s s' ∧
             session_up s'.
Proof.
  intros Hb. unfold BrowserManager_launch, this_browserManager.
  rewrite bind_assoc, bind_gets, Hb, bind_ret, bind_gets.
  destruct (external_ok (Launch (tick s)) s eq_refl) as (s1 & E1 & S1).
  rewrite (bind_eq _ _ _ _ _ E1), bind_modify.
  destruct (external_ok (Pages (tick s))
    (set_browserManager (Some {| browser := Some (tick s); page := page this |}) s1)
    eq_refl) as (s2 & E2 & S2).
  rewrite (bind_eq _ _ _ _ _ E2), bind_modify.
  rewrite bool_decide_eq_true_2 by apply some_page.
  eexists _, _. split; [reflexivity|]. split.
  - eapply calm_trans; [|apply calm_set_browserManager].
    eapply calm_trans; [|exact (suspended_calm _ _ _ S2)].
    eapply calm_trans; [exact (suspended_calm _ _ _ S1)|].
    apply calm_set_browserManager.
  - by eexists _, _.
Qed.

Lemma going_calm L H acts s s' :
  going L H s → calm acts s s' → browserManager s' = browserManager s →
  going L H s'.
Proof.
  intros [gl gh gs gv] C w. pose proof C as (_ & _ & v). split.
  - by eapply writable_calm.
  - by eapply writable_calm.
  - unfold session_up. by rewrite w.
  - by rewrite v.
Qed.

Lemma going_suspended L H act s s' :
  going L H s → suspended act s s' → going L H s'.
Proof.
  intros G S. eapply going_calm; [done|by apply suspended_calm|].
  by destruct S as (_ & _ & _ & _ & w).
Qed.

Lemma page_goto_ok L H url s :
  going L H s → ∃ s', page_goto url s = (Ok tt, s') ∧ going L H s'.
Proof.
  intros G. destruct (g_session _ _ _ G) as (b & pg & Hb).
  unfold page_goto, this_browserManager.
  rewrite bind_assoc, bind_gets, Hb, bind_ret. simpl.
  destruct (external_ok (Goto url) s eq_refl) as (s1 & E1 & S1).
  rewrite (bind_eq _ _ _ _ _ E1). eexists. split; [reflexivity|].
  by eapply going_suspended.
Qed.

Lemma awaiting_ok L H ms s :
  going L H s → ∃ s', awaiting ms s = (Ok tt, s') ∧ going L H s'.
Proof.
  intros G. destruct (awaiting_spec ms s) as (s' & E & S). exists s'.
  split; [done|]. by eapply going_suspended.
Qed.

(** Appending an entry, the clock having been read. *)
Lemma stamp_ok L H line s :
  going L H s → L ≠ H →
  ∃ s', appendFileSync L line (set_tick (S (tick s)) s) = (Ok tt, s') ∧
        going L H s'.
Proof.
  intros [gl gh gs gv] Hne.
  destruct (appendFileSync_ok L line (set_tick (S (tick s)) s))
    as (s' & E & C & W & _); [done|].
  exists s'. split; [done|]. pose proof C as (_ & _ & _ & v & w & _).
  split; [done| |by unfold session_up; rewrite w|by rewrite v].
  eapply writable_fs_call; [|exact C|done]. done.
Qed.

Ltac read_clock :=
  unfold currentUnix at 1; rewrite bind_assoc, bind_fresh, bind_ret.

Lemma visit_ok this L H originTime channel s :
  going L H s → L ≠ H →
  ∃ s', visit this L originTime channel s = (Ok tt, s') ∧ going L H s'.
Proof.
  intros G Hne. unfold visit.
  destruct (page_goto_ok L H (link channel) s G) as (s1 & E1 & G1).
  rewrite (bind_eq _ _ _ _ _ E1). read_clock.
  edestruct (stamp_ok L H) as (s2 & E2 & G2); [exact G1|done|].
  rewrite (bind_eq _ _ _ _ _ E2).
  destruct (awaiting_ok L H (watchAwait this) s2 G2) as (s3 & E3 & G3).
  rewrite (bind_eq _ _ _ _ _ E3). read_clock.
  edestruct (stamp_ok L H) as (s4 & E4 & G4); [exact G3|done|].
  rewrite (bind_eq _ _ _ _ _ E4).
  destruct (page_goto_ok L H (config_homepage config) s4 G4) as (s5 & E5 & G5).
  rewrite (bind_eq _ _ _ _ _ E5).
  apply awaiting_ok. done.
Qed.

Lemma channels_ok this L H originTime channels s :
  going L H s → L ≠ H →
  ∃ s', for_each channels (visit this L originTime) s = (Ok tt, s') ∧
        going L H s'.
Proof.
  intros G Hne. revert s G.
  induction channels as [|c channels IH]; intros s G; simpl.
  - by exists s.
  - destruct (visit_ok this L H originTime c s G Hne) as (s1 & E1 & G1).
    rewrite (bind_eq _ _ _ _ _ E1). by apply IH.
Qed.

Lemma Har_stop_ok L H s :
  going L H s → L ≠ H →
  ∃ s', Har_stop {| har_path := H |} s = (Ok tt, s') ∧ going L H s'.
Proof.
  intros G Hne. unfold Har_stop. simpl. rewrite bind_fresh, bind_emit.
  destruct (turn_after_emit (world (tick s)) (HarStop H) s eq_refl)
    as (s1 & E & S).
  rewrite (bind_eq _ _ _ _ _ E), no_error.
  destruct (going_suspended _ _ _ _ _ G S) as [[gl glc] [gh ghc] gs gv].
  destruct (a_written (world (tick s))) as [data|].
  - rewrite bind_assoc, bind_gets.
    destruct (fs s1 !! H) as [[old|]|] eqn:EH; [|done|];
      rewrite bind_modify; (eexists; split; [reflexivity|]);
      (split; [split|split|..]; simpl; try done;
       by rewrite ?lookup_insert_eq, ?lookup_insert_ne).
  - rewrite bind_ret. by exists s1.
Qed.

Lemma close_ok L H s :
  going L H s → ∃ s', BrowserManager_close s = (Ok tt, s') ∧ going L H s'.
Proof.
  intros G. destruct (g_session _ _ _ G) as (b & pg & Hb).
  destruct (BrowserManager_close s) as [r s'] eqn:E. exists s'.
  apply BrowserManager_close_spec in E as (acts & C & _ & w & F).
  rewrite Hb in F. simpl in F. rewrite no_error in F.
  destruct F as (_ & _ & ->). split; [done|]. by eapply going_calm.
Qed.

Lemma stop_ok L H signal s :
  going L H s → ∃ s', Sniffer_stop signal s = (Ok tt, s') ∧ going L H s'.
Proof.
  intros G. destruct (Sniffer_stop signal s) as [r s'] eqn:E. exists s'.
  apply Sniffer_stop_spec in E as (acts & C & _ & w & _ & _ & Hr).
  rewrite (Hr (g_sniffer _ _ _ G)). split; [done|]. by eapply going_calm.
Qed.

(** When no call fails, a run reaches its end, whether or not the capture
    process could be started. *)
Lemma run_try_ok this number s :
  writable (logBotFile (outputDir this) number) s →
  writable (logHarFile (outputDir this) number) s →
  ∃ s', run_try this number s = (Ok tt, s') ∧
        is_Some (fs s' !! logBotFile (outputDir this) number).
Proof.
  set (L := logBotFile (outputDir this) number).
  set (H := logHarFile (outputDir this) number).
  assert (L ≠ H) as Hne by apply logBot_ne_logHar.
  intros WL WH. unfold run_try. fold L H.
  destruct (appendFileSync_ok L header s WL) as (s1 & E1 & C1 & WL1 & _).
  rewrite (bind_eq _ _ _ _ _ E1).
  pose proof (writable_fs_call _ _ _ _ _ WH C1 (not_eq_sym Hne)) as WH1.
  read_clock.
  destruct (appendFileSync_ok L
    (entry_line "origin" (a_now (world (tick s1))) 0)
    (set_tick (S (tick s1)) s1) WL1) as (s2 & E2 & C2 & WL2 & _).
  rewrite (bind_eq _ _ _ _ _ E2).
  assert (writable H s2) as WH2.
  { eapply writable_fs_call; [|exact C2|by apply not_eq_sym]. exact WH1. }
  rewrite bind_modify.
  destruct (Sniffer_start_eff
    (set_sniffer (Some (new_Sniffer (logNetFile (outputDir this) number))) s2)
    _ eq_refl) as (s3 & act & E3 & e3 & _ & _ & w3 & v3).
  rewrite (bind_eq _ _ _ _ _ E3).
  assert (writable L s3 ∧ writable H s3) as [WL3 WH3].
  { split; (eapply writable_eff; [|exact e3|]); try done; simpl;
      intros Hin%list_elem_of_singleton;
      [exact (logBot_ne_logNet _ _ _ Hin)
      |exact (logNet_ne_logHar _ _ _ (eq_sym Hin))]. }
  read_clock.
  destruct (appendFileSync_ok L
    (entry_line "sniffer-on" (a_now (world (tick s3)))
       (a_now (world (tick s3)) - a_now (world (tick s1))))
    (set_tick (S (tick s3)) s3) WL3) as (s4 & E4 & C4 & WL4 & _).
  rewrite (bind_eq _ _ _ _ _ E4).
  assert (writable H s4) as WH4.
  { eapply writable_fs_call; [|exact C4|by apply not_eq_sym]. exact WH3. }
  rewrite bind_modify.
  destruct (launch_ok (set_browserManager (Some new_BrowserManager) s4) _ eq_refl)
    as (s5 & acts5 & E5 & C5 & U5).
  rewrite (bind_eq _ _ _ _ _ E5).
  assert (going L H s5) as G5.
  { split; [eapply writable_calm; [|exact C5]; exact WL4
           |eapply writable_calm; [|exact C5]; exact WH4|done|].
    destruct C5 as (_ & _ & ->). simpl.
    destruct C4 as (_ & _ & _ & -> & _). simpl. rewrite v3. eauto. }
  read_clock.
  edestruct (stamp_ok L H) as (s6 & E6 & G6); [exact G5|done|].
  rewrite (bind_eq _ _ _ _ _ E6).
  destruct (awaiting_ok L H (fastAwait this) s6 G6) as (s7 & E7 & G7).
  rewrite (bind_eq _ _ _ _ _ E7).
  unfold BrowserManager_startHarLogging.
  destruct (external_ok (HarStart H) s7 eq_refl) as (s8 & E8 & S8).
  rewrite bind_assoc, (bind_eq _ _ _ _ _ E8), bind_ret.
  pose proof (going_suspended _ _ _ _ _ G7 S8) as G8.
  destruct (page_goto_ok L H (config_homepage config) s8 G8) as (s9 & E9 & G9).
  rewrite (bind_eq _ _ _ _ _ E9).
  destruct (awaiting_ok L H (longAwait this) s9 G9) as (s10 & E10 & G10).
  rewrite (bind_eq _ _ _ _ _ E10).
  destruct (channels_ok this L H (a_now (world (tick s1)))
              (config_channels config) s10 G10 Hne) as (s11 & E11 & G11).
  rewrite (bind_eq _ _ _ _ _ E11).
  destruct (Har_stop_ok L H s11 G11 Hne) as (s12 & E12 & G12).
  rewrite (bind_eq _ _ _ _ _ E12).
  destruct (close_ok L H s12 G12) as (s13 & E13 & G13).
  rewrite (bind_eq _ _ _ _ _ E13).
  read_clock.
  edestruct (stamp_ok L H) as (s14 & E14 & G14); [exact G13|done|].
  rewrite (bind_eq _ _ _ _ _ E14).
  destruct (awaiting_ok L H (longAwait this * 2) s14 G14) as (s15 & E15 & G15).
  rewrite (bind_eq _ _ _ _ _ E15).
  destruct (stop_ok L H None s15 G15) as (s16 & E16 & G16).
  rewrite (bind_eq _ _ _ _ _ E16).
  read_clock.
  destruct (appendFileSync_ok L
    (entry_line "sniffer-off" (a_now (world (tick s16)))
       (a_now (world (tick s16)) - a_now (world (tick s1))))
    (set_tick (S (tick s16)) s16)) as (s17 & E17 & _ & _ & Hex).
  { by destruct G16. }
  eauto.
Qed.

End NoFailure.

(** C5 (amended). When the capture binary is missing, the start error is
    reported asynchronously: starting the capture returns normally and
    changes no file, and the listener prints the error on the next
    suspension of the script.  The run is not aborted by it: when no other
    call fails, the run reaches its end and its event log is kept. *)
Theorem missing_binary_does_not_abort this number s :
  (∀ k, a_pid (world k) = None) →
  (∀ k, a_error (world k) = None) →
  (∀ k, (0 < a_pages (world k))%nat) →
  writable (logBotFile (outputDir this) number) s →
  writable (logHarFile (outputDir this) number) s →
  (∃ s', run_try this number s = (Ok tt, s') ∧
         is_Some (fs s' !! logBotFile (outputDir this) number)) ∧
  (∀ s0 capture, sniffer s0 = Some capture →
     ∃ s1, Sniffer_start s0 = (Ok tt, s1) ∧ fs s1 = fs s0 ∧
       ∀ a, ∃ s2, turn a s1 = (Ok tt, s2) ∧
         ConsoleError ("[" +:+ a_dateString (world (S (tick s0)))
                       +:+ "] Error starting tshark process: "
                       +:+ a_spawnError (world (tick s0))) ∈ trace s2).
Proof.
  intros Hpid Herr Hpages WL WH. split; [by apply run_try_ok|].
  intros s0 capture Hs.
  destruct (Sniffer_start_spec s0 capture Hs)
    as (s1 & p & E & Hp & _ & _ & _ & _ & Hpe & Hl & Hf & _).
  exists s1. split_and!; [done..|]. intros a.
  rewrite Hpid in Hpe.
  apply (turn_reports a s1 (length (procs s0)) p _ _ [OnStartExit]);
    [|done..].
  rewrite Hp. by apply list_lookup_middle.
Qed.

(** * Further properties of the script *)

(** ** What lasts through an operation, however it ends *)

(** [lasting R m]: whether [m] returns, throws or ends the process, the
    states before and after it are related by [R]. *)
Definition lasting {A} (R : St → St → Prop) (m : M A) : Prop :=
  ∀ s r s', m s = (r, s') → R s s'.

(** A relation that allows what most of the script does: time passes, an
    effect other than a signal is recorded, the file system changes, a child
    process changes without being marked as killed and without getting
    another capture file. *)
Record lenient (R : St → St → Prop) : Prop := {
  le_refl : ∀ s, R s s;
  le_trans : ∀ s1 s2 s3, R s1 s2 → R s2 s3 → R s1 s3;
  le_tick : ∀ n s, R s (set_tick n s);
  le_trace : ∀ e s, (∀ c sg sent, e ≠ Kill c sg sent) →
               R s (set_trace (trace s ++ [e]) s);
  le_fs : ∀ m s, R s (set_fs m s);
  le_procs : ∀ f h s,
    (∀ p, killed (f p) = killed p) →
    (∀ p, capture_file (f p) = capture_file p) →
    R s (set_procs (alter f h (procs s)) s)
}.

(** No child process is lost or marked as killed. *)
Definition unharmed (s s' : St) : Prop :=
  ∀ h p, procs s !! h = Some p →
    ∃ p', procs s' !! h = Some p' ∧ killed p' = killed p.

(** No child process is lost or marked as killed, and the capture object is
    the one it was. *)
Definition spared (s s' : St) : Prop :=
  unharmed s s' ∧ sniffer s' = sniffer s.

(** Moreover the session object is the one it was. *)
Definition settled (s s' : St) : Prop :=
  spared s s' ∧ browserManager s' = browserManager s.

(** The actions apart from the lines appended to the event log. *)
Definition control (acts : list Effect) : list Effect :=
  List.filter (λ e, match e with Append _ _ => false | _ => true end) acts.

(** An action that appends to no file but [L]. *)
Definition appends_to (L : string) (e : Effect) : Prop :=
  ∀ p d, e = Append p d → p = L.

(** [did L a0 cs s]: since the actions [a0], the script has taken the
    actions [cs] and appended lines to [L]. *)
Definition did (L : string) (a0 cs : list Effect) (s : St) : Prop :=
  ∃ acts, actions (trace s) = a0 ++ acts ∧ control acts = cs ∧
          Forall (appends_to L) acts.

Section Lasting.

Variable R : St → St → Prop.
Hypothesis HR : lenient R.

Lemma lasting_ret {A} (a : A) : lasting R (ret a).
Proof. intros s r s' [= <- <-]. apply HR. Qed.

Lemma lasting_throw {A} e : lasting R (throw (A := A) e).
Proof. intros s r s' [= <- <-]. apply HR. Qed.

Lemma lasting_gets {A} (f : St → A) : lasting R (gets f).
Proof. intros s r s' [= <- <-]. apply HR. Qed.

Lemma lasting_bind {A B} (m : M A) (f : A → M B) :
  lasting R m → (∀ a, lasting R (f a)) → lasting R (bind m f).
Proof.
  intros Hm Hf s r s' E. apply bind_inv in E
    as [(a & s1 & E1 & E2)|[(e & E1 & _)|(c & E1 & _)]].
  - eapply le_trans; [exact HR|by eapply Hm|by eapply Hf].
  - by eapply Hm.
  - by eapply Hm.
Qed.

Lemma lasting_for_each {A} (l : list A) (body : A → M unit) :
  (∀ x, lasting R (body x)) → lasting R (for_each l body).
Proof.
  intros Hb. induction l as [|x l IH]; simpl.
  - apply lasting_ret.
  - apply lasting_bind; [apply Hb|intros _; exact IH].
Qed.

Lemma lasting_when b (m : M unit) : lasting R m → lasting R (when b m).
Proof. intros Hm. destruct b; [exact Hm|apply lasting_ret]. Qed.

Lemma lasting_try_catch {A} (body : M A) handler :
  lasting R body → (∀ e, lasting R (handler e)) →
  lasting R (try_catch body handler).
Proof.
  intros Hb Hh s r s' E. unfold try_catch in E.
  destruct (body s) as [[a|e|c] s1] eqn:E1.
  - simplify_eq. by eapply Hb.
  - eapply le_trans; [exact HR|by eapply Hb|by eapply Hh].
  - simplify_eq. by eapply Hb.
Qed.

Lemma lasting_fresh : lasting R fresh.
Proof. intros s r s' [= <- <-]. apply HR. Qed.

Lemma lasting_emit e :
  (∀ c sg sent, e ≠ Kill c sg sent) → lasting R (emit e).
Proof. intros He s r s' [= <- <-]. by apply HR. Qed.

Lemma lasting_set_fs (g : St → gmap string Node) :
  lasting R (modify (λ s, set_fs (g s) s)).
Proof. intros s r s' [= <- <-]. apply HR. Qed.

Lemma lasting_update_proc h f :
  (∀ p, killed (f p) = killed p) →
  (∀ p, capture_file (f p) = capture_file p) →
  lasting R (update_proc h f).
Proof. intros Hk Hc s r s' [= <- <-]. by apply HR. Qed.

Lemma lasting_proc_write (p : Proc) data :
  lasting R (modify (λ s,
    match fs s !! capture_file p with
    | Some Dir => s
    | Some (File old) =>
        set_fs (<[capture_file p := File (old +:+ data)]> (fs s)) s
    | None => set_fs (<[capture_file p := File data]> (fs s)) s
    end)).
Proof.
  intros s r s' [= <- <-].
  destruct (fs s !! capture_file p) as [[old|]|]; apply HR.
Qed.

End Lasting.

(** One step of a proof that something lasts. *)
Ltac last_step HR :=
  first
    [ apply (lasting_ret _ HR)
    | apply (lasting_throw _ HR)
    | apply (lasting_gets _ HR)
    | apply (lasting_fresh _ HR)
    | apply (lasting_emit _ HR); done
    | apply (lasting_set_fs _ HR)
    | apply (lasting_proc_write _ HR)
    | apply (lasting_update_proc _ HR); intros []; reflexivity
    | apply (lasting_when _ HR)
    | apply (lasting_for_each _ HR); intros ?
    | apply (lasting_bind _ HR); [|intros ?]
    | match goal with
      | |- lasting _ (match ?x with _ => _ end) => destruct x
      | |- lasting _ (if ?x then _ else _) => destruct x
      end ].

Section Lenient.

Variable R : St → St → Prop.
Hypothesis HR : lenient R.

Lemma lasting_currentTime : lasting R currentTime.
Proof. unfold currentTime. repeat last_step HR. Qed.

Lemma lasting_currentUnix : lasting R currentUnix.
Proof. unfold currentUnix. repeat last_step HR. Qed.

Lemma lasting_on_error message l : lasting R (on_error message l).
Proof. unfold on_error, console_error. repeat last_step HR. Qed.

Lemma lasting_on_exit code signal l : lasting R (on_exit code signal l).
Proof.
  unfold on_exit, console_log, console_error.
  destruct l; [apply (lasting_ret _ HR)|..];
    (apply (lasting_bind _ HR); [apply lasting_currentTime|intros ?]);
    repeat last_step HR.
Qed.

Lemma lasting_flush_error h : lasting R (flush_error h).
Proof.
  unfold flush_error.
  apply (lasting_bind _ HR); [apply (lasting_gets _ HR)|intros [p|]].
  - destruct (pendingError p).
    + apply (lasting_bind _ HR).
      * apply (lasting_update_proc _ HR); by intros [].
      * intros _. apply (lasting_for_each _ HR). intros l.
        apply lasting_on_error.
    + apply (lasting_ret _ HR).
  - apply (lasting_ret _ HR).
Qed.

Lemma lasting_proc_event hev : lasting R (proc_event hev).
Proof.
  unfold proc_event. destruct hev as [h ev]. simpl.
  apply (lasting_bind _ HR); [apply (lasting_gets _ HR)|intros [p|]].
  - destruct (running p); [|apply (lasting_ret _ HR)].
    destruct ev as [code signal|data].
    + apply (lasting_bind _ HR).
      * apply (lasting_update_proc _ HR); by intros [].
      * intros _. apply (lasting_for_each _ HR). intros l.
        apply lasting_on_exit.
    + apply (lasting_proc_write _ HR).
  - apply (lasting_ret _ HR).
Qed.

Lemma lasting_turn a : lasting R (turn a).
Proof.
  unfold turn.
  apply (lasting_bind _ HR); [apply (lasting_gets _ HR)|intros n].
  apply (lasting_bind _ HR).
  - apply (lasting_for_each _ HR). intros h. apply lasting_flush_error.
  - intros _. apply (lasting_for_each _ HR). intros hev.
    apply lasting_proc_event.
Qed.

Lemma lasting_external e :
  (∀ c sg sent, e ≠ Kill c sg sent) → lasting R (external e).
Proof.
  intros He. unfold external.
  apply (lasting_bind _ HR); [apply (lasting_fresh _ HR)|intros a].
  apply (lasting_bind _ HR); [by apply (lasting_emit _ HR)|intros _].
  apply (lasting_bind _ HR); [apply lasting_turn|intros _].
  repeat last_step HR.
Qed.

Lemma lasting_awaiting ms : lasting R (awaiting ms).
Proof.
  unfold awaiting.
  apply (lasting_bind _ HR); [apply (lasting_fresh _ HR)|intros a].
  apply (lasting_bind _ HR); [by apply (lasting_emit _ HR)|intros _].
  apply lasting_turn.
Qed.

Lemma lasting_existsSync path : lasting R (existsSync path).
Proof. apply (lasting_gets _ HR). Qed.

Lemma lasting_appendFileSync path data : lasting R (appendFileSync path data).
Proof. unfold appendFileSync. repeat last_step HR. Qed.

Lemma lasting_unlinkSync path : lasting R (unlinkSync path).
Proof. unfold unlinkSync. repeat last_step HR. Qed.

Lemma lasting_mkdirSync path : lasting R (mkdirSync path).
Proof. unfold mkdirSync. repeat last_step HR. Qed.

Lemma lasting_cleanFiles files : lasting R (cleanFiles files).
Proof.
  unfold cleanFiles. apply (lasting_for_each _ HR). intros file.
  apply (lasting_bind _ HR); [apply lasting_existsSync|intros present].
  apply (lasting_when _ HR), lasting_unlinkSync.
Qed.

Lemma lasting_makeOutputDir : lasting R makeOutputDir.
Proof.
  unfold makeOutputDir.
  apply (lasting_bind _ HR); [apply (lasting_fresh _ HR)|intros a].
  cbv zeta.
  apply (lasting_bind _ HR); [apply lasting_existsSync|intros present].
  apply (lasting_bind _ HR);
    [apply (lasting_when _ HR), lasting_mkdirSync|intros _].
  apply (lasting_ret _ HR).
Qed.

Lemma lasting_this_browserManager : lasting R this_browserManager.
Proof. unfold this_browserManager. repeat last_step HR. Qed.

Lemma lasting_close : lasting R BrowserManager_close.
Proof.
  unfold BrowserManager_close.
  apply (lasting_bind _ HR); [apply lasting_this_browserManager|intros this].
  destruct (browser this); [|apply (lasting_ret _ HR)].
  apply (lasting_bind _ HR); [by apply lasting_external|intros _].
  apply (lasting_ret _ HR).
Qed.

Lemma lasting_page_goto url : lasting R (page_goto url).
Proof.
  unfold page_goto.
  apply (lasting_bind _ HR); [apply lasting_this_browserManager|intros this].
  destruct (page this); [|apply (lasting_throw _ HR)].
  apply (lasting_bind _ HR); [by apply lasting_external|intros _].
  apply (lasting_ret _ HR).
Qed.

Lemma lasting_startHarLogging path :
  lasting R (BrowserManager_startHarLogging path).
Proof.
  unfold BrowserManager_startHarLogging.
  apply (lasting_bind _ HR); [by apply lasting_external|intros _].
  apply (lasting_ret _ HR).
Qed.

Lemma lasting_Har_stop har : lasting R (Har_stop har).
Proof.
  unfold Har_stop.
  apply (lasting_bind _ HR); [apply (lasting_fresh _ HR)|intros a].
  apply (lasting_bind _ HR); [by apply (lasting_emit _ HR)|intros _].
  apply (lasting_bind _ HR); [apply lasting_turn|intros _].
  repeat last_step HR.
Qed.

Lemma lasting_visit this logBot originTime channel :
  lasting R (visit this logBot originTime channel).
Proof.
  unfold visit.
  repeat first
    [ apply lasting_page_goto | apply lasting_currentUnix
    | apply lasting_appendFileSync | apply lasting_awaiting
    | apply (lasting_bind _ HR); [|intros ?] ].
Qed.

(** [launch] also assigns to the fields of the session object. *)
Lemma lasting_launch :
  (∀ x s, R s (set_browserManager x s)) → lasting R BrowserManager_launch.
Proof.
  intros Hb.
  assert (∀ x, lasting R (modify (set_browserManager x))) as Hset.
  { intros x s r s' [= <- <-]. apply Hb. }
  unfold BrowserManager_launch.
  apply (lasting_bind _ HR); [apply lasting_this_browserManager|intros this].
  apply (lasting_bind _ HR); [apply (lasting_gets _ HR)|intros b].
  apply (lasting_bind _ HR); [by apply lasting_external|intros _].
  apply (lasting_bind _ HR); [apply Hset|intros _].
  apply (lasting_bind _ HR); [by apply lasting_external|intros pages].
  cbv zeta.
  apply (lasting_bind _ HR); [apply Hset|intros _].
  destruct (bool_decide (0 < a_pages pages)%nat).
  - apply (lasting_ret _ HR).
  - apply (lasting_bind _ HR); [by apply lasting_external|intros _].
    apply (lasting_throw _ HR).
Qed.

End Lenient.

Lemma lenient_grown : lenient grown.
Proof.
  split.
  - intros s. reflexivity.
  - intros s1 s2 s3 H1 H2. by etrans.
  - intros n s. by apply grown_same.
  - intros e s _. by exists [e].
  - intros m s. by apply grown_same.
  - intros f h s _ _. by apply grown_same.
Qed.

Lemma unharmed_refl s : unharmed s s.
Proof. intros h p Hp. eauto. Qed.

Lemma unharmed_trans s1 s2 s3 :
  unharmed s1 s2 → unharmed s2 s3 → unharmed s1 s3.
Proof.
  intros H1 H2 h p Hp.
  destruct (H1 _ _ Hp) as (p1 & Hp1 & k1).
  destruct (H2 _ _ Hp1) as (p2 & Hp2 & k2).
  exists p2. split; [done|congruence].
Qed.

Lemma unharmed_same s s' : procs s' = procs s → unharmed s s'.
Proof. intros E h p Hp. rewrite E. eauto. Qed.

Lemma unharmed_alter f h s :
  (∀ p, killed (f p) = killed p) →
  unharmed s (set_procs (alter f h (procs s)) s).
Proof.
  intros Hf h' p Hp. simpl.
  destruct (decide (h = h')) as [->|Hne].
  - exists (f p). rewrite list_lookup_alter_eq, Hp. by split.
  - exists p. by rewrite list_lookup_alter_ne.
Qed.

Lemma lenient_spared : lenient spared.
Proof.
  split.
  - intros s. split; [apply unharmed_refl|done].
  - intros s1 s2 s3 [H1 E1] [H2 E2]. split; [by eapply unharmed_trans|congruence].
  - intros n s. split; [by apply unharmed_same|done].
  - intros e s _. split; [by apply unharmed_same|done].
  - intros m s. split; [by apply unharmed_same|done].
  - intros f h s Hf _. split; [by apply unharmed_alter|done].
Qed.

Lemma lenient_settled : lenient settled.
Proof.
  pose proof lenient_spared as HS.
  split.
  - intros s. split; [apply HS|done].
  - intros s1 s2 s3 [H1 E1] [H2 E2].
    split; [by eapply (le_trans _ HS)|congruence].
  - intros n s. split; [apply HS|done].
  - intros e s He. split; [by apply HS|done].
  - intros m s. split; [apply HS|done].
  - intros f h s Hk Hc. split; [by apply HS|done].
Qed.

(** ** The actions of each step that returns *)

Lemma control_app a1 a2 : control (a1 ++ a2) = control a1 ++ control a2.
Proof. unfold control. apply List.filter_app. Qed.

Lemma did_start L s : did L (actions (trace s)) [] s.
Proof. exists []. by rewrite app_nil_r. Qed.

Lemma did_step L a0 cs acts s s' :
  did L a0 cs s →
  actions (trace s') = actions (trace s) ++ acts →
  Forall (appends_to L) acts →
  did L a0 (cs ++ control acts) s'.
Proof.
  intros (acts0 & Ha & Hc & Hl) E Hacts. exists (acts0 ++ acts).
  rewrite E, Ha, control_app, Hc, app_assoc. split_and!; [done|done|].
  by apply Forall_app.
Qed.

(** The actions listed append to no file but [L]. *)
Ltac to_log :=
  repeat first
    [ apply Forall_nil_2
    | apply Forall_cons_2; [intros ? ? ?; by simplify_eq|] ].

Ltac did_next D step D' :=
  pose proof (did_step _ _ _ _ _ _ D step) as D';
  let H := fresh in
  match type of D' with
  | ?P → _ => assert P as H by to_log; specialize (D' H); clear H
  end.

Lemma append_acts path data s r s' :
  appendFileSync path data s = (r, s') →
  actions (trace s') = actions (trace s) ++ [Append path data].
Proof. intros E. by apply appendFileSync_spec in E as (([] & _) & _). Qed.

Lemma currentUnix_acts s t s' :
  currentUnix s = (Ok t, s') → actions (trace s') = actions (trace s) ++ [].
Proof.
  unfold currentUnix. rewrite bind_fresh. intros [= _ <-]. simpl.
  by rewrite app_nil_r.
Qed.

Lemma awaiting_acts ms s r s' :
  awaiting ms s = (r, s') →
  actions (trace s') = actions (trace s) ++ [Wait ms].
Proof.
  intros E. destruct (awaiting_spec ms s) as (s1 & E1 & [] & _).
  rewrite E1 in E. by simplify_eq.
Qed.

Lemma startHarLogging_acts path s r s' :
  BrowserManager_startHarLogging path s = (r, s') →
  actions (trace s') = actions (trace s) ++ [HarStart path].
Proof.
  intros E.
  by apply BrowserManager_startHarLogging_spec in E as (([] & _) & _).
Qed.

Lemma Har_stop_acts har s r s' :
  Har_stop har s = (r, s') →
  actions (trace s') = actions (trace s) ++ [HarStop (har_path har)].
Proof. intros E. by apply Har_stop_spec in E as ([] & _). Qed.

Lemma suspended_acts act s s' :
  suspended act s s' → actions (trace s') = actions (trace s) ++ [act].
Proof. by intros ([] & _). Qed.

Lemma page_goto_acts url s s' :
  page_goto url s = (Ok tt, s') →
  actions (trace s') = actions (trace s) ++ [Goto url].
Proof.
  unfold page_goto, this_browserManager. rewrite bind_assoc, bind_gets.
  destruct (browserManager s) as [this|]; [|by rewrite bind_throw].
  rewrite bind_ret. destruct (page this); [|done].
  intros E. apply bind_external in E as (s1 & S1 & E); [|done].
  destruct (a_error (world (tick s))); [by destruct E|].
  unfold ret in E. simplify_eq. by apply suspended_acts.
Qed.

(** [launch] returns only with a browser and a page. *)
Lemma launch_acts s s' :
  BrowserManager_launch s = (Ok tt, s') →
  actions (trace s') = actions (trace s) ++ [Launch (tick s); Pages (tick s)] ∧
  ∃ pg, browserManager s'
        = Some {| browser := Some (tick s); page := Some pg |}.
Proof.
  unfold BrowserManager_launch, this_browserManager.
  rewrite bind_assoc, bind_gets.
  destruct (browserManager s) as [this|]; [|by rewrite bind_throw].
  rewrite bind_ret, bind_gets. intros E.
  apply bind_external in E as (s1 & S1 & E); [|done].
  destruct (a_error (world (tick s))); [by destruct E|].
  rewrite bind_modify in E.
  apply bind_external in E as (s2 & S2 & E); [|done].
  apply suspended_acts in S1, S2. simpl in S2.
  match type of E with
  | match ?x with _ => _ end => destruct x; [by destruct E|]
  end.
  cbv zeta in E. rewrite bind_modify in E.
  match type of E with
  | context [bool_decide ?P] => destruct (bool_decide P)
  end.
  - unfold ret in E. simplify_eq. simpl. split; [|by eauto].
    by rewrite S2, S1, <-app_assoc.
  - apply bind_external in E as (s3 & _ & E); [|done].
    match type of E with
    | match ?x with _ => _ end => destruct x; [by destruct E|done]
    end.
Qed.

Lemma close_acts manager b s s' :
  BrowserManager_close s = (Ok tt, s') →
  browserManager s = Some manager → browser manager = Some b →
  actions (trace s') = actions (trace s) ++ [BrowserClose b].
Proof.
  intros E Hm Hb.
  apply BrowserManager_close_spec in E as (acts & ([] & _) & _ & _ & H).
  rewrite Hm, Hb in H. by destruct H as (-> & _).
Qed.

(** [stop] on a capture process that is not marked as killed. *)
Lemma stop_acts signal this child p s r s' :
  Sniffer_stop signal s = (r, s') →
  sniffer s = Some this → snifferProcess this = Some child →
  procs s !! child = Some p → killed p = false →
  r = Ok tt ∧
  trace s' = trace s ++
    [ConsoleLog ("[" +:+ a_dateString (world (tick s))
                 +:+ "] Stopping tshark process with PID: "
                 +:+ render_pid (pid p));
     Kill child (default SIGTERM signal)
          (running p && a_delivered (world (S (tick s))))] ∧
  fs s' = fs s ∧
  procs s' = <[child := add_listener OnStopExit
                 (if running p && a_delivered (world (S (tick s)))
                  then mark_killed p else p)]> (procs s).
Proof.
  rewrite Sniffer_stop_unfold. intros E Hs Hc Hp Hk.
  rewrite Hs, Hc, Hp, Hk in E. cbv zeta in E. by simplify_eq.
Qed.

(** ** What a successful run does, apart from writing its log *)

Lemma did_visit this L originTime a0 cs channel s s' :
  visit this L originTime channel s = (Ok tt, s') →
  did L a0 cs s →
  did L a0 (cs ++ [Goto (link channel); Wait (watchAwait this);
                   Goto (config_homepage config); Wait (fastAwait this)]) s'.
Proof.
  intros H D. unfold visit in H.
  apply bind_Ok in H as ([] & s1 & E1 & H).
  did_next D (page_goto_acts _ _ _ E1) D1.
  apply bind_Ok in H as (t1 & s2 & E2 & H).
  did_next D1 (currentUnix_acts _ _ _ E2) D2.
  apply bind_Ok in H as ([] & s3 & E3 & H).
  did_next D2 (append_acts _ _ _ _ _ E3) D3.
  apply bind_Ok in H as ([] & s4 & E4 & H).
  did_next D3 (awaiting_acts _ _ _ _ E4) D4.
  apply bind_Ok in H as (t2 & s5 & E5 & H).
  did_next D4 (currentUnix_acts _ _ _ E5) D5.
  apply bind_Ok in H as ([] & s6 & E6 & H).
  did_next D5 (append_acts _ _ _ _ _ E6) D6.
  apply bind_Ok in H as ([] & s7 & E7 & H).
  did_next D6 (page_goto_acts _ _ _ E7) D7.
  did_next D7 (awaiting_acts _ _ _ _ H) D8.
  simpl in D8. by rewrite !app_nil_r, <-!app_assoc in D8.
Qed.

Lemma did_channels this L originTime a0 channels cs s s' :
  for_each channels (visit this L originTime) s = (Ok tt, s') →
  did L a0 cs s →
  did L a0 (cs ++ flat_map (λ c, [Goto (link c); Wait (watchAwait this);
                                  Goto (config_homepage config);
                                  Wait (fastAwait this)]) channels) s'.
Proof.
  revert cs s. induction channels as [|c channels IH]; intros cs s H D.
  - unfold for_each, ret in H. simplify_eq. by rewrite app_nil_r.
  - simpl in H. apply bind_Ok in H as ([] & s1 & E & H).
    apply (did_visit _ _ _ _ _ _ _ _ E) in D.
    apply (IH _ _ H) in D. simpl. by rewrite <-!app_assoc in D.
Qed.

Lemma spared_set_browserManager x s : spared s (set_browserManager x s).
Proof. split; [by apply unharmed_same|done]. Qed.

Ltac go_on HS SP step :=
  let N := fresh in
  pose proof (le_trans _ HS _ _ _ SP step) as N; clear SP; rename N into SP.

(** X1. Apart from the lines it appends to its event log, a run that
    reaches its end takes exactly these actions, in this order: it spawns
    the capture with the command line [bin -i net -s max -w <capture file>],
    launches the browser and asks for its pages, waits the short interval,
    starts the traffic log, opens the homepage and waits the long interval;
    for each channel in turn it opens the channel's link, waits the watch
    interval, opens the homepage again and waits the short interval; then it
    stops the traffic log, closes the browser it launched, waits twice the
    long interval and sends one SIGTERM to the capture process it spawned.
    It appends to no file but its event log. *)
Theorem script_of_successful_run this number s s' :
  run_try this number s = (Ok tt, s') →
  ∃ b sent acts,
    actions (trace s') = actions (trace s) ++ acts ∧
    Forall (appends_to (logBotFile (outputDir this) number)) acts ∧
    control acts =
      [Spawn (sniffer_bin (config_sniffer config))
             ["-i"; sniffer_net (config_sniffer config); "-s";
              sniffer_max (config_sniffer config); "-w";
              logNetFile (outputDir this) number]
             (length (procs s));
       Launch b; Pages b; Wait (fastAwait this);
       HarStart (logHarFile (outputDir this) number);
       Goto (config_homepage config); Wait (longAwait this)] ++
      flat_map (λ c, [Goto (link c); Wait (watchAwait this);
                      Goto (config_homepage config); Wait (fastAwait this)])
               (config_channels config) ++
      [HarStop (logHarFile (outputDir this) number); BrowserClose b;
       Wait (longAwait this * 2);
       Kill (length (procs s)) SIGTERM sent].
Proof.
  intros H. unfold run_try in H.
  set (L := logBotFile (outputDir this) number) in *.
  set (N := logNetFile (outputDir this) number) in *.
  set (A := logHarFile (outputDir this) number) in *.
  pose proof lenient_spared as HS. pose proof lenient_settled as HT.
  pose proof (did_start L s) as D.
  apply bind_Ok in H as ([] & s1 & E1 & H).
  did_next D (append_acts _ _ _ _ _ E1) D1.
  apply bind_Ok in H as (t0 & s2 & E2 & H).
  did_next D1 (currentUnix_acts _ _ _ E2) D2.
  apply bind_Ok in H as ([] & s3 & E3 & H).
  did_next D2 (append_acts _ _ _ _ _ E3) D3.
  assert (length (procs s3) = length (procs s)) as Hlen.
  { apply appendFileSync_spec in E1 as ((_ & _ & c1 & _) & _).
    apply appendFileSync_spec in E3 as ((_ & _ & c3 & _) & _).
    unfold currentUnix in E2. rewrite bind_fresh in E2. unfold ret in E2.
    simplify_eq. unfold captures in *. simpl in *.
    apply (f_equal length) in c1, c3. rewrite !length_fmap in *. congruence. }
  clear E1 E2 E3 D D1 D2.
  rewrite bind_modify in H.
  destruct (Sniffer_start_spec (set_sniffer (Some (new_Sniffer N)) s3)
              _ eq_refl)
    as (s4 & p & E4 & Hprocs & _ & _ & Hk & _ & _ & _ & _ & _ & Htr & Hsn & _).
  rewrite (bind_eq _ _ _ _ _ E4) in H. simpl in Hprocs, Htr, Hsn.
  assert (actions (trace s4) = actions (trace s3) ++
            [Spawn (sniffer_bin (config_sniffer config))
               ["-i"; sniffer_net (config_sniffer config); "-s";
                sniffer_max (config_sniffer config); "-w"; N]
               (length (procs s3))]) as A4.
  { by rewrite Htr, actions_app. }
  did_next D3 A4 D4.
  assert (procs s4 !! length (procs s3) = Some p) as Hp.
  { by rewrite Hprocs, lookup_app_r, Nat.sub_diag. }
  pose proof (le_refl _ HS s4) as SP.
  clear E4 Htr A4 D3 Hprocs.
  apply bind_Ok in H as (t5 & s5 & E5 & H).
  did_next D4 (currentUnix_acts _ _ _ E5) D5.
  go_on HS SP (lasting_currentUnix _ HS _ _ _ E5).
  apply bind_Ok in H as ([] & s6 & E6 & H).
  did_next D5 (append_acts _ _ _ _ _ E6) D6.
  go_on HS SP (lasting_appendFileSync _ HS _ _ _ _ _ E6).
  rewrite bind_modify in H.
  go_on HS SP (spared_set_browserManager (Some new_BrowserManager) s6).
  apply bind_Ok in H as ([] & s8 & E8 & H).
  destruct (launch_acts _ _ E8) as (A8 & pg & Hb). simpl in A8, Hb.
  did_next D6 A8 D8.
  go_on HS SP (lasting_launch _ HS spared_set_browserManager _ _ _ E8).
  pose proof (le_refl _ HT s8) as ST.
  clear E5 E6 E8 A8 D4 D5 D6.
  apply bind_Ok in H as (t9 & s9 & E9 & H).
  did_next D8 (currentUnix_acts _ _ _ E9) D9.
  go_on HT ST (lasting_currentUnix _ HT _ _ _ E9).
  apply bind_Ok in H as ([] & s10 & E10 & H).
  did_next D9 (append_acts _ _ _ _ _ E10) D10.
  go_on HT ST (lasting_appendFileSync _ HT _ _ _ _ _ E10).
  apply bind_Ok in H as ([] & s11 & E11 & H).
  did_next D10 (awaiting_acts _ _ _ _ E11) D11.
  go_on HT ST (lasting_awaiting _ HT _ _ _ _ E11).
  apply bind_Ok in H as (har & s12 & E12 & H).
  did_next D11 (startHarLogging_acts _ _ _ _ E12) D12.
  go_on HT ST (lasting_startHarLogging _ HT _ _ _ _ E12).
  apply BrowserManager_startHarLogging_spec in E12 as (_ & _ & Hhar).
  specialize (Hhar _ eq_refl).
  clear E9 E10 E11 D8 D9 D10 D11.
  apply bind_Ok in H as ([] & s13 & E13 & H).
  did_next D12 (page_goto_acts _ _ _ E13) D13.
  go_on HT ST (lasting_page_goto _ HT _ _ _ _ E13).
  apply bind_Ok in H as ([] & s14 & E14 & H).
  did_next D13 (awaiting_acts _ _ _ _ E14) D14.
  go_on HT ST (lasting_awaiting _ HT _ _ _ _ E14).
  apply bind_Ok in H as ([] & s15 & E15 & H).
  pose proof (did_channels _ _ _ _ _ _ _ _ E15 D14) as D15.
  go_on HT ST (lasting_for_each _ HT _ _
                 (lasting_visit _ HT _ _ _) _ _ _ E15).
  apply bind_Ok in H as ([] & s16 & E16 & H).
  did_next D15 (Har_stop_acts _ _ _ _ E16) D16. rewrite Hhar in D16.
  go_on HT ST (lasting_Har_stop _ HT _ _ _ _ E16).
  clear E13 E14 E15 E16 D12 D13 D14 D15.
  apply bind_Ok in H as ([] & s17 & E17 & H).
  assert (browserManager s16
          = Some {| browser := Some (tick s6); page := Some pg |}) as Hb16.
  { destruct ST as [_ ->]. exact Hb. }
  did_next D16 (close_acts _ _ _ _ E17 Hb16 eq_refl) D17.
  go_on HT ST (lasting_close _ HT _ _ _ E17).
  apply bind_Ok in H as (t18 & s18 & E18 & H).
  did_next D17 (currentUnix_acts _ _ _ E18) D18.
  go_on HT ST (lasting_currentUnix _ HT _ _ _ E18).
  apply bind_Ok in H as ([] & s19 & E19 & H).
  did_next D18 (append_acts _ _ _ _ _ E19) D19.
  go_on HT ST (lasting_appendFileSync _ HT _ _ _ _ _ E19).
  apply bind_Ok in H as ([] & s20 & E20 & H).
  did_next D19 (awaiting_acts _ _ _ _ E20) D20.
  go_on HT ST (lasting_awaiting _ HT _ _ _ _ E20).
  clear E17 E18 E19 E20 D16 D17 D18 D19.
  go_on HS SP (proj1 ST).
  destruct SP as [Hun Hsn20]. rewrite Hsn in Hsn20.
  destruct (Hun _ _ Hp) as (p' & Hp' & Hk'). rewrite Hk in Hk'.
  apply bind_Ok in H as ([] & s21 & E21 & H).
  destruct (stop_acts _ _ _ _ _ _ _ E21 Hsn20 eq_refl Hp' Hk')
    as (_ & Htr21 & _).
  assert (actions (trace s21) = actions (trace s20) ++
            [Kill (length (procs s3)) SIGTERM
               (running p' && a_delivered (world (S (tick s20))))]) as A21.
  { by rewrite Htr21, actions_app. }
  did_next D20 A21 D21.
  apply bind_Ok in H as (t22 & s22 & E22 & H).
  did_next D21 (currentUnix_acts _ _ _ E22) D22.
  did_next D22 (append_acts _ _ _ _ _ H) D23.
  destruct D23 as (acts & Hacts & Hc & Hl).
  exists (tick s6), (running p' && a_delivered (world (S (tick s20)))), acts.
  split_and!; [done|done|].
  rewrite Hc, Hlen. simpl. rewrite !app_nil_r, <-!app_assoc. done.
Qed.

(** ** [Utils.cleanFiles] and [Utils.makeOutputDir] *)

Lemma cleanFiles_cons file files s :
  cleanFiles (file :: files) s
  = (when (bool_decide (is_Some (fs s !! file))) (unlinkSync file)
     >> cleanFiles files) s.
Proof.
  unfold cleanFiles. cbn [for_each]. unfold existsSync.
  by rewrite bind_assoc, bind_gets.
Qed.

Lemma cleanFiles_absent files s :
  Forall (λ file, fs s !! file = None) files →
  cleanFiles files s = (Ok tt, s).
Proof.
  induction 1 as [|file files Hf _ IH]; [done|].
  rewrite cleanFiles_cons, Hf.
  rewrite bool_decide_eq_false_2 by (by intros [? ?]).
  exact IH.
Qed.

(** X2. [cleanFiles] is idempotent: after a call that returned, a second
    call with the same paths returns at once, without any action and
    without changing anything. *)
Theorem cleanFiles_twice files s s1 :
  cleanFiles files s = (Ok tt, s1) →
  cleanFiles files s1 = (Ok tt, s1).
Proof.
  intros E. apply cleanFiles_absent.
  apply cleanFiles_spec in E as (acts & _ & _ & _ & _ & _ & _ & _ & Hgone).
  by apply Hgone.
Qed.

(** X3. A call of [cleanFiles] that returns, given paths without
    repetition, has unlinked exactly the paths at which something existed,
    in the order given, and nothing else: afterwards none of the paths
    exists, every other path is as it was, and no child process was
    touched. *)
Theorem cleanFiles_removes_what_exists files s s' :
  NoDup files →
  cleanFiles files s = (Ok tt, s') →
  trace s' = trace s ++
    (Unlink <$> List.filter (λ file, bool_decide (is_Some (fs s !! file)))
                            files) ∧
  (∀ file, file ∈ files → fs s' !! file = None) ∧
  (∀ q, q ∉ files → fs s' !! q = fs s !! q) ∧
  procs s' = procs s.
Proof.
  intros Hnd. revert s.
  induction Hnd as [|file files Hnotin Hnd IH]; intros s E.
  - unfold cleanFiles, for_each, ret in E. simplify_eq. simpl.
    rewrite app_nil_r. split_and!; [done| |done|done].
    intros file []%elem_of_nil.
  - rewrite cleanFiles_cons in E.
    apply bind_Ok in E as ([] & s1 & E1 & E).
    destruct (IH _ E) as (Htr & Hgone & Hrest & Hprocs).
    assert (fs s1 !! file = None ∧
            (∀ q, q ≠ file → fs s1 !! q = fs s !! q) ∧
            procs s1 = procs s ∧
            trace s1 = trace s ++
              (if bool_decide (is_Some (fs s !! file))
               then [Unlink file] else [])) as (Hf & Hq & Hp & Ht).
    { destruct (fs s !! file) as [node|] eqn:Hnode.
      - rewrite bool_decide_eq_true_2 in E1 |- * by eauto. simpl in E1.
        unfold unlinkSync in E1. rewrite bind_fresh, bind_emit in E1.
        destruct (a_error (world (tick s))); [done|].
        rewrite bind_gets in E1. simpl in E1. rewrite Hnode in E1.
        destruct node; [|done]. unfold modify in E1. simplify_eq. simpl.
        split_and!; [by rewrite lookup_delete_eq| |done|done].
        intros q Hne. by rewrite lookup_delete_ne.
      - rewrite bool_decide_eq_false_2 in E1 |- * by (by intros [? ?]).
        simpl in E1. unfold ret in E1. simplify_eq.
        by rewrite app_nil_r. }
    split_and!.
    + rewrite Htr, Ht. cbn [List.filter].
      assert (List.filter (λ f, bool_decide (is_Some (fs s1 !! f))) files
              = List.filter (λ f, bool_decide (is_Some (fs s !! f))) files)
        as ->.
      { apply List.filter_ext_in. intros f Hin. rewrite Hq; [done|].
        intros ->. by apply Hnotin, list_elem_of_In. }
      destruct (bool_decide (is_Some (fs s !! file))); simpl.
      * by rewrite <-app_assoc.
      * by rewrite app_nil_r.
    + intros f [->|Hin]%elem_of_cons; [|by apply Hgone].
      rewrite Hrest; done.
    + intros q Hq'. apply not_elem_of_cons in Hq' as [Hne Hq'].
      rewrite Hrest by done. by apply Hq.
    + congruence.
Qed.

(** X4. [cleanFiles] tests for existence only, and [unlinkSync] removes
    files only: when one of its paths is a directory and the paths before
    it do not exist, the call throws at the directory, having changed no
    file, and the paths after it are not looked at. *)
Theorem cleanFiles_stops_at_directory before d rest s :
  Forall (λ file, fs s !! file = None) before →
  fs s !! d = Some Dir →
  ∃ e,
    cleanFiles (before ++ d :: rest) s
    = (Throw e,
       {| tick := S (tick s); fs := fs s; procs := procs s;
          sniffer := sniffer s; browserManager := browserManager s;
          trace := trace s ++ [Unlink d] |}).
Proof.
  intros Hb Hd. unfold cleanFiles. rewrite for_each_app.
  fold (cleanFiles before). rewrite (bind_eq _ _ _ _ _ (cleanFiles_absent _ _ Hb)).
  fold (cleanFiles (d :: rest)). rewrite cleanFiles_cons, Hd.
  rewrite bool_decide_eq_true_2 by eauto. simpl.
  unfold unlinkSync. rewrite bind_assoc, bind_fresh, bind_assoc, bind_emit.
  destruct (a_error (world (tick s))) as [e|].
  - exists e. by rewrite bind_throw.
  - exists "EISDIR: illegal operation on a directory".
    rewrite bind_assoc, bind_gets. simpl. rewrite Hd. by rewrite bind_throw.
Qed.

(** X5. [makeOutputDir] names the directory [<dirname>/<date>_<time>] after
    the moment of the call.  When anything exists at that path, be it a
    directory or a file, it creates nothing and returns the path; otherwise
    it creates the directory, and fails only if [mkdirSync] does. *)
Theorem makeOutputDir_reuses_what_exists s :
  let dir := path_join dirname (a_isoDate (world (tick s)) +:+ "_"
                                +:+ a_clockTime (world (tick s))) in
  (is_Some (fs s !! dir) →
     makeOutputDir s = (Ok dir, set_tick (S (tick s)) s)) ∧
  (fs s !! dir = None →
     makeOutputDir s =
       match a_error (world (S (tick s))) with
       | Some e =>
           (Throw e,
            {| tick := S (S (tick s)); fs := fs s; procs := procs s;
               sniffer := sniffer s; browserManager := browserManager s;
               trace := trace s ++ [Mkdir dir] |})
       | None =>
           (Ok dir,
            {| tick := S (S (tick s)); fs := <[dir := Dir]> (fs s);
               procs := procs s;
               sniffer := sniffer s; browserManager := browserManager s;
               trace := trace s ++ [Mkdir dir] |})
       end).
Proof.
  intros dir. unfold makeOutputDir. rewrite bind_fresh. cbv zeta.
  fold dir. unfold existsSync. rewrite bind_gets. simpl.
  split.
  - intros Hd. by rewrite bool_decide_eq_true_2.
  - intros Hd. rewrite Hd.
    rewrite bool_decide_eq_false_2 by (by intros [? ?]). simpl.
    unfold mkdirSync. rewrite !bind_assoc, bind_fresh, bind_assoc, bind_emit.
    simpl. destruct (a_error (world (S (tick s)))) as [e|].
    + by rewrite bind_throw.
    + rewrite bind_assoc, bind_gets. simpl. by rewrite Hd.
Qed.

(** ** [Sniffer] *)

(** X6. [start] does not look at [this.snifferProcess]: started a second
    time, the capture object spawns a second process writing to the same
    file and forgets the first one, which is still running and which a
    following [stop] leaves as it is, without a signal. *)
Theorem second_start_leaks_first s this :
  sniffer s = Some this →
  ∃ s1 s2 p1 p2,
    Sniffer_start s = (Ok tt, s1) ∧ Sniffer_start s1 = (Ok tt, s2) ∧
    procs s2 = procs s ++ [p1; p2] ∧
    capture_file p1 = outputPath this ∧ capture_file p2 = outputPath this ∧
    killed p1 = false ∧ exited p1 = false ∧
    sniffer s2 = Some {| outputPath := outputPath this;
                         snifferProcess := Some (S (length (procs s))) |} ∧
    ∀ signal r s3, Sniffer_stop signal s2 = (r, s3) →
      procs s3 !! length (procs s) = Some p1 ∧
      ∀ sg sent, Kill (length (procs s)) sg sent ∉ drop (length (trace s2)) (trace s3).
Proof.
  intros Hs.
  destruct (Sniffer_start_spec s this Hs)
    as (s1 & p1 & E1 & Hp1 & Hc1 & _ & Hk1 & Hx1 & _ & _ & _ & _ & _ & Hs1 & _).
  destruct (Sniffer_start_spec s1 _ Hs1)
    as (s2 & p2 & E2 & Hp2 & Hc2 & _ & Hk2 & _ & _ & _ & _ & _ & _ & Hs2 & _).
  simpl in Hc2, Hs2.
  exists s1, s2, p1, p2. split_and!; try done.
  - by rewrite Hp2, Hp1, <-app_assoc.
  - rewrite Hs2, Hp1, length_app. simpl. do 3 f_equal. lia.
  - intros signal r s3 E.
    assert (procs s2 !! length (procs s) = Some p1) as Hl1.
    { rewrite Hp2, Hp1, <-app_assoc. by rewrite lookup_app_r, Nat.sub_diag. }
    assert (procs s2 !! length (procs s1) = Some p2) as Hl2.
    { by rewrite Hp2, lookup_app_r, Nat.sub_diag. }
    assert (length (procs s1) = S (length (procs s))) as Hlen.
    { rewrite Hp1, length_app. simpl. lia. }
    destruct (stop_acts _ _ _ _ _ _ _ E Hs2 eq_refl Hl2 Hk2)
      as (_ & Htr & _ & Hprocs).
    split.
    + rewrite Hprocs, list_lookup_insert_ne by lia. done.
    + intros sg sent. rewrite Htr, drop_app_length.
      intros Hin. apply elem_of_cons in Hin as [Hin|Hin]; [done|].
      apply list_elem_of_singleton in Hin. simplify_eq. lia.
Qed.

(** X7. [stop] looks at the [killed] flag only, which [kill] sets when the
    signal got through.  On a child that is not running (it could not be
    spawned, or it has exited by itself) every call of [stop] announces the
    stop with the pid ([undefined] when there is none), delivers no signal,
    raises nothing and registers one more exit listener; the flag stays
    unset, so the next call does the same again. *)
Theorem stop_without_running_process signal this child p s :
  sniffer s = Some this → snifferProcess this = Some child →
  procs s !! child = Some p → killed p = false → running p = false →
  render_pid None = "undefined" ∧
  ∃ s1 s2,
    Sniffer_stop signal s = (Ok tt, s1) ∧
    Sniffer_stop signal s1 = (Ok tt, s2) ∧
    trace s1 = trace s ++
      [ConsoleLog ("[" +:+ a_dateString (world (tick s))
                   +:+ "] Stopping tshark process with PID: "
                   +:+ render_pid (pid p));
       Kill child (default SIGTERM signal) false] ∧
    trace s2 = trace s1 ++
      [ConsoleLog ("[" +:+ a_dateString (world (tick s1))
                   +:+ "] Stopping tshark process with PID: "
                   +:+ render_pid (pid p));
       Kill child (default SIGTERM signal) false] ∧
    procs s2 !! child
      = Some (add_listener OnStopExit (add_listener OnStopExit p)).
Proof.
  intros Hs Hc Hp Hk Hr. split; [done|].
  destruct (Sniffer_stop signal s) as [r1 s1] eqn:E1.
  destruct (stop_acts _ _ _ _ _ _ _ E1 Hs Hc Hp Hk)
    as (-> & Htr1 & _ & Hprocs1).
  rewrite Hr in Htr1, Hprocs1. simpl in Htr1, Hprocs1.
  assert (sniffer s1 = Some this) as Hs1.
  { rewrite Sniffer_stop_unfold, Hs, Hc, Hp, Hk in E1. cbv zeta in E1.
    by simplify_eq. }
  assert (procs s1 !! child = Some (add_listener OnStopExit p)) as Hp1.
  { rewrite Hprocs1. apply list_lookup_insert_eq. by eapply lookup_lt_Some. }
  destruct (Sniffer_stop signal s1) as [r2 s2] eqn:E2.
  destruct (stop_acts _ _ _ _ _ _ _ E2 Hs1 Hc Hp1 Hk)
    as (-> & Htr2 & _ & Hprocs2).
  assert (running (add_listener OnStopExit p) = false) as Hr1 by exact Hr.
  rewrite Hr1 in Htr2, Hprocs2. simpl in Htr2, Hprocs2.
  exists s1, s2. split_and!; try done.
  rewrite Hprocs2. apply list_lookup_insert_eq. by eapply lookup_lt_Some.
Qed.

(** X8. A capture process that was started and then stopped carries both
    exit listeners.  When it ends by the signal (exit code [null]), the
    listener of [start] reports an error with code [null] on standard error,
    and then the listener of [stop] reports the signal on standard output;
    nothing else happens. *)
Theorem stopped_capture_is_reported_twice h p t sg s :
  procs s !! h = Some p → running p = true →
  listeners p = [OnStartError t; OnStartExit; OnStopExit] →
  proc_event (h, ProcExit None (Some sg)) s
  = (Ok tt,
     {| tick := S (S (tick s)); fs := fs s;
        procs := alter mark_exited h (procs s);
        sniffer := sniffer s; browserManager := browserManager s;
        trace := trace s ++
          [ConsoleError ("[" +:+ a_dateString (world (tick s))
                         +:+ "] Tshark process exited with error code: null");
           ConsoleLog ("[" +:+ a_dateString (world (S (tick s)))
                       +:+ "] Tshark process was stopped by signal: "
                       +:+ signal_name sg)] |}).
Proof.
  intros Hp Hr Hl. unfold proc_event. rewrite bind_gets. simpl.
  rewrite Hp, Hr. unfold update_proc. rewrite bind_modify, Hl.
  cbn [for_each on_exit]. rewrite bind_ret.
  unfold currentTime, console_error, console_log.
  rewrite !bind_assoc, bind_fresh, bind_ret. simpl.
  rewrite bind_emit, !bind_assoc, bind_fresh, bind_ret. simpl.
  rewrite bind_emit. simpl. by rewrite <-app_assoc.
Qed.

(** ** [BrowserManager] *)

(** X9. [close] never resets [this.browser]: on a manager that holds a
    browser, every call closes that browser again, whether or not the call
    before it failed. *)
Theorem close_twice_closes_twice manager b s r1 s1 r2 s2 :
  browserManager s = Some manager → browser manager = Some b →
  BrowserManager_close s = (r1, s1) →
  BrowserManager_close s1 = (r2, s2) →
  actions (trace s2) = actions (trace s) ++ [BrowserClose b; BrowserClose b].
Proof.
  intros Hm Hb E1 E2.
  apply BrowserManager_close_spec in E1 as (a1 & ([] & _) & _ & Hm1 & H1).
  apply BrowserManager_close_spec in E2 as (a2 & ([] & _) & _ & _ & H2).
  rewrite Hm1, Hm, Hb in H2. rewrite Hm, Hb in H1.
  destruct H1 as (-> & _). destruct H2 as (-> & _).
  rewrite eff_actions1, eff_actions0, <-app_assoc. done.
Qed.

(** X10. When the browser comes up without a page, [launch] closes it and
    throws ['No page available in the browser'], leaving the browser in
    [this.browser] and [null] in [this.page]: the [close] of the failure
    handler then closes the same browser a second time. *)
Theorem launch_without_page s this :
  browserManager s = Some this →
  (∀ k, a_error (world k) = None) →
  (∀ k, a_pages (world k) = 0%nat) →
  ∃ s1 s2,
    BrowserManager_launch s
      = (Throw "No page available in the browser", s1) ∧
    browserManager s1 = Some {| browser := Some (tick s); page := None |} ∧
    actions (trace s1) = actions (trace s) ++
      [Launch (tick s); Pages (tick s); BrowserClose (tick s)] ∧
    BrowserManager_close s1 = (Ok tt, s2) ∧
    actions (trace s2) = actions (trace s1) ++ [BrowserClose (tick s)].
Proof.
  intros Hm Hne Hnp.
  destruct (BrowserManager_launch s) as [r s1] eqn:E.
  pose proof E as E0.
  unfold BrowserManager_launch, this_browserManager in E.
  rewrite bind_assoc, bind_gets, Hm, bind_ret, bind_gets in E.
  apply bind_external in E as (sa & Sa & E); [|done].
  rewrite Hne, bind_modify in E.
  apply bind_external in E as (sb & Sb & E); [|done].
  rewrite Hne in E. cbv zeta in E. rewrite Hnp, bind_modify in E.
  rewrite bool_decide_eq_false_2 in E by lia.
  apply bind_external in E as (sc & Sc & E); [|done].
  rewrite Hne in E. unfold throw in E. simplify_eq.
  assert (browserManager s1
          = Some {| browser := Some (tick s); page := None |}) as Hm1.
  { by destruct Sc as (_ & _ & _ & _ & ->). }
  destruct (BrowserManager_close s1) as [r2 s2] eqn:E2.
  exists s1, s2.
  apply suspended_acts in Sa, Sb, Sc. simpl in Sb, Sc.
  pose proof E2 as E2'.
  apply BrowserManager_close_spec in E2' as (a2 & ([] & _) & _ & _ & H2).
  rewrite Hm1 in H2. simpl in H2. destruct H2 as (-> & _ & H2).
  rewrite Hne in H2. subst r2.
  split_and!; try done.
  by rewrite Sc, Sb, Sa, <-!app_assoc.
Qed.

(** X11. When [puppeteer.launch] itself fails, [this.browser] is still
    [null]: [launch] throws that error after the one call, and the [close]
    of the failure handler does nothing. *)
Theorem failed_launch_leaves_nothing_to_close s e :
  browserManager s = Some new_BrowserManager →
  a_error (world (tick s)) = Some e →
  ∃ s1,
    BrowserManager_launch s = (Throw e, s1) ∧
    actions (trace s1) = actions (trace s) ++ [Launch (tick s)] ∧
    browserManager s1 = Some new_BrowserManager ∧
    BrowserManager_close s1 = (Ok tt, s1).
Proof.
  intros Hm He.
  destruct (BrowserManager_launch s) as [r s1] eqn:E.
  unfold BrowserManager_launch, this_browserManager in E.
  rewrite bind_assoc, bind_gets, Hm, bind_ret, bind_gets in E.
  apply bind_external in E as (sa & Sa & E); [|done].
  rewrite He in E. destruct E as [-> ->].
  assert (browserManager sa = Some new_BrowserManager) as Hm1.
  { destruct Sa as (_ & _ & _ & _ & ->). exact Hm. }
  exists sa. split_and!; [done|by apply suspended_acts|done|].
  unfold BrowserManager_close, this_browserManager.
  by rewrite bind_assoc, bind_gets, Hm1, bind_ret.
Qed.

(** ** The failure handler *)

Lemma grown_Sniffer_stop signal : lasting grown (Sniffer_stop signal).
Proof.
  intros s r s' E. rewrite Sniffer_stop_unfold in E.
  repeat case_match; cbv zeta in E; simplify_eq; try reflexivity.
  eexists. reflexivity.
Qed.

Lemma grown_run_catch_tail this number :
  lasting grown
    (let* manager := gets browserManager in
     when (bool_decide (is_Some manager)) BrowserManager_close >>
     cleanFiles (artifacts (outputDir this) number) >>
     let* capture := gets sniffer in
     when (bool_decide (is_Some capture)) (Sniffer_stop None)).
Proof.
  pose proof lenient_grown as HG.
  apply (lasting_bind _ HG); [apply (lasting_gets _ HG)|intros manager].
  apply (lasting_bind _ HG);
    [apply (lasting_when _ HG), (lasting_close _ HG)|intros _].
  apply (lasting_bind _ HG); [apply (lasting_cleanFiles _ HG)|intros _].
  apply (lasting_bind _ HG); [apply (lasting_gets _ HG)|intros capture].
  apply (lasting_when _ HG), grown_Sniffer_stop.
Qed.

(** X12. Whatever made the [try] block fail, the failure handler first
    prints [Error during experiment <n>: <message>] on standard error, with
    the repetition counted from 1, before it does anything else and
    whatever becomes of its cleanup. *)
Theorem failure_is_reported_first this number message s r s' :
  run_catch this number message s = (r, s') →
  ∃ more,
    trace s' = trace s ++
      ConsoleError ("Error during experiment " +:+ pretty (number + 1)%nat
                    +:+ ": " +:+ message) :: more.
Proof.
  unfold run_catch. cbv zeta. unfold console_error. rewrite bind_emit.
  intros E. apply grown_run_catch_tail in E as [more Hmore].
  exists more. simpl in Hmore. by rewrite Hmore, <-app_assoc.
Qed.

(** X13. When the handler returns and the capture object of the run holds
    a process that is not marked as killed, the last thing the handler has
    done is to send SIGTERM to that process. *)
Theorem handler_stops_the_capture this number message capture child p s s' :
  run_catch this number message s = (Ok tt, s') →
  sniffer s = Some capture → snifferProcess capture = Some child →
  procs s !! child = Some p → killed p = false →
  ∃ sent before, trace s' = before ++ [Kill child SIGTERM sent].
Proof.
  intros E Hs Hc Hp Hk. pose proof lenient_spared as HS.
  unfold run_catch in E. cbv zeta in E.
  unfold console_error in E. rewrite bind_emit, bind_gets in E.
  apply bind_Ok in E as ([] & s1 & E1 & E).
  apply (lasting_when _ HS _ _ (lasting_close _ HS)) in E1 as SP.
  apply bind_Ok in E as ([] & s2 & E2 & E).
  go_on HS SP (lasting_cleanFiles _ HS _ _ _ _ E2).
  destruct SP as [Hun Hs2]. simpl in Hun, Hs2.
  destruct (Hun _ _ Hp) as (p' & Hp' & Hk'). rewrite Hk in Hk'.
  rewrite Hs in Hs2.
  rewrite bind_gets, Hs2 in E. simpl in E.
  destruct (stop_acts _ _ _ _ _ _ _ E Hs2 Hc Hp' Hk') as (_ & Htr & _).
  eexists _, (trace s2 ++ [_]). rewrite Htr, <-app_assoc. reflexivity.
Qed.

Lemma bind_Throw {A B} (m : M A) (f : A → M B) s e s1 :
  m s = (Throw e, s1) → bind m f s = (Throw e, s1).
Proof. unfold bind. by intros ->. Qed.

(** X14. A repetition whose first write fails (the header of the event
    log cannot be appended) while none of its artifact files exists has
    started nothing: its handler reports the error and finds nothing to
    close or to stop.  When the file could not be opened there is nothing
    to remove either; when the error came at the writing, the file is
    there, and the handler removes it (provided that call does not fail in
    its turn).  Either way the repetition returns normally, leaving files
    and child processes as they were. *)
Theorem failure_before_capture this number s e :
  a_error (world (S (tick s))) = Some e →
  Forall (λ p, fs s !! p = None) (artifacts (outputDir this) number) →
  (is_Some (a_partial (world (S (tick s)))) →
   a_error (world (S (S (tick s)))) = None) →
  ∃ s',
    run_iteration this number s = (Ok tt, s') ∧
    fs s' = fs s ∧ procs s' = procs s ∧
    trace s' = trace s ++
      [ConsoleLog ("[" +:+ a_dateString (world (tick s))
                   +:+ "] Running experiment " +:+ pretty (number + 1)%nat);
       Append (logBotFile (outputDir this) number) header;
       ConsoleError ("Error during experiment " +:+ pretty (number + 1)%nat
                     +:+ ": " +:+ e)] ++
      match a_partial (world (S (tick s))) with
      | Some _ => [Unlink (logBotFile (outputDir this) number)]
      | None => []
      end.
Proof.
  intros He Habs Hun. rewrite run_iteration_unfold. unfold try_catch.
  pose proof Habs as Habs'. unfold artifacts in Habs'.
  apply Forall_cons in Habs' as [HN Habs'].
  apply Forall_cons in Habs' as [HL Habs'].
  apply Forall_cons in Habs' as [HH _].
  destruct (a_partial (world (S (tick s)))) as [n|] eqn:Hpart.
  - assert (∃ part, run_try this number (entered number s)
            = (Throw e,
               set_fs (<[logBotFile (outputDir this) number := File part]>
                         (fs s))
                 (set_trace (trace (entered number s) ++
                    [Append (logBotFile (outputDir this) number) header])
                    (set_tick (S (tick (entered number s)))
                       (entered number s)))))
      as [part ->].
    { exists (String.substring 0 n header).
      unfold run_try. cbv zeta. apply bind_Throw.
      unfold appendFileSync. rewrite bind_fresh, bind_emit.
      cbn [tick entered set_tick set_trace]. rewrite He, Hpart, bind_gets.
      cbn [fs entered set_tick set_trace]. by rewrite HL. }
    set (L := logBotFile (outputDir this) number) in *.
    unfold run_catch. cbv zeta. unfold console_error.
    rewrite bind_emit, bind_gets. simpl. rewrite bind_ret.
    match goal with
    | |- ∃ s', (cleanFiles ?fl >> _) ?st = _ ∧ _ => set (sa := st)
    end.
    assert (fs sa !! logNetFile (outputDir this) number = None) as HNa.
    { subst sa. simpl. rewrite lookup_insert_ne; [done|].
      apply logBot_ne_logNet. }
    assert (cleanFiles [logNetFile (outputDir this) number; L;
                        logHarFile (outputDir this) number] sa
            = (Ok tt,
               set_fs (fs s)
                 (set_trace (trace sa ++ [Unlink L])
                    (set_tick (S (tick sa)) sa)))) as Hclean.
    { rewrite cleanFiles_cons, HNa.
      rewrite bool_decide_eq_false_2 by (by intros [? ?]).
      cbn [when]. rewrite bind_ret, cleanFiles_cons.
      assert (fs sa !! L = Some (File part)) as HLa.
      { subst sa. simpl. by rewrite lookup_insert_eq. }
      rewrite HLa, bool_decide_eq_true_2 by eauto. cbn [when].
      unfold unlinkSync.
      rewrite !bind_assoc, bind_fresh, !bind_assoc, bind_emit.
      assert (a_error (world (tick sa)) = None) as -> by (apply Hun; eauto).
      rewrite !bind_assoc, bind_gets. simpl. rewrite lookup_insert_eq.
      rewrite bind_modify, cleanFiles_cons. simpl.
      rewrite delete_insert_id by done. rewrite HH.
      rewrite bool_decide_eq_false_2 by (by intros [? ?]). done. }
    rewrite (bind_eq _ _ _ _ _ Hclean), bind_gets. simpl.
    eexists. split; [reflexivity|]. simpl. by rewrite <-!app_assoc.
  - assert (run_try this number (entered number s)
            = (Throw e,
               set_trace (trace (entered number s) ++
                          [Append (logBotFile (outputDir this) number) header])
                 (set_tick (S (tick (entered number s))) (entered number s))))
      as ->.
    { unfold run_try. cbv zeta. apply bind_Throw.
      unfold appendFileSync. rewrite bind_fresh, bind_emit. simpl.
      by rewrite He, Hpart. }
    unfold run_catch. cbv zeta. unfold console_error.
    rewrite bind_emit, bind_gets. simpl. rewrite bind_ret.
    fold (artifacts (outputDir this) number).
    erewrite bind_eq; [|apply cleanFiles_absent; exact Habs].
    rewrite bind_gets. simpl.
    eexists. split; [reflexivity|]. simpl. by rewrite <-!app_assoc.
Qed.

(** ** A repetition and the capture processes *)

(** [own n0 s]: the child processes up to [n0] are there, and the capture
    object, if it holds a process, holds a later one. *)
Definition own (n0 : nat) (s : St) : Prop :=
  (n0 ≤ length (procs s))%nat ∧
  ∀ this child, sniffer s = Some this → snifferProcess this = Some child →
    (n0 ≤ child)%nat.

(** An effect that is no signal to a child process before [n0]. *)
Definition own_signal (n0 : nat) (e : Effect) : Prop :=
  ∀ c sg sent, e = Kill c sg sent → (n0 ≤ c)%nat.

(** From [s] to [s'] the trace has grown, by no signal to a child process
    before [n0], and the capture object holds none of them either. *)
Definition minding (n0 : nat) (s s' : St) : Prop :=
  own n0 s →
  own n0 s' ∧ ∃ more, trace s' = trace s ++ more ∧ Forall (own_signal n0) more.

Lemma minding_same n0 s s' :
  length (procs s') = length (procs s) → sniffer s' = sniffer s →
  trace s' = trace s →
  minding n0 s s'.
Proof.
  intros Hl Hs Ht [Hn Hc]. split.
  - split; [by rewrite Hl|by rewrite Hs].
  - exists []. by rewrite app_nil_r.
Qed.

Lemma lenient_minding n0 : lenient (minding n0).
Proof.
  split.
  - intros s. by apply minding_same.
  - intros s1 s2 s3 H12 H23 H1.
    destruct (H12 H1) as (H2 & m1 & E1 & F1).
    destruct (H23 H2) as (H3 & m2 & E2 & F2).
    split; [done|]. exists (m1 ++ m2).
    split; [by rewrite E2, E1, app_assoc|by apply Forall_app].
  - intros n s. by apply minding_same.
  - intros e s He [Hn Hc]. split; [by split|].
    exists [e]. split; [done|]. apply Forall_cons_2; [|done].
    intros c sg sent ->. by destruct (He c sg sent).
  - intros m s. by apply minding_same.
  - intros f h s _ _.
    apply minding_same; simpl; [apply length_alter|done|done].
Qed.

Lemma minding_modify_browserManager n0 x :
  lasting (minding n0) (modify (set_browserManager x)).
Proof. intros s r s' [= <- <-]. by apply minding_same. Qed.

Lemma minding_set_browserManager n0 x s :
  minding n0 s (set_browserManager x s).
Proof. by apply minding_same. Qed.

Lemma minding_new_Sniffer n0 path :
  lasting (minding n0) (modify (set_sniffer (Some (new_Sniffer path)))).
Proof.
  intros s r s' [= <- <-] [Hn Hc]. split.
  - split; [done|]. simpl. by intros this child [= <-].
  - exists []. by rewrite app_nil_r.
Qed.

Lemma minding_Sniffer_start n0 : lasting (minding n0) Sniffer_start.
Proof.
  intros s r s' E.
  destruct (sniffer s) as [this|] eqn:Hs.
  - intros [Hn Hc].
    destruct (Sniffer_start_spec s this Hs)
      as (s1 & p & E1 & Hp & _ & _ & _ & _ & _ & _ & _ & _ & Ht & Hs1 & _).
    rewrite E1 in E. simplify_eq. split.
    + split.
      * rewrite Hp, length_app. lia.
      * rewrite Hs1. intros this' child [= <-] [= <-]. done.
    + eexists. split; [exact Ht|]. apply Forall_cons_2; [|done].
      by intros c sg sent.
  - unfold Sniffer_start, this_sniffer in E.
    rewrite bind_assoc, bind_gets, Hs, bind_throw in E. simplify_eq.
    apply (le_refl _ (lenient_minding n0)).
Qed.

Lemma minding_Sniffer_stop n0 signal :
  lasting (minding n0) (Sniffer_stop signal).
Proof.
  pose proof (le_refl _ (lenient_minding n0)) as Hrefl.
  intros s r s' E. rewrite Sniffer_stop_unfold in E.
  destruct (sniffer s) as [this|] eqn:Hs; [|by simplify_eq].
  destruct (snifferProcess this) as [child|] eqn:Hch; [|by simplify_eq].
  destruct (procs s !! child) as [p|]; [|by simplify_eq].
  destruct (killed p); [by simplify_eq|].
  cbv zeta in E. simplify_eq. intros [Hn Hc]. split.
  - split; simpl; [by rewrite length_insert|by rewrite <-Hs].
  - eexists. split; [reflexivity|].
    apply Forall_cons_2; [by intros c sg sent|].
    apply Forall_cons_2; [|done].
    intros c sg sent [= <- _ _]. exact (Hc this child Hs Hch).
Qed.

Ltac mind HM :=
  repeat first
    [ apply (lasting_appendFileSync _ HM)
    | apply (lasting_currentUnix _ HM)
    | apply (lasting_currentTime _ HM)
    | apply (lasting_awaiting _ HM)
    | apply (lasting_launch _ HM); apply minding_set_browserManager
    | apply (lasting_page_goto _ HM)
    | apply (lasting_close _ HM)
    | apply (lasting_startHarLogging _ HM)
    | apply (lasting_Har_stop _ HM)
    | apply (lasting_cleanFiles _ HM)
    | apply (lasting_for_each _ HM); intros ?; apply (lasting_visit _ HM)
    | apply minding_Sniffer_start
    | apply minding_Sniffer_stop
    | apply minding_modify_browserManager
    | apply minding_new_Sniffer
    | apply (lasting_gets _ HM)
    | apply (lasting_when _ HM)
    | apply (lasting_emit _ HM); done
    | apply (lasting_bind _ HM); [|intros ?] ].

Lemma minding_run_try n0 this number :
  lasting (minding n0) (run_try this number).
Proof.
  pose proof (lenient_minding n0) as HM. unfold run_try. cbv zeta. mind HM.
Qed.

Lemma minding_run_catch n0 this number message :
  lasting (minding n0) (run_catch this number message).
Proof.
  pose proof (lenient_minding n0) as HM.
  unfold run_catch, console_error. cbv zeta. mind HM.
Qed.

(** X15. A repetition sends signals only to a capture process it has
    spawned itself: whatever its outcome, no signal it sends goes to a child
    process that existed when the repetition began, such as the capture of
    an earlier repetition. *)
Theorem repetition_signals_only_its_own_capture this number s r s' :
  run_iteration this number s = (r, s') →
  ∃ more,
    trace s' = trace s ++ more ∧
    ∀ c sg sent, Kill c sg sent ∈ more → (length (procs s) ≤ c)%nat.
Proof.
  rewrite run_iteration_unfold. intros E.
  pose proof (lenient_minding (length (procs s))) as HM.
  apply (lasting_try_catch _ HM _ _ (minding_run_try _ _ _)
           (minding_run_catch _ _ _)) in E.
  destruct E as (_ & more & Ht & Hf).
  { split; [done|]. by intros this' child. }
  simpl in Ht. eexists. split; [by rewrite Ht, <-app_assoc|].
  intros c sg sent [Hin|Hin]%elem_of_cons; [done|].
  rewrite Forall_forall in Hf. by eapply Hf.
Qed.

(** ** The failure handler, step by step *)












(** ** The capture files a failed run leaves *)














(** ** An execution in which no call fails *)

Definition same_captures (s s' : St) : Prop := captures s' = captures s.

Lemma lenient_same_captures : lenient same_captures.
Proof.
  split; unfold same_captures, captures; try done.
  - intros s1 s2 s3 H1 H2. congruence.
  - intros f h s _ Hc. simpl. by apply captures_alter.
Qed.

Lemma same_captures_run_rest this number originTime :
  lasting same_captures
    (let* snifferStartTime := currentUnix in
     appendFileSync (logBotFile (outputDir this) number)
       (entry_line "sniffer-on" snifferStartTime
                   (snifferStartTime - originTime)) >>
     modify (set_browserManager (Some new_BrowserManager)) >>
     BrowserManager_launch >>
     let* browserStartTime := currentUnix in
     appendFileSync (logBotFile (outputDir this) number)
       (entry_line "browser-on" browserStartTime
                   (browserStartTime - originTime)) >>
     awaiting (fastAwait this) >>
     let* harLogger := BrowserManager_startHarLogging
                         (logHarFile (outputDir this) number) in
     page_goto (config_homepage config) >>
     awaiting (longAwait this) >>
     for_each (config_channels config)
       (visit this (logBotFile (outputDir this) number) originTime) >>
     Har_stop harLogger >>
     BrowserManager_close >>
     let* browserStopTime := currentUnix in
     appendFileSync (logBotFile (outputDir this) number)
       (entry_line "browser-off" browserStopTime
                   (browserStopTime - originTime)) >>
     awaiting (longAwait this * 2) >>
     Sniffer_stop None >>
     let* snifferStopTime := currentUnix in
     appendFileSync (logBotFile (outputDir this) number)
       (entry_line "sniffer-off" snifferStopTime
                   (snifferStopTime - originTime))).
Proof.
  pose proof lenient_same_captures as HC.
  assert (∀ signal, lasting same_captures (Sniffer_stop signal)) as Hstop.
  { intros signal s r s' E.
    by apply Sniffer_stop_spec in E as (acts & (_ & ? & _) & _). }
  assert (∀ x, lasting same_captures (modify (set_browserManager x))) as Hbm.
  { by intros x s r s' [= <- <-]. }
  repeat first
    [ apply (lasting_appendFileSync _ HC)
    | apply (lasting_currentUnix _ HC)
    | apply (lasting_awaiting _ HC)
    | apply (lasting_launch _ HC); by intros ? ?
    | apply (lasting_page_goto _ HC)
    | apply (lasting_close _ HC)
    | apply (lasting_startHarLogging _ HC)
    | apply (lasting_Har_stop _ HC)
    | apply (lasting_for_each _ HC); intros ?; apply (lasting_visit _ HC)
    | apply Hstop
    | apply Hbm
    | apply (lasting_bind _ HC); [|intros ?] ].
Qed.

(** A run that reaches its end has added one child process, which writes
    the capture file of the run. *)
Lemma run_try_captures this number s s' :
  run_try this number s = (Ok tt, s') →
  captures s' = captures s ++ [logNetFile (outputDir this) number].
Proof.
  intros H. unfold run_try in H. cbv zeta in H.
  apply bind_Ok in H as ([] & s1 & E1 & H).
  apply bind_Ok in H as (t0 & s2 & E2 & H).
  apply bind_Ok in H as ([] & s3 & E3 & H).
  assert (captures s3 = captures s) as Hc3.
  { apply appendFileSync_spec in E1 as ((_ & _ & c1 & _) & _).
    apply appendFileSync_spec in E3 as ((_ & _ & c3 & _) & _).
    apply (lasting_currentUnix _ lenient_same_captures) in E2.
    unfold same_captures in E2. congruence. }
  rewrite bind_modify in H.
  destruct (Sniffer_start_spec
              (set_sniffer (Some (new_Sniffer (logNetFile (outputDir this) number))) s3)
              _ eq_refl)
    as (s4 & p & E4 & Hprocs & Hcap & _).
  rewrite (bind_eq _ _ _ _ _ E4) in H.
  apply same_captures_run_rest in H. unfold same_captures in H.
  rewrite H. unfold captures at 1. rewrite Hprocs, fmap_app. simpl.
  by rewrite Hcap, <-Hc3.
Qed.

Lemma path_join_longer dir file : path_join dir file ≠ dir.
Proof.
  unfold path_join. intros E. apply (f_equal String.length) in E.
  rewrite !string_length_app in E. simpl in E. lia.
Qed.

Section Undisturbed.

Hypothesis no_error : ∀ k, a_error (world k) = None.
Hypothesis some_page : ∀ k, (0 < a_pages (world k))%nat.

(** The event log of a complete run. *)
Definition complete_log (node : option Node) : Prop :=
  ∃ es, node = Some (File (header +:+ render es)) ∧
        event <$> es = log_events (config_channels config).

(** [between this n s]: the repetitions before [n] are done. *)
Record between (this : Experiment) (n : nat) (s : St) : Prop := {
  bt_captures : ∀ c, c ∈ captures s →
                  ∃ k, c = logNetFile (outputDir this) k;
  bt_done : ∀ k, (k < n)%nat →
              complete_log (fs s !! logBotFile (outputDir this) k);
  bt_ahead : ∀ k, (n ≤ k)%nat →
               fs s !! logBotFile (outputDir this) k = None ∧
               fs s !! logHarFile (outputDir this) k = None
}.

Lemma undisturbed_iteration this n s :
  between this n s →
  ∃ s', run_iteration this n s = (Ok tt, s') ∧ between this (S n) s'.
Proof.
  intros [Hcap Hdone Hahead].
  destruct (Hahead n (le_n _)) as [HL HH].
  assert (∀ k, logBotFile (outputDir this) k ∉ captures s) as HLc.
  { intros k [k' Hk']%Hcap. by apply logBot_ne_logNet in Hk'. }
  assert (∀ k, logHarFile (outputDir this) k ∉ captures s) as HHc.
  { intros k [k' Hk']%Hcap. symmetry in Hk'.
    by apply logNet_ne_logHar in Hk'. }
  destruct (run_try_ok no_error some_page this n (entered n s))
    as (s' & E & _).
  { split; [simpl; by rewrite HL|apply HLc]. }
  { split; [simpl; by rewrite HH|apply HHc]. }
  assert (run_iteration this n s = (Ok tt, s')) as Eit.
  { rewrite run_iteration_unfold. unfold try_catch. by rewrite E. }
  exists s'. split; [done|].
  destruct (run_iteration_spec _ _ _ _ _ Eit) as (_ & (acts & Heff & _) & _).
  pose proof (run_try_captures _ _ _ _ E) as Hcs.
  destruct (run_try_entries _ _ _ _ E HL (HLc n)) as (k0 & stamps & Hlog & Hev & _).
  assert (∀ k, k ≠ n →
            fs s' !! logBotFile (outputDir this) k
              = fs s !! logBotFile (outputDir this) k ∧
            fs s' !! logHarFile (outputDir this) k
              = fs s !! logHarFile (outputDir this) k) as Hframe.
  { intros k Hne. split; apply (eff_fs _ _ _ _ Heff); try done.
    - unfold artifacts. intros Hin.
      apply elem_of_cons in Hin as [Hin|Hin];
        [by apply logBot_ne_logNet in Hin|].
      apply elem_of_cons in Hin as [Hin|Hin];
        [by apply logBot_inj in Hin|].
      apply list_elem_of_singleton in Hin.
      by apply logBot_ne_logHar in Hin.
    - unfold artifacts. intros Hin.
      apply elem_of_cons in Hin as [Hin|Hin];
        [symmetry in Hin; by apply logNet_ne_logHar in Hin|].
      apply elem_of_cons in Hin as [Hin|Hin];
        [symmetry in Hin; by apply logBot_ne_logHar in Hin|].
      apply list_elem_of_singleton in Hin.
      by apply logHar_inj in Hin. }
  split.
  - intros c. rewrite Hcs. intros [Hin|Hin]%elem_of_app; [by apply Hcap|].
    apply list_elem_of_singleton in Hin. eauto.
  - intros k Hk. destruct (decide (k = n)) as [->|Hne].
    + eexists. split; [exact Hlog|]. by rewrite event_entry_at.
    + destruct (Hframe k Hne) as [-> _]. apply Hdone. lia.
  - intros k Hk. destruct (Hframe k ltac:(lia)) as [-> ->].
    apply Hahead. lia.
Qed.

Lemma undisturbed_loop this count n s :
  between this n s →
  ∃ s', for_each (seq n count) (run_iteration this) s = (Ok tt, s') ∧
        between this (n + count) s'.
Proof.
  revert n s. induction count as [|count IH]; intros n s Hb.
  - exists s. split; [done|]. by rewrite Nat.add_0_r.
  - destruct (undisturbed_iteration _ _ _ Hb) as (s1 & E1 & Hb1).
    destruct (IH _ _ Hb1) as (s' & E & Hb').
    exists s'. split.
    + simpl. by rewrite (bind_eq _ _ _ _ _ E1).
    + by rewrite Nat.add_succ_r.
Qed.

Lemma new_Experiment_ok s :
  ∃ this s',
    new_Experiment s = (Ok this, s') ∧
    outputDir this = path_join dirname (a_isoDate (world (tick s)) +:+ "_"
                                        +:+ a_clockTime (world (tick s))) ∧
    (∀ p, p ≠ outputDir this → fs s' !! p = fs s !! p) ∧
    captures s' = captures s.
Proof.
  destruct (new_Experiment s) as [r s'] eqn:E.
  destruct (new_Experiment_spec _ _ _ E)
    as (_ & dir & Hdir & _ & Hfs & Hc & Hok).
  assert (∃ this, r = Ok this) as [this ->].
  { unfold new_Experiment, makeOutputDir in E.
    rewrite !bind_assoc, bind_fresh in E. cbv zeta in E. rewrite <-Hdir in E.
    unfold existsSync in E. rewrite bind_assoc, bind_gets in E. simpl in E.
    destruct (fs s !! dir) as [node|] eqn:Hnode.
    - rewrite bool_decide_eq_true_2 in E by eauto. simpl in E.
      unfold bind, ret in E. simplify_eq. eauto.
    - rewrite bool_decide_eq_false_2 in E by (by intros [? ?]). simpl in E.
      unfold mkdirSync in E.
      rewrite !bind_assoc, bind_fresh, !bind_assoc, bind_emit in E.
      simpl in E. rewrite no_error in E.
      rewrite !bind_assoc, bind_gets in E. simpl in E. rewrite Hnode in E.
      unfold bind, modify, ret in E. simplify_eq. eauto. }
  destruct (Hok _ eq_refl) as [Hd _].
  exists this, s'. rewrite Hd. by split_and!.
Qed.

(** X16. When no call fails and the browser always comes up with a page,
    the whole script goes through: started without child processes, with
    the profile directory in place and with no event log or traffic log of
    its output directory existing yet, it returns normally, and afterwards
    the event log of every configured repetition exists and is complete
    (the header, then origin, sniffer-on, browser-on, the -on and -off of
    every channel, browser-off, sniffer-off): no repetition has disturbed
    the log of another. *)
Theorem undisturbed_execution s :
  is_Some (fs s !! path_join dirname "user_data") →
  procs s = [] →
  (∀ number,
     fs s !! logBotFile (path_join dirname
               (a_isoDate (world (tick s)) +:+ "_"
                +:+ a_clockTime (world (tick s)))) number = None ∧
     fs s !! logHarFile (path_join dirname
               (a_isoDate (world (tick s)) +:+ "_"
                +:+ a_clockTime (world (tick s)))) number = None) →
  ∃ s',
    main s = (Ok tt, s') ∧
    ∀ number, (number < config_repetitions config)%nat →
      ∃ es,
        fs s' !! logBotFile (path_join dirname
                   (a_isoDate (world (tick s)) +:+ "_"
                    +:+ a_clockTime (world (tick s)))) number
          = Some (File (header +:+ render es)) ∧
        event <$> es =
          ["origin"; "sniffer-on"; "browser-on"] ++
          flat_map (λ c, [name c +:+ "-on"; name c +:+ "-off"])
                   (config_channels config) ++
          ["browser-off"; "sniffer-off"].
Proof.
  intros Hud Hprocs Habsent.
  destruct (new_Experiment_ok s) as (this & s1 & E1 & Hdir & Hfs & Hc).
  rewrite <-Hdir in Habsent |- *.
  assert (between this 0 s1) as Hb.
  { split.
    - intros c. rewrite Hc. unfold captures. rewrite Hprocs.
      by intros ?%elem_of_nil.
    - intros k Hk. lia.
    - intros k _. destruct (Habsent k) as [HL HH].
      rewrite !Hfs; [done|apply path_join_longer|apply path_join_longer]. }
  destruct (undisturbed_loop this (config_repetitions config) 0 s1 Hb)
    as (s' & E & [_ Hdone _]).
  exists s'. split.
  - unfold main. rewrite (bind_eq _ _ _ _ _ (checkCookies_present _ Hud)).
    by rewrite (bind_eq _ _ _ _ _ E1).
  - intros number Hn. by apply Hdone.
Qed.

End Undisturbed.

End Script.

(** * [register.js]: creating the browser profile *)

Module Register.

(** [config.login]. *)
Record Login := { url : string; username : string; password : string }.

(** What the script does, in order.  [ClickElement] is the click on the
    element handle [waitForSelector] returned, [Click] is [page.click]. *)
Inductive Action :=
  | Print (line : string)
  | LaunchBrowser
  | ListPages
  | Open (address : string)
  | WaitForSelector (selector : string)
  | ClickElement (selector : string)
  | Click (selector : string)
  | TypeText (selector text : string)
  | Sleep (ms : Z)
  | CloseBrowser.

(** The script reads the file system and never writes to it; what the
    browser keeps in its profile directory is not part of the model. *)
Record Desk := {
  calls : nat;
  files : gmap string Node;
  done : list Action
}.

Definition R (A : Type) : Type := Desk → Res A * Desk.

Definition unit_ {A} (a : A) : R A := λ d, (Ok a, d).

Definition then_ {A B} (m : R A) (f : A → R B) : R B := λ d,
  match m d with
  | (Ok a, d1) => f a d1
  | (Throw e, d1) => (Throw e, d1)
  | (Exit c, d1) => (Exit c, d1)
  end.

Definition fail {A} (message : string) : R A := λ d, (Throw message, d).

Definition record (a : Action) : R unit := λ d,
  (Ok tt, {| calls := calls d; files := files d; done := done d ++ [a] |}).

Local Notation "'await' x '<-' m ';' k" := (then_ m (λ x, k))
  (at level 10, x name, m at level 100, k at level 200).
Local Notation "m ';;' k" := (then_ m (λ _, k))
  (at level 100, k at level 200, right associativity).

Section Registration.

Variable login : Login.
Variable dirname : string.
Variable world : nat → Answer.

Definition userDataDir : string := path_join dirname "user_data".

Definition doesUserDataDirExist (dir : string) : R bool := λ d,
  (Ok (bool_decide (is_Some (files d !! dir))), d).

(** [wait(s)]: a timer of [s] seconds. *)
Definition wait (s : Z) : R unit := record (Sleep (s * 1000)).

(** An awaited call into the browser: its answer is the next one of the
    outside world; it resolves or rejects. *)
Definition call (a : Action) : R Answer := λ d,
  let answer := world (calls d) in
  let d1 := {| calls := S (calls d); files := files d;
               done := done d ++ [a] |} in
  match a_error answer with
  | Some message => (Throw message, d1)
  | None => (Ok answer, d1)
  end.

Definition registerUser : R unit :=
  await _ <- call LaunchBrowser;
  await pages <- call ListPages;
  (* [const [page] = await browser.pages()]: [undefined] without a page *)
  (if bool_decide (0 < a_pages pages)%nat then unit_ tt
   else fail "TypeError: Cannot read properties of undefined") ;;
  await _ <- call (Open (url login));
  await _ <- call (WaitForSelector "#onetrust-accept-btn-handler");
  wait 5 ;;
  await _ <- call (ClickElement "#onetrust-accept-btn-handler");
  wait 5 ;;
  await _ <- call (WaitForSelector "#email");
  await _ <- call (TypeText "#email" (username login));
  wait 5 ;;
  await _ <- call (WaitForSelector "#password");
  await _ <- call (TypeText "#password" (password login));
  wait 5 ;;
  await _ <- call (WaitForSelector "button[type=submit]");
  await _ <- call (Click "button[type=submit]");
  wait 10 ;;
  await _ <- call CloseBrowser;
  unit_ tt.

Definition main : R unit :=
  await present <- doesUserDataDirExist userDataDir;
  if present then
    record (Print "Already logged in") ;;
    record (Print "Remove user_data to generate a new profile")
  else
    registerUser ;;
    record (Print "You logged in!").

(** The actions of a registration that goes through. *)
Definition registration : list Action := [
  LaunchBrowser; ListPages; Open (url login);
  WaitForSelector "#onetrust-accept-btn-handler"; Sleep 5000;
  ClickElement "#onetrust-accept-btn-handler"; Sleep 5000;
  WaitForSelector "#email"; TypeText "#email" (username login); Sleep 5000;
  WaitForSelector "#password"; TypeText "#password" (password login);
  Sleep 5000;
  WaitForSelector "button[type=submit]"; Click "button[type=submit]";
  Sleep 10000;
  CloseBrowser
].

Lemma then_call {B} a (f : Answer → R B) d :
  then_ (call a) f d =
  match a_error (world (calls d)) with
  | Some message =>
      (Throw message,
       {| calls := S (calls d); files := files d; done := done d ++ [a] |})
  | None =>
      f (world (calls d))
        {| calls := S (calls d); files := files d; done := done d ++ [a] |}
  end.
Proof. unfold then_, call. cbv zeta. by destruct (a_error _). Qed.

Lemma then_wait {B} s (f : unit → R B) d :
  then_ (wait s) f d
  = f tt {| calls := calls d; files := files d;
            done := done d ++ [Sleep (s * 1000)] |}.
Proof. reflexivity. Qed.

(** X17. With the profile directory in place, [register.js] prints its two
    lines and does nothing else: no browser is launched. *)
Theorem already_registered d :
  is_Some (files d !! userDataDir) →
  main d =
    (Ok tt,
     {| calls := calls d; files := files d;
        done := done d ++ [Print "Already logged in";
                           Print "Remove user_data to generate a new profile"] |}).
Proof.
  intros Hd. unfold main, then_, doesUserDataDirExist.
  rewrite bool_decide_eq_true_2 by done. unfold record. simpl.
  by rewrite <-app_assoc.
Qed.

(** One call of the registration: it fails, the actions so far being a
    part of the registration, or the registration goes on. *)
Ltac next_call E :=
  rewrite then_call in E; cbn [calls files done] in E;
  match type of E with
  | context [a_error ?a] =>
      let e := fresh "e" in
      destruct (a_error a) as [e|];
      [ simplify_eq; right; simpl; rewrite <-?app_assoc | ]
  end.

(** X18. Without the profile directory, [register.js] goes through the
    registration: it launches the browser, opens the login page, accepts
    the cookies, types the user name and the password, submits, and closes
    the browser, sleeping 5, 5, 5, 5 and 10 seconds on the way, and then
    prints [You logged in!].  Nothing is caught: the first call that fails
    ends the script with its exception, the actions taken being the
    registration up to that call, so that a failure before the last call
    leaves the browser open, and nothing is printed. *)
Theorem registration_stops_at_first_failure d r d' :
  files d !! userDataDir = None →
  main d = (r, d') →
  (r = Ok tt ∧ done d' = done d ++ registration ++ [Print "You logged in!"]) ∨
  (∃ e n, r = Throw e ∧ (0 < n ≤ length registration)%nat ∧
          done d' = done d ++ take n registration).
Proof.
  intros Hd E. unfold main in E.
  unfold then_ at 1, doesUserDataDirExist in E. rewrite Hd in E.
  rewrite bool_decide_eq_false_2 in E by (by intros [? ?]).
  unfold registerUser in E.
  assert (∀ {A B C} (m : R A) (f : A → R B) (g : B → R C) x,
            then_ (then_ m f) g x = then_ m (λ a, then_ (f a) g) x) as Hassoc.
  { intros A B C m f g x. unfold then_. by destruct (m x) as [[a|e|c] d1]. }
  rewrite Hassoc in E.
  next_call E; [exists e, 1%nat; split_and!; simpl; try done; lia|].
  rewrite Hassoc in E.
  next_call E; [exists e, 2%nat; split_and!; simpl; try done; lia|].
  rewrite Hassoc in E.
  destruct (bool_decide _) in E.
  2:{ unfold then_ at 1, fail in E. simplify_eq. right.
      exists "TypeError: Cannot read properties of undefined", 2%nat.
      split_and!; simpl; try done; try lia. by rewrite <-app_assoc. }
  unfold then_ at 1, unit_ at 1 in E.
  rewrite Hassoc in E.
  next_call E; [exists e, 3%nat; split_and!; simpl; try done; lia|].
  rewrite Hassoc in E.
  next_call E; [exists e, 4%nat; split_and!; simpl; try done; lia|].
  rewrite Hassoc, then_wait in E. cbn [calls files done] in E.
  rewrite Hassoc in E.
  next_call E; [exists e, 6%nat; split_and!; simpl; try done; lia|].
  rewrite Hassoc, then_wait in E. cbn [calls files done] in E.
  rewrite Hassoc in E.
  next_call E; [exists e, 8%nat; split_and!; simpl; try done; lia|].
  rewrite Hassoc in E.
  next_call E; [exists e, 9%nat; split_and!; simpl; try done; lia|].
  rewrite Hassoc, then_wait in E. cbn [calls files done] in E.
  rewrite Hassoc in E.
  next_call E; [exists e, 11%nat; split_and!; simpl; try done; lia|].
  rewrite Hassoc in E.
  next_call E; [exists e, 12%nat; split_and!; simpl; try done; lia|].
  rewrite Hassoc, then_wait in E. cbn [calls files done] in E.
  rewrite Hassoc in E.
  next_call E; [exists e, 14%nat; split_and!; simpl; try done; lia|].
  rewrite Hassoc in E.
  next_call E; [exists e, 15%nat; split_and!; simpl; try done; lia|].
  rewrite Hassoc, then_wait in E. cbn [calls files done] in E.
  rewrite Hassoc in E.
  next_call E; [exists e, 17%nat; split_and!; simpl; try done; lia|].
  unfold then_, unit_, record in E. simplify_eq. left.
  split; [done|]. simpl. by rewrite <-!app_assoc.
Qed.

(** X19. Without the profile directory, when no call fails and the browser
    comes up with a page, [register.js] carries out the whole registration,
    twelve calls into the browser with 30 seconds of sleep between them,
    prints [You logged in!] and returns normally. *)
Theorem registration_goes_through d :
  (∀ k, a_error (world k) = None) →
  (∀ k, (0 < a_pages (world k))%nat) →
  files d !! userDataDir = None →
  main d =
    (Ok tt,
     {| calls := calls d + 12; files := files d;
        done := done d ++ registration ++ [Print "You logged in!"] |}) ∧
  foldr Z.add 0 (flat_map (λ a, match a with Sleep ms => [ms] | _ => [] end)
                          registration) = 30 * 1000.
Proof.
  intros Hne Hpg Hd. split; [|reflexivity]. unfold main.
  unfold then_ at 1, doesUserDataDirExist. rewrite Hd.
  rewrite bool_decide_eq_false_2 by (by intros [? ?]).
  unfold registerUser.
  assert (∀ {A B C} (m : R A) (f : A → R B) (g : B → R C) x,
            then_ (then_ m f) g x = then_ m (λ a, then_ (f a) g) x) as Hassoc.
  { intros A B C m f g x. unfold then_. by destruct (m x) as [[a|e|c] d1]. }
  rewrite Hassoc, then_call, Hne. cbn [calls files done].
  rewrite Hassoc, then_call, Hne. cbn [calls files done].
  rewrite bool_decide_eq_true_2 by apply Hpg.
  rewrite Hassoc. unfold then_ at 1, unit_ at 1.
  repeat (rewrite ?Hassoc, ?then_wait, ?then_call, ?Hne;
          cbn [calls files done]).
  unfold then_, unit_, record. cbn [calls files done].
  do 2 f_equal.
  - f_equal. lia.
  - simpl. by rewrite <-!app_assoc.
Qed.

End Registration.

End Register.

(** * Scenarios *)

Definition sample_config : Config := {|
  config_sniffer := {| sniffer_bin := "tshark"; sniffer_net := "eth0";
                       sniffer_max := "96" |};
  config_fastAwait := 1;
  config_longAwait := 2;
  config_homepage := "https://home.example";
  config_channels := [ {| name := "A"; link := "https://home.example/a" |};
                       {| name := "B"; link := "https://home.example/b" |} ];
  config_repetitions := 2
|}.

Definition sample_dirname : string := "/app".

(** A world in which every call succeeds and the clock advances by one
    millisecond per interaction. *)
Definition world_fine (k : nat) : Answer := {|
  a_now := 1000 + Z.of_nat k;
  a_dateString := "Mon Nov 02 2026";
  a_isoDate := "2026-11-02";
  a_clockTime := "10-00-00";
  a_error := None;
  a_partial := None;
  a_pid := Some 4242%nat;
  a_spawnError := "spawn tshark ENOENT";
  a_delivered := true;
  a_pages := 1;
  a_written := Some "{}";
  a_events := []
|}.

Definition with_now (f : nat → Z) (w : nat → Answer) (k : nat) : Answer :=
  {| a_now := f k; a_dateString := a_dateString (w k);
     a_isoDate := a_isoDate (w k); a_clockTime := a_clockTime (w k);
     a_error := a_error (w k); a_partial := a_partial (w k);
     a_pid := a_pid (w k);
     a_spawnError := a_spawnError (w k); a_delivered := a_delivered (w k);
     a_pages := a_pages (w k); a_written := a_written (w k);
     a_events := a_events (w k) |}.

Definition with_error (f : nat → option string) (w : nat → Answer) (k : nat)
  : Answer :=
  {| a_now := a_now (w k); a_dateString := a_dateString (w k);
     a_isoDate := a_isoDate (w k); a_clockTime := a_clockTime (w k);
     a_error := f k; a_partial := a_partial (w k); a_pid := a_pid (w k);
     a_spawnError := a_spawnError (w k); a_delivered := a_delivered (w k);
     a_pages := a_pages (w k); a_written := a_written (w k);
     a_events := a_events (w k) |}.

Definition with_pid (f : nat → option nat) (w : nat → Answer) (k : nat)
  : Answer :=
  {| a_now := a_now (w k); a_dateString := a_dateString (w k);
     a_isoDate := a_isoDate (w k); a_clockTime := a_clockTime (w k);
     a_error := a_error (w k); a_partial := a_partial (w k); a_pid := f k;
     a_spawnError := a_spawnError (w k); a_delivered := a_delivered (w k);
     a_pages := a_pages (w k); a_written := a_written (w k);
     a_events := a_events (w k) |}.

Definition with_events (f : nat → list (nat * ProcEvent)) (w : nat → Answer)
    (k : nat) : Answer :=
  {| a_now := a_now (w k); a_dateString := a_dateString (w k);
     a_isoDate := a_isoDate (w k); a_clockTime := a_clockTime (w k);
     a_error := a_error (w k); a_partial := a_partial (w k);
     a_pid := a_pid (w k);
     a_spawnError := a_spawnError (w k); a_delivered := a_delivered (w k);
     a_pages := a_pages (w k); a_written := a_written (w k);
     a_events := f k |}.

(** The wall clock is set back while the script runs. *)
Definition world_clock_back : nat → Answer :=
  with_now (λ k, 5000 - Z.of_nat k) world_fine.

(** The capture binary is not installed. *)
Definition world_no_tshark : nat → Answer :=
  with_pid (λ _, None) world_fine.

(** The first navigation to the home page times out, once; the capture
    process has written a part of its file by then. *)
Definition world_timeout : nat → Answer :=
  with_events (λ k, if (k =? 14)%nat then [(0%nat, ProcWrite "pcap")] else [])
    (with_error (λ k, if (k =? 16)%nat then Some "Navigation timeout" else None)
       world_fine).


(** The browser is lost during the first navigation: that call and every
    later one fails. *)
Definition world_browser_lost : nat → Answer :=
  with_error (λ k, if (16 <=? k)%nat then Some "Target closed" else None)
    world_fine.

(** The first repetition goes well; the first navigation of the second
    repetition times out. *)
Definition world_second_fails : nat → Answer :=
  with_error (λ k, if (k =? 57)%nat then Some "Navigation timeout" else None)
    world_fine.

(** The script is started in [/app], where the profile directory exists. *)
Definition start_state : St := {|
  tick := 0;
  fs := {[ "/app/user_data" := Dir ]};
  procs := [];
  sniffer := None;
  browserManager := None;
  trace := []
|}.

(** The same, the profile directory missing. *)
Definition bare_state : St := {|
  tick := 0; fs := ∅; procs := []; sniffer := None; browserManager := None;
  trace := []
|}.

(** The experiment the constructor builds in these worlds. *)
Definition sample_experiment : Experiment := {|
  outputDir := "/app/2026-11-02_10-00-00";
  fastAwait := 1000;
  longAwait := 2000;
  watchAwait := 60000
|}.

(** The state the constructor leaves, and the state in which the [try]
    block of the first repetition begins. *)
Definition ready_state (w : nat → Answer) : St :=
  (new_Experiment sample_config sample_dirname w start_state).2.

Definition try_state (w : nat → Answer) : St := entered w 0 (ready_state w).

(** The state in which the [try] block of the first repetition ends, and
    the state its failure handler leaves. *)
Definition done_state (w : nat → Answer) : St :=
  (run_try sample_config w sample_experiment 0 (try_state w)).2.

Definition cleaned_state (w : nat → Answer) (message : string) : St :=
  (run_catch w sample_experiment 0 message (done_state w)).2.


(** The state after a first repetition, and the state after the second
    repetition that follows it. *)
Definition kept_state (w : nat → Answer) : St :=
  (run_iteration sample_config w sample_experiment 0 (ready_state w)).2.

Definition failed_state (w : nat → Answer) : St :=
  (run_iteration sample_config w sample_experiment 1 (kept_state w)).2.

Definition sample_log : string :=
  logBotFile "/app/2026-11-02_10-00-00" 0.

(** The entries of the event log when the clock is set back. *)
Definition backward_entries : list Entry := [
  {| event := "origin"; abs := 4996; rel := 0 |};
  {| event := "sniffer-on"; abs := 4992; rel := -4 |};
  {| event := "browser-on"; abs := 4988; rel := -8 |};
  {| event := "A-on"; abs := 4981; rel := -15 |};
  {| event := "A-off"; abs := 4978; rel := -18 |};
  {| event := "B-on"; abs := 4973; rel := -23 |};
  {| event := "B-off"; abs := 4970; rel := -26 |};
  {| event := "browser-off"; abs := 4964; rel := -32 |};
  {| event := "sniffer-off"; abs := 4959; rel := -37 |}
].

(** ** The theorems at work *)

Lemma event_log_witness :
  ∃ es : list Entry,
    fs (done_state world_fine) !! sample_log
      = Some (File (header +:+ render es)) ∧
    event <$> es = ["origin"; "sniffer-on"; "browser-on"; "A-on"; "A-off";
                    "B-on"; "B-off"; "browser-off"; "sniffer-off"] ∧
    length es = 9%nat.
Proof.
  apply (event_log_of_successful_run sample_config world_fine
           sample_experiment 0 (try_state world_fine)).
  - vm_compute. reflexivity.
  - vm_compute. reflexivity.
  - apply not_elem_of_nil.
Defined.

Lemma offsets_witness :
  ∃ (originTime : Z) (es : list Entry),
    fs (done_state world_fine) !! sample_log
      = Some (File (header +:+
          render ({| event := "origin"; abs := originTime; rel := 0 |} :: es))) ∧
    last (event <$> es) = Some "sniffer-off" ∧
    Forall (λ e, rel e = abs e - originTime) es ∧
    StronglySorted Z.le (0 :: (rel <$> es)).
Proof.
  destruct (offsets_of_successful_run sample_config world_fine
              sample_experiment 0 (try_state world_fine) (done_state world_fine))
    as (originTime & es & Hf & Hl & Hr & Hs).
  - vm_compute. reflexivity.
  - vm_compute. reflexivity.
  - apply not_elem_of_nil.
  - exists originTime, es. split_and!; [exact Hf|exact Hl|exact Hr|].
    apply Hs. intros i j Hij. simpl. lia.
Defined.

Lemma offsets_can_decrease :
  ¬ offsets_never_decrease sample_config world_clock_back.
Proof.
  intros H.
  specialize (H sample_experiment 0%nat (try_state world_clock_back)
                (done_state world_clock_back) backward_entries).
  assert (StronglySorted Z.le (rel <$> backward_entries)) as Hs.
  { apply H.
    - vm_compute. reflexivity.
    - vm_compute. reflexivity.
    - apply not_elem_of_nil.
    - vm_compute. reflexivity. }
  apply StronglySorted_cons in Hs as [Hs _].
  apply Forall_cons in Hs as [Hs _]. simpl in Hs. lia.
Qed.




Lemma missing_binary_witness :
  ∃ s', run_try sample_config world_no_tshark sample_experiment 0
          (try_state world_no_tshark) = (Ok tt, s') ∧
        is_Some (fs s' !! logBotFile (outputDir sample_experiment) 0).
Proof.
  refine (proj1 (missing_binary_does_not_abort sample_config world_no_tshark
                   sample_experiment 0 (try_state world_no_tshark) _ _ _ _ _)).
  - intros k. reflexivity.
  - intros k. reflexivity.
  - intros k. simpl. lia.
  - split; [|apply not_elem_of_nil].
    assert (fs (try_state world_no_tshark)
              !! logBotFile (outputDir sample_experiment) 0 = None) as ->
      by (vm_compute; reflexivity).
    discriminate.
  - split; [|apply not_elem_of_nil].
    assert (fs (try_state world_no_tshark)
              !! logHarFile (outputDir sample_experiment) 0 = None) as ->
      by (vm_compute; reflexivity).
    discriminate.
Defined.

Lemma missing_binary_does_not_remove_the_log :
  ¬ missing_binary_aborts_run sample_config world_no_tshark.
Proof.
  intros H.
  specialize (H sample_experiment 0%nat (ready_state world_no_tshark)
                (run_iteration sample_config world_no_tshark
                   sample_experiment 0 (ready_state world_no_tshark)).1
                (run_iteration sample_config world_no_tshark
                   sample_experiment 0 (ready_state world_no_tshark)).2
                (λ _, eq_refl) (surjective_pairing _)).
  assert (match fs (run_iteration sample_config world_no_tshark
                      sample_experiment 0 (ready_state world_no_tshark)).2
                  !! logBotFile (outputDir sample_experiment) 0
          with Some _ => true | None => false end = true) as Hkept
    by (vm_compute; reflexivity).
  rewrite H in Hkept. discriminate Hkept.
Qed.

Lemma loop_witness :
  ∃ this s1 acts,
    new_Experiment sample_config sample_dirname world_timeout start_state
      = (Ok this, s1) ∧
    actions (trace (main sample_config sample_dirname world_timeout
                      start_state).2)
      = actions (trace s1) ++ acts ∧
    ∀ number, (number < config_repetitions sample_config)%nat →
      Append (logBotFile (outputDir this) number) header ∈ acts.
Proof.
  refine (proj1 (proj2
            (run_failures_stay_in_the_loop sample_config sample_dirname
               world_timeout start_state (Ok tt)
               (main sample_config sample_dirname world_timeout start_state).2
               _ _)) eq_refl).
  - exists Dir. vm_compute. reflexivity.
  - vm_compute. reflexivity.
Defined.

Lemma failing_handler_leaves_the_loop :
  ¬ loop_always_completes sample_config sample_dirname world_browser_lost.
Proof.
  intros H.
  assert (is_Some (fs start_state !! path_join sample_dirname "user_data"))
    as Hs by (exists Dir; vm_compute; reflexivity).
  specialize (H start_state
                (main sample_config sample_dirname world_browser_lost
                   start_state).1
                (main sample_config sample_dirname world_browser_lost
                   start_state).2
                Hs (surjective_pairing _)).
  assert ((main sample_config sample_dirname world_browser_lost start_state).1
            = Throw "Target closed") as Hr
    by (vm_compute; reflexivity).
  rewrite Hr in H. discriminate H.
Qed.

Lemma stop_witness :
  ∃ s1 s2,
    Sniffer_stop world_timeout None (done_state world_timeout) = (Ok tt, s1) ∧
    Sniffer_stop world_timeout None s1 = (Ok tt, s2) ∧
    (signals (trace s2) ≤ S (signals (trace (done_state world_timeout))))%nat ∧
    (signals (trace s1) = S (signals (trace (done_state world_timeout))) →
     s2 = s1).
Proof.
  apply (stop_idempotent world_timeout None (done_state world_timeout)
           {| outputPath := logNetFile "/app/2026-11-02_10-00-00" 0;
              snifferProcess := Some 0%nat |}).
  vm_compute. reflexivity.
Defined.

Lemma preflight_witness :
  (main sample_config sample_dirname world_fine bare_state).1 = Exit 1 ∧
  fs (main sample_config sample_dirname world_fine bare_state).2 = fs bare_state ∧
  procs (main sample_config sample_dirname world_fine bare_state).2 = [] ∧
  trace (main sample_config sample_dirname world_fine bare_state).2 =
    [ConsoleLog "[Mon Nov 02 2026] The 'user_data' directory does not exist.";
     ConsoleLog "[Mon Nov 02 2026] Please run 'node register.js' to set up the user data.";
     ProcessExit 1].
Proof.
  apply (preflight_check sample_config sample_dirname world_fine bare_state).
  - apply surjective_pairing.
  - vm_compute. reflexivity.
Defined.

Lemma wait_durations_witness :
  fastAwait sample_experiment = 1 * 1000 ∧
  longAwait sample_experiment = 2 * 1000 ∧
  watchAwait sample_experiment = 2 * 1000 * 30 ∧
  ∃ acts,
    actions (trace (done_state world_fine))
      = actions (trace (try_state world_fine)) ++ acts ∧
    waits_of acts = [1000; 2000; 60000; 1000; 60000; 1000; 4000].
Proof.
  apply (wait_durations sample_config sample_dirname world_fine start_state
           sample_experiment (ready_state world_fine) 0
           (try_state world_fine) (done_state world_fine)).
  - vm_compute. reflexivity.
  - vm_compute. reflexivity.
Defined.

Lemma artifacts_witness :
  is_Some (fs (ready_state world_second_fails) !! outputDir sample_experiment) ∧
  (actions (trace (ready_state world_second_fails)) = actions (trace start_state) ∨
   actions (trace (ready_state world_second_fails))
     = actions (trace start_state) ++ [Mkdir (outputDir sample_experiment)]) ∧
  (∀ p, p ∈ artifacts (outputDir sample_experiment) 1 →
        p ∉ artifacts (outputDir sample_experiment) 0) ∧
  ∃ acts,
    actions (trace (failed_state world_second_fails))
      = actions (trace (kept_state world_second_fails)) ++ acts ∧
    (∀ e, e ∈ acts →
       (∀ p, e ≠ Mkdir p) ∧
       ∀ p, p ∈ effect_paths e →
         p ∈ artifacts (outputDir sample_experiment) 1 ∧
         p ∉ artifacts (outputDir sample_experiment) 0) ∧
    (∀ p, p ∉ artifacts (outputDir sample_experiment) 1 →
          p ∉ captures (kept_state world_second_fails) →
       fs (failed_state world_second_fails) !! p
         = fs (kept_state world_second_fails) !! p).
Proof.
  refine (runs_keep_to_their_artifacts sample_config sample_dirname
            world_second_fails start_state sample_experiment
            (ready_state world_second_fails) 1 0 (kept_state world_second_fails)
            (Ok tt) (failed_state world_second_fails) _ _ _).
  - vm_compute. reflexivity.
  - lia.
  - vm_compute. reflexivity.
Defined.

(** ** Further scenarios *)

Definition with_pages (n : nat) (w : nat → Answer) (k : nat) : Answer :=
  {| a_now := a_now (w k); a_dateString := a_dateString (w k);
     a_isoDate := a_isoDate (w k); a_clockTime := a_clockTime (w k);
     a_error := a_error (w k); a_partial := a_partial (w k);
     a_pid := a_pid (w k);
     a_spawnError := a_spawnError (w k); a_delivered := a_delivered (w k);
     a_pages := n; a_written := a_written (w k);
     a_events := a_events (w k) |}.

(** The browser comes up without a page. *)
Definition world_no_page : nat → Answer := with_pages 0 world_fine.

(** The browser cannot be launched. *)
Definition world_no_browser : nat → Answer :=
  with_error (λ _, Some "Failed to launch the browser process") world_fine.

Definition with_partial (f : nat → option nat) (w : nat → Answer) (k : nat)
  : Answer :=
  {| a_now := a_now (w k); a_dateString := a_dateString (w k);
     a_isoDate := a_isoDate (w k); a_clockTime := a_clockTime (w k);
     a_error := a_error (w k); a_partial := f k; a_pid := a_pid (w k);
     a_spawnError := a_spawnError (w k); a_delivered := a_delivered (w k);
     a_pages := a_pages (w k); a_written := a_written (w k);
     a_events := a_events (w k) |}.

(** The first write of the first repetition fails: the event log is
    opened, and so created, but nothing can be written to it. *)
Definition world_disk_full : nat → Answer :=
  with_partial (λ k, if (k =? 3)%nat then Some 0%nat else None)
    (with_error
       (λ k, if (k =? 3)%nat then Some "ENOSPC: no space left on device"
             else None)
       world_fine).

(** The cookie banner never shows: the fourth call of the registration
    fails. *)
Definition world_no_banner : nat → Answer :=
  with_error
    (λ k, if (k =? 3)%nat then Some "TimeoutError: Waiting for selector failed"
          else None)
    world_fine.

(** The capture process of the first repetition, while it runs. *)
Definition capture_process : Proc := {|
  spawnfile := "tshark";
  spawnargs := ["-i"; "eth0"; "-s"; "96"; "-w";
                logNetFile "/app/2026-11-02_10-00-00" 0];
  pid := Some 4242%nat; killed := false; exited := false;
  pendingError := None;
  listeners := [OnStartError "Mon Nov 02 2026"; OnStartExit]
|}.

(** The same process after a successful run has stopped it. *)
Definition stopped_process : Proc := {|
  spawnfile := "tshark";
  spawnargs := ["-i"; "eth0"; "-s"; "96"; "-w";
                logNetFile "/app/2026-11-02_10-00-00" 0];
  pid := Some 4242%nat; killed := true; exited := false;
  pendingError := None;
  listeners := [OnStartError "Mon Nov 02 2026"; OnStartExit; OnStopExit]
|}.

(** A capture object whose process could not be spawned. *)
Definition unspawned_process : Proc := {|
  spawnfile := "tshark";
  spawnargs := ["-i"; "eth0"; "-s"; "96"; "-w"; "/app/capture.pcap"];
  pid := None; killed := false; exited := false;
  pendingError := None;
  listeners := [OnStartError "Mon Nov 02 2026"; OnStartExit]
|}.

Definition unspawned_state : St := {|
  tick := 0; fs := ∅; procs := [unspawned_process];
  sniffer := Some {| outputPath := "/app/capture.pcap";
                     snifferProcess := Some 0%nat |};
  browserManager := None; trace := []
|}.

(** A capture object that was not started yet, and a session object that
    was not launched yet. *)
Definition fresh_capture : St :=
  set_sniffer (Some (new_Sniffer "/app/capture.pcap")) start_state.

Definition fresh_session : St :=
  set_browserManager (Some new_BrowserManager) start_state.

Definition sample_login : Register.Login := {|
  Register.url := "https://login.example";
  Register.username := "user@example.com";
  Register.password := "secret"
|}.

Definition registered_desk : Register.Desk := {|
  Register.calls := 0;
  Register.files := {[ "/app/user_data" := Dir ]};
  Register.done := []
|}.

Definition bare_desk : Register.Desk := {|
  Register.calls := 0; Register.files := ∅; Register.done := []
|}.

(** The registration, given up at the cookie banner. *)
Definition stuck_desk : Register.Desk := {|
  Register.calls := 4; Register.files := ∅;
  Register.done :=
    [Register.LaunchBrowser; Register.ListPages;
     Register.Open "https://login.example";
     Register.WaitForSelector "#onetrust-accept-btn-handler"]
|}.

(** ** The further properties at work *)

Lemma script_witness :
  ∃ b sent acts,
    actions (trace (done_state world_fine))
      = actions (trace (try_state world_fine)) ++ acts ∧
    Forall (appends_to (logBotFile (outputDir sample_experiment) 0)) acts ∧
    control acts =
      [Spawn (sniffer_bin (config_sniffer sample_config))
             ["-i"; sniffer_net (config_sniffer sample_config); "-s";
              sniffer_max (config_sniffer sample_config); "-w";
              logNetFile (outputDir sample_experiment) 0]
             (length (procs (try_state world_fine)));
       Launch b; Pages b; Wait (fastAwait sample_experiment);
       HarStart (logHarFile (outputDir sample_experiment) 0);
       Goto (config_homepage sample_config);
       Wait (longAwait sample_experiment)] ++
      flat_map (λ c, [Goto (link c); Wait (watchAwait sample_experiment);
                      Goto (config_homepage sample_config);
                      Wait (fastAwait sample_experiment)])
               (config_channels sample_config) ++
      [HarStop (logHarFile (outputDir sample_experiment) 0); BrowserClose b;
       Wait (longAwait sample_experiment * 2);
       Kill (length (procs (try_state world_fine))) SIGTERM sent].
Proof.
  refine (script_of_successful_run sample_config world_fine
            sample_experiment 0 (try_state world_fine)
            (done_state world_fine) _).
  vm_compute. reflexivity.
Defined.

Lemma cleanFiles_twice_witness :
  cleanFiles world_timeout (artifacts "/app/2026-11-02_10-00-00" 0)
    (cleanFiles world_timeout (artifacts "/app/2026-11-02_10-00-00" 0)
       (done_state world_timeout)).2
  = (Ok tt,
     (cleanFiles world_timeout (artifacts "/app/2026-11-02_10-00-00" 0)
        (done_state world_timeout)).2).
Proof.
  refine (cleanFiles_twice world_timeout
            (artifacts "/app/2026-11-02_10-00-00" 0)
            (done_state world_timeout) _ _).
  vm_compute. reflexivity.
Defined.

Lemma cleanFiles_removes_witness :
  trace (cleanFiles world_timeout (artifacts "/app/2026-11-02_10-00-00" 0)
           (done_state world_timeout)).2
  = trace (done_state world_timeout) ++
      (Unlink <$>
         List.filter
           (λ file, bool_decide
                      (is_Some (fs (done_state world_timeout) !! file)))
           (artifacts "/app/2026-11-02_10-00-00" 0)).
Proof.
  refine (proj1 (cleanFiles_removes_what_exists world_timeout
                   (artifacts "/app/2026-11-02_10-00-00" 0)
                   (done_state world_timeout)
                   (cleanFiles world_timeout
                      (artifacts "/app/2026-11-02_10-00-00" 0)
                      (done_state world_timeout)).2 _ _)).
  - refine (bool_decide_unpack _ _). vm_compute. exact I.
  - vm_compute. reflexivity.
Defined.

Lemma cleanFiles_directory_witness :
  ∃ e,
    cleanFiles world_fine ["/app/old.csv"; "/app/user_data"; "/app/old.har"]
      start_state
    = (Throw e,
       {| tick := S (tick start_state); fs := fs start_state;
          procs := procs start_state; sniffer := sniffer start_state;
          browserManager := browserManager start_state;
          trace := trace start_state ++ [Unlink "/app/user_data"] |}).
Proof.
  refine (cleanFiles_stops_at_directory world_fine ["/app/old.csv"]
            "/app/user_data" ["/app/old.har"] start_state _ _).
  - apply Forall_cons_2; [vm_compute; reflexivity|apply Forall_nil_2].
  - vm_compute. reflexivity.
Defined.

Lemma second_start_witness :
  ∃ s1 s2 p1 p2,
    Sniffer_start sample_config world_fine fresh_capture = (Ok tt, s1) ∧
    Sniffer_start sample_config world_fine s1 = (Ok tt, s2) ∧
    procs s2 = procs fresh_capture ++ [p1; p2] ∧
    capture_file p1 = "/app/capture.pcap" ∧
    capture_file p2 = "/app/capture.pcap" ∧
    killed p1 = false ∧ exited p1 = false.
Proof.
  destruct (second_start_leaks_first sample_config world_fine fresh_capture
              (new_Sniffer "/app/capture.pcap") eq_refl)
    as (s1 & s2 & p1 & p2 & H1 & H2 & H3 & H4 & H5 & H6 & H7 & _).
  exists s1, s2, p1, p2. split_and!; assumption.
Defined.

Lemma stop_unspawned_witness :
  ∃ s1 s2,
    Sniffer_stop world_no_tshark None unspawned_state = (Ok tt, s1) ∧
    Sniffer_stop world_no_tshark None s1 = (Ok tt, s2) ∧
    trace s1 = trace unspawned_state ++
      [ConsoleLog ("[" +:+ a_dateString (world_no_tshark (tick unspawned_state))
                   +:+ "] Stopping tshark process with PID: "
                   +:+ render_pid (pid unspawned_process));
       Kill 0 (default SIGTERM None) false].
Proof.
  destruct (stop_without_running_process world_no_tshark None
              {| outputPath := "/app/capture.pcap";
                 snifferProcess := Some 0%nat |}
              0%nat unspawned_process unspawned_state
              eq_refl eq_refl eq_refl eq_refl eq_refl)
    as (_ & s1 & s2 & H1 & H2 & H3 & _).
  exists s1, s2. split_and!; assumption.
Defined.

Lemma stopped_capture_witness :
  proc_event world_fine (0%nat, ProcExit None (Some SIGTERM))
    (done_state world_fine)
  = (Ok tt,
     {| tick := S (S (tick (done_state world_fine)));
        fs := fs (done_state world_fine);
        procs := alter mark_exited 0%nat (procs (done_state world_fine));
        sniffer := sniffer (done_state world_fine);
        browserManager := browserManager (done_state world_fine);
        trace := trace (done_state world_fine) ++
          [ConsoleError
             ("[" +:+ a_dateString (world_fine (tick (done_state world_fine)))
              +:+ "] Tshark process exited with error code: null");
           ConsoleLog
             ("[" +:+ a_dateString
                        (world_fine (S (tick (done_state world_fine))))
              +:+ "] Tshark process was stopped by signal: "
              +:+ signal_name SIGTERM)] |}).
Proof.
  refine (stopped_capture_is_reported_twice world_fine 0%nat stopped_process
            "Mon Nov 02 2026" SIGTERM (done_state world_fine) _ _ _).
  - vm_compute. reflexivity.
  - reflexivity.
  - reflexivity.
Defined.

Lemma close_twice_witness :
  actions (trace (BrowserManager_close world_browser_lost
                    (BrowserManager_close world_browser_lost
                       (done_state world_browser_lost)).2).2)
  = actions (trace (done_state world_browser_lost))
    ++ [BrowserClose 10; BrowserClose 10].
Proof.
  refine (close_twice_closes_twice world_browser_lost
            {| browser := Some 10%nat; page := Some 10%nat |} 10%nat
            (done_state world_browser_lost)
            (BrowserManager_close world_browser_lost
               (done_state world_browser_lost)).1
            (BrowserManager_close world_browser_lost
               (done_state world_browser_lost)).2
            (BrowserManager_close world_browser_lost
               (BrowserManager_close world_browser_lost
                  (done_state world_browser_lost)).2).1
            (BrowserManager_close world_browser_lost
               (BrowserManager_close world_browser_lost
                  (done_state world_browser_lost)).2).2
            _ eq_refl _ _).
  - vm_compute. reflexivity.
  - apply surjective_pairing.
  - apply surjective_pairing.
Defined.

Lemma launch_without_page_witness :
  ∃ s1 s2,
    BrowserManager_launch world_no_page fresh_session
      = (Throw "No page available in the browser", s1) ∧
    browserManager s1
      = Some {| browser := Some (tick fresh_session); page := None |} ∧
    actions (trace s1) = actions (trace fresh_session) ++
      [Launch (tick fresh_session); Pages (tick fresh_session);
       BrowserClose (tick fresh_session)] ∧
    BrowserManager_close world_no_page s1 = (Ok tt, s2) ∧
    actions (trace s2)
      = actions (trace s1) ++ [BrowserClose (tick fresh_session)].
Proof.
  refine (launch_without_page world_no_page fresh_session
            new_BrowserManager eq_refl _ _).
  - intros k. reflexivity.
  - intros k. reflexivity.
Defined.

Lemma failed_launch_witness :
  ∃ s1,
    BrowserManager_launch world_no_browser fresh_session
      = (Throw "Failed to launch the browser process", s1) ∧
    actions (trace s1)
      = actions (trace fresh_session) ++ [Launch (tick fresh_session)] ∧
    browserManager s1 = Some new_BrowserManager ∧
    BrowserManager_close world_no_browser s1 = (Ok tt, s1).
Proof.
  refine (failed_launch_leaves_nothing_to_close world_no_browser
            fresh_session "Failed to launch the browser process"
            eq_refl eq_refl).
Defined.

Lemma failure_report_witness :
  ∃ more,
    trace (cleaned_state world_timeout "Navigation timeout")
    = trace (done_state world_timeout) ++
        ConsoleError ("Error during experiment " +:+ pretty (0 + 1)%nat
                      +:+ ": " +:+ "Navigation timeout") :: more.
Proof.
  refine (failure_is_reported_first world_timeout sample_experiment 0
            "Navigation timeout" (done_state world_timeout) (Ok tt)
            (cleaned_state world_timeout "Navigation timeout") _).
  vm_compute. reflexivity.
Defined.

Lemma handler_stop_witness :
  ∃ sent before,
    trace (cleaned_state world_timeout "Navigation timeout")
    = before ++ [Kill 0 SIGTERM sent].
Proof.
  refine (handler_stops_the_capture world_timeout sample_experiment 0
            "Navigation timeout"
            {| outputPath := logNetFile "/app/2026-11-02_10-00-00" 0;
               snifferProcess := Some 0%nat |}
            0%nat capture_process (done_state world_timeout)
            (cleaned_state world_timeout "Navigation timeout")
            _ _ eq_refl _ eq_refl).
  - vm_compute. reflexivity.
  - vm_compute. reflexivity.
  - vm_compute. reflexivity.
Defined.

Lemma failure_before_capture_witness :
  ∃ s',
    run_iteration sample_config world_disk_full sample_experiment 0
      (ready_state world_disk_full) = (Ok tt, s') ∧
    fs s' = fs (ready_state world_disk_full) ∧
    procs s' = procs (ready_state world_disk_full) ∧
    trace s' = trace (ready_state world_disk_full) ++
      [ConsoleLog ("[" +:+ a_dateString
                             (world_disk_full (tick (ready_state world_disk_full)))
                   +:+ "] Running experiment " +:+ pretty (0 + 1)%nat);
       Append (logBotFile (outputDir sample_experiment) 0) header;
       ConsoleError ("Error during experiment " +:+ pretty (0 + 1)%nat
                     +:+ ": " +:+ "ENOSPC: no space left on device")] ++
      match a_partial
              (world_disk_full (S (tick (ready_state world_disk_full)))) with
      | Some _ => [Unlink (logBotFile (outputDir sample_experiment) 0)]
      | None => []
      end.
Proof.
  refine (failure_before_capture sample_config world_disk_full
            sample_experiment 0 (ready_state world_disk_full)
            "ENOSPC: no space left on device" _ _ _).
  - vm_compute. reflexivity.
  - repeat (apply Forall_cons_2; [vm_compute; reflexivity|]).
    apply Forall_nil_2.
  - intros _. vm_compute. reflexivity.
Defined.

Lemma own_capture_witness :
  ∃ more,
    trace (failed_state world_second_fails)
      = trace (kept_state world_second_fails) ++ more ∧
    ∀ c sg sent, Kill c sg sent ∈ more →
      (length (procs (kept_state world_second_fails)) ≤ c)%nat.
Proof.
  refine (repetition_signals_only_its_own_capture sample_config
            world_second_fails sample_experiment 1
            (kept_state world_second_fails) (Ok tt)
            (failed_state world_second_fails) _).
  vm_compute. reflexivity.
Defined.

Lemma start_state_without_logs number :
  fs start_state !! logBotFile "/app/2026-11-02_10-00-00" number = None ∧
  fs start_state !! logHarFile "/app/2026-11-02_10-00-00" number = None.
Proof.
  split; apply lookup_singleton_ne; intros E;
    unfold logBotFile, logHarFile, path_join in E;
    cbv beta iota delta [String.append] in E; discriminate E.
Defined.

Lemma undisturbed_witness :
  ∃ s',
    main sample_config sample_dirname world_fine start_state = (Ok tt, s') ∧
    ∀ number, (number < config_repetitions sample_config)%nat →
      ∃ es,
        fs s' !! logBotFile (path_join sample_dirname
                   (a_isoDate (world_fine (tick start_state)) +:+ "_"
                    +:+ a_clockTime (world_fine (tick start_state)))) number
          = Some (File (header +:+ render es)) ∧
        event <$> es =
          ["origin"; "sniffer-on"; "browser-on"] ++
          flat_map (λ c, [name c +:+ "-on"; name c +:+ "-off"])
                   (config_channels sample_config) ++
          ["browser-off"; "sniffer-off"].
Proof.
  refine (undisturbed_execution sample_config sample_dirname world_fine
            _ _ start_state _ eq_refl _).
  - intros k. reflexivity.
  - intros k. simpl. lia.
  - exists Dir. vm_compute. reflexivity.
  - exact start_state_without_logs.
Defined.

Lemma already_registered_witness :
  Register.main sample_login sample_dirname world_fine registered_desk =
    (Ok tt,
     {| Register.calls := Register.calls registered_desk;
        Register.files := Register.files registered_desk;
        Register.done := Register.done registered_desk ++
          [Register.Print "Already logged in";
           Register.Print "Remove user_data to generate a new profile"] |}).
Proof.
  refine (Register.already_registered sample_login sample_dirname world_fine
            registered_desk _).
  exists Dir. vm_compute. reflexivity.
Defined.

Lemma registration_failure_witness :
  ∃ n, (0 < n ≤ length (Register.registration sample_login))%nat ∧
       Register.done stuck_desk
       = Register.done bare_desk
           ++ take n (Register.registration sample_login).
Proof.
  destruct (Register.registration_stops_at_first_failure sample_login
              sample_dirname world_no_banner bare_desk
              (Throw "TimeoutError: Waiting for selector failed")
              stuck_desk)
    as [[H _]|(e & n & _ & Hn & Hd)].
  - vm_compute. reflexivity.
  - vm_compute. reflexivity.
  - discriminate H.
  - exists n. split; assumption.
Defined.

Lemma registration_witness :
  Register.main sample_login sample_dirname world_fine bare_desk =
    (Ok tt,
     {| Register.calls := Register.calls bare_desk + 12;
        Register.files := Register.files bare_desk;
        Register.done := Register.done bare_desk
          ++ Register.registration sample_login
          ++ [Register.Print "You logged in!"] |}) ∧
  foldr Z.add 0
    (flat_map (λ a, match a with Register.Sleep ms => [ms] | _ => [] end)
              (Register.registration sample_login)) = 30 * 1000.
Proof.
  refine (Register.registration_goes_through sample_login sample_dirname
            world_fine bare_desk _ _ _).
  - intros k. reflexivity.
  - intros k. simpl. lia.
  - vm_compute. reflexivity.
Defined.
